(** * Test Impact Analysis runtime: target list, coverage ingestion and
    test sequences.

    Shallow embedding of
    - [Target/Common/TestImpactTargetList.h] (class template [TargetList]),
    - [Runtime/Native/Code/Source/TestImpactNativeRuntime.cpp]
      (coverage consolidation, dependency-map update and the seeded,
      impact-analysis and safe-impact-analysis sequences),
    followed by the properties established about them. *)

From Stdlib Require Import ZArith Lia OrdersEx.
From stdpp Require Import gmap strings list fin_maps sorting.

Open Scope string_scope.
Open Scope list_scope.
Open Scope nat_scope.

(** ** Exceptions

    [AZ_TestImpact_Eval(cond, ExceptionType, msg)] throws
    [ExceptionType(msg)] when [cond] is false.  Throwing code is embedded
    with results in [Exception + A]. *)

Inductive Exception : Type :=
  | TargetException (msg : string)
  | RuntimeException (msg : string).

Definition AZ_TestImpact_Eval (condition : bool) (e : Exception) : Exception + unit :=
  if condition then inr tt else inl e.

(** ** String comparison

    [AZStd::string::operator<] is the lexicographic order on characters;
    it is the order of [String_as_OT]. *)

Definition string_lt (a b : string) : Prop := String_as_OT.compare a b = Lt.

Definition string_ltb (a b : string) : bool :=
  match String_as_OT.compare a b with Lt => true | _ => false end.

(** ** TestImpactTargetList.h *)

Module TargetListH.

(** The template parameter [Target]: a type with a nested [Descriptor]
    carrying [m_name], constructible from a descriptor, and exposing
    [GetName()], the name of the descriptor it was built from. *)
Class TargetType (Target : Type) : Type := {
  Descriptor : Type;
  m_name : Descriptor → string;
  MakeTarget : Descriptor → Target;
  GetName : Target → string;
  GetName_MakeTarget : ∀ d, GetName (MakeTarget d) = m_name d
}.

(** [AZStd::adjacent_find(first, last, pred)]: position of the first
    element that satisfies [pred] together with its successor; [None]
    stands for [last]. *)
Fixpoint adjacent_find {A} (pred : A → A → bool) (l : list A) : option nat :=
  match l with
  | x :: ((y :: _) as tl) =>
      if pred x y then Some 0 else S <$> adjacent_find pred tl
  | _ => None
  end.

Section TargetList.
Context {Target : Type} `{TargetType Target}.

(** [class TargetList]: the only member is [m_targets]. *)
Record TargetList : Type := { m_targets : list Target }.

(** The order a comparison sort with comparator
    [lhs->m_name < rhs->m_name] establishes: no element is strictly
    below its predecessor. *)
Definition descriptor_le (lhs rhs : Descriptor) : Prop :=
  ¬ string_lt (m_name rhs) (m_name lhs).

#[global] Instance descriptor_le_dec lhs rhs : Decision (descriptor_le lhs rhs).
Proof. unfold descriptor_le, string_lt. apply _. Defined.

(** The constructor.  [AZStd::sort] is modelled by [merge_sort]; the
    vector of targets is only filled once both checks have passed. *)
Definition TargetList_ctor (descriptors : list Descriptor) : Exception + TargetList :=
  match AZ_TestImpact_Eval (negb (bool_decide (descriptors = [])))
                           (TargetException "Target list is empty") with
  | inl e => inl e
  | inr _ =>
      let descriptors := merge_sort descriptor_le descriptors in
      let duplicateElement :=
        adjacent_find (λ lhs rhs, String.eqb (m_name lhs) (m_name rhs)) descriptors in
      match AZ_TestImpact_Eval (bool_decide (duplicateElement = None))
              (TargetException "Target list contains duplicate targets") with
      | inl e => inl e
      | inr _ => inr {| m_targets := MakeTarget <$> descriptors |}
      end
  end.

Definition GetTargets (tl : TargetList) : list Target := m_targets tl.
Definition GetNumTargets (tl : TargetList) : nat := length (m_targets tl).

(** [std::lower_bound] / [std::upper_bound] on the index range
    [first, first + len): the usual bisection.  [steps] bounds the number
    of iterations; [len] at least halves on each one, so [len] itself is
    enough. *)
Fixpoint lower_bound_loop (steps : nat) (v : list Target) (name : string)
    (first len : nat) : nat :=
  match steps with
  | 0 => first
  | S steps =>
      if decide (len = 0) then first else
      let half := len / 2 in
      let mid := first + half in
      match v !! mid with
      | Some target =>
          if string_ltb (GetName target) name
          then lower_bound_loop steps v name (mid + 1) (len - half - 1)
          else lower_bound_loop steps v name first half
      | None => first
      end
  end.

Fixpoint upper_bound_loop (steps : nat) (v : list Target) (name : string)
    (first len : nat) : nat :=
  match steps with
  | 0 => first
  | S steps =>
      if decide (len = 0) then first else
      let half := len / 2 in
      let mid := first + half in
      match v !! mid with
      | Some target =>
          if string_ltb name (GetName target)
          then upper_bound_loop steps v name first half
          else upper_bound_loop steps v name (mid + 1) (len - half - 1)
      | None => first
      end
  end.

(** [std::partition_point] on an index range, by the same bisection:
    both bounds are instances of it, [lower_bound] for the predicate
    [comp(element, value)] and [upper_bound] for [!comp(value, element)]. *)
Fixpoint partition_point_loop (p : Target → bool) (steps : nat) (v : list Target)
    (first len : nat) : nat :=
  match steps with
  | 0 => first
  | S steps =>
      if decide (len = 0) then first else
      let half := len / 2 in
      let mid := first + half in
      match v !! mid with
      | Some target =>
          if p target
          then partition_point_loop p steps v (mid + 1) (len - half - 1)
          else partition_point_loop p steps v first half
      | None => first
      end
  end.

(** [std::equal_range(begin, end, name, TargetComparator{})]. *)
Definition equal_range (v : list Target) (name : string) : nat * nat :=
  (lower_bound_loop (length v) v name 0 (length v),
   upper_bound_loop (length v) v name 0 (length v)).

(** [GetTarget]: a pointer into [m_targets] is an index; [None] is
    [nullptr]. *)
Definition GetTarget (tl : TargetList) (name : string) : option nat :=
  let targetRange := equal_range (m_targets tl) name in
  if decide (targetRange.1 ≠ targetRange.2) then Some targetRange.1 else None.

(** [GetTargetOrThrow]: the evaluated condition is the pointer itself,
    i.e. whether it is non-null. *)
Definition GetTargetOrThrow (tl : TargetList) (name : string) : Exception + nat :=
  match GetTarget tl name with
  | Some target => inr target
  | None => inl (TargetException ("Couldn't find target " +:+ name))
  end.

Definition HasTarget (tl : TargetList) (name : string) : bool :=
  bool_decide (GetTarget tl name ≠ None).

End TargetList.

Arguments TargetList Target : clear implicits.

(** Modelled from the spec: a build target, whose class is not part of
    the sources at hand.  It is identified by its name and keeps the
    descriptor it was made from. *)
Record BuildTargetDescriptor : Type := { descriptor_name : string }.
Record BuildTarget : Type := { m_descriptor : BuildTargetDescriptor }.

#[global] Instance BuildTarget_TargetType : TargetType BuildTarget :=
  {| Descriptor := BuildTargetDescriptor;
     m_name := descriptor_name;
     MakeTarget := Build_BuildTarget;
     GetName := λ t, descriptor_name (m_descriptor t);
     GetName_MakeTarget := λ d, eq_refl |}.

(** Three descriptors to build lists from. *)
Definition T1 : BuildTargetDescriptor := {| descriptor_name := "T1" |}.
Definition T2 : BuildTargetDescriptor := {| descriptor_name := "T2" |}.
Definition T3 : BuildTargetDescriptor := {| descriptor_name := "T3" |}.

End TargetListH.

(** ** Data of the native runtime *)

(** Modelled from the spec: [RepoPath], whose class is not part of the
    sources at hand.  A path is its sequence of components (the root
    directory, when present, being the first one).  A path is under a base
    when the base's components are a prefix of its own, and its lexically
    relative form drops them. *)
Definition RepoPath : Type := list string.

Definition IsRelativeTo (path base : RepoPath) : bool :=
  bool_decide (base `prefix_of` path).

Definition LexicallyRelative (path base : RepoPath) : RepoPath :=
  drop (length base) path.

Module Policy.
Inductive FailedTestCoverage : Type := Discard | Keep.
Inductive IntegrityFailure : Type := Abort | Continue.
Inductive DynamicDependencyMap : Type := DiscardMap | Update.
Inductive TestPrioritization : Type := NoPrioritization | DependencyLocality.

#[global] Instance FailedTestCoverage_eq_dec : EqDecision FailedTestCoverage.
Proof. solve_decision. Defined.
#[global] Instance IntegrityFailure_eq_dec : EqDecision IntegrityFailure.
Proof. solve_decision. Defined.
#[global] Instance DynamicDependencyMap_eq_dec : EqDecision DynamicDependencyMap.
Proof. solve_decision. Defined.
End Policy.

Module Client.
Inductive TestRunResult : Type :=
  NotRun | FailedToExecute | Timeout | AllTestsPass | TestFailures.

#[global] Instance TestRunResult_eq_dec : EqDecision TestRunResult.
Proof. solve_decision. Defined.

(** [Client::TestRunSelection]: the included and the excluded runs. *)
Record TestRunSelection : Type := {
  GetIncludedTestRuns : list string;
  GetExcludedTestRuns : list string
}.
End Client.

Inductive TestSequenceResult : Type := Success | Failure | SequenceTimeout.

(** A [const NativeTestTarget*] always points into the test-target list of
    the runtime, whose names are unique: the pointer is represented by the
    name of its target, and [ExtractTestTargetNames] reads the names off. *)
Definition TestTargetPtr : Type := string.

Definition ExtractTestTargetNames (testTargets : list TestTargetPtr) : list string :=
  testTargets.

(** [TestCoverage]: the sources a test target covered. *)
Record TestCoverage : Type := { GetSourcesCovered : list RepoPath }.

(** [TestEngineRegularRun<NativeTestTarget>]. *)
Record TestEngineRegularRun : Type := {
  reg_GetTestTarget : TestTargetPtr;
  reg_GetCommandString : string;
  reg_GetTestResult : Client.TestRunResult
}.

(** [TestEngineInstrumentedRun<NativeTestTarget, TestCoverage>]
    ([GetCoverge] is the accessor's name in the code base). *)
Record TestEngineInstrumentedRun : Type := {
  GetTestTarget : TestTargetPtr;
  GetCommandString : string;
  GetTestResult : Client.TestRunResult;
  GetCoverge : option TestCoverage
}.

(** [SourceCoveringTests] and [SourceCoveringTestsList]. *)
Record SourceCoveringTests : Type := {
  GetPath : RepoPath;
  GetCoveringTestTargets : gset string
}.

Record SourceCoveringTestsList : Type := { GetCoverage : list SourceCoveringTests }.

Definition GetNumSources (l : SourceCoveringTestsList) : nat := length (GetCoverage l).

(** Modelled from the spec: [SerializeSourceCoveringTestsList].  The
    encoding is an implementation choice that round-trips; the content of
    the persisted file is represented by the list it encodes. *)
Definition SerializeSourceCoveringTestsList (l : SourceCoveringTestsList)
  : SourceCoveringTestsList := l.

(** ** The dynamic dependency map

    Modelled from the spec: class [DynamicDependencyMap] (section 4.4),
    whose code is not part of the sources at hand.  The state is the owning
    test-target list (by name, in list order) and the covering relation
    [source -> set of test-target names]; the inverse mapping is the one
    invariant I1 determines, and is read off the forward one. *)
Record DynamicDependencyMap : Type := {
  m_testTargets : list string;
  m_sourceDependencyMap : gmap RepoPath (gset string)
}.

(** Erases the name from every covering set and drops the sources whose
    set becomes empty. *)
Definition RemoveTestTargetFromSourceCoverage (testTarget : TestTargetPtr)
    (ddm : DynamicDependencyMap) : DynamicDependencyMap :=
  {| m_testTargets := m_testTargets ddm;
     m_sourceDependencyMap :=
       omap (λ tests : gset string,
               let tests' := tests ∖ {[testTarget]} in
               if decide (tests' = ∅) then None else Some tests')
            (m_sourceDependencyMap ddm) |}.

(** Brings the list into the covering relation: each source of the list
    is recorded as covered by the tests listed for it, besides those the
    map records for it already.  What the map records for sources that
    are not in the list stays (section 8, scenario 2: the coverage of the
    test targets that are not in the batch survives an update). *)
Definition ReplaceSourceCoverage (l : SourceCoveringTestsList)
    (ddm : DynamicDependencyMap) : DynamicDependencyMap :=
  {| m_testTargets := m_testTargets ddm;
     m_sourceDependencyMap :=
       foldl (λ (m : gmap RepoPath (gset string)) c,
                <[GetPath c := default ∅ (m !! GetPath c) ∪ GetCoveringTestTargets c]> m)
             (m_sourceDependencyMap ddm) (GetCoverage l) |}.

Definition ClearAllSourceCoverage (ddm : DynamicDependencyMap) : DynamicDependencyMap :=
  {| m_testTargets := m_testTargets ddm; m_sourceDependencyMap := ∅ |}.

(** Lexicographic order on paths, component by component. *)
Fixpoint path_ltb (p q : RepoPath) : bool :=
  match p, q with
  | [], [] => false
  | [], _ :: _ => true
  | _ :: _, [] => false
  | a :: p, b :: q =>
      match String_as_OT.compare a b with
      | Lt => true
      | Gt => false
      | Eq => path_ltb p q
      end
  end.

Definition source_le (a b : SourceCoveringTests) : Prop :=
  path_ltb (GetPath b) (GetPath a) = false.

#[global] Instance source_le_dec a b : Decision (source_le a b).
Proof. unfold source_le. apply _. Defined.

(** The current covering relation as a list, sources in lexicographic
    order. *)
Definition ExportSourceCoverage (ddm : DynamicDependencyMap) : SourceCoveringTestsList :=
  {| GetCoverage :=
       merge_sort source_le
         ((λ e, {| GetPath := e.1; GetCoveringTestTargets := e.2 |})
            <$> map_to_list (m_sourceDependencyMap ddm)) |}.

(** The sources a test target covers (the inverse mapping). *)
Definition GetCoveredSources (ddm : DynamicDependencyMap) (testTarget : string)
  : gset RepoPath :=
  dom (filter (λ e, testTarget ∈ e.2) (m_sourceDependencyMap ddm)).

(** The test targets no source is covered by, in target-list order. *)
Definition GetNotCoveringTests (ddm : DynamicDependencyMap) : list TestTargetPtr :=
  filter (λ t, GetCoveredSources ddm t = ∅) (m_testTargets ddm).

(** ** Effects

    The runtime mutates its dependency map, writes and deletes the
    persisted coverage file, logs, calls the client back and calls the test
    engine; any of its functions may throw.  All of that is threaded
    through one state, which a throw leaves as it is at that point. *)

Inductive LogEntry : Type :=
  | Warning_IgnoringSource (sourcePath : RepoPath)
  | Error (what : string).

(** What the client and the test engine get to see, in order. *)
Inductive Event : Type :=
  | SequenceStart (selected : Client.TestRunSelection)
  | ImpactAnalysisSequenceStart (selected : Client.TestRunSelection)
      (discarded drafted : list string)
  | SafeImpactAnalysisSequenceStart (selected discarded : Client.TestRunSelection)
      (drafted : list string)
  | EngineRun (instrumented : bool) (testTargets : list TestTargetPtr)
      (testTargetTimeout globalTimeout : option Z)
  | SequenceEnd.

Record State : Type := {
  m_dynamicDependencyMap : DynamicDependencyMap;
  m_hasImpactAnalysisData : bool;
  files : gmap RepoPath SourceCoveringTestsList;
  writable : bool;
  log : list LogEntry;
  trace : list Event
}.

(** Updates of one component of the state. *)
Definition with_map (f : DynamicDependencyMap → DynamicDependencyMap) (s : State) : State :=
  {| m_dynamicDependencyMap := f (m_dynamicDependencyMap s);
     m_hasImpactAnalysisData := m_hasImpactAnalysisData s;
     files := files s; writable := writable s; log := log s; trace := trace s |}.

Definition with_hasImpactAnalysisData (f : bool → bool) (s : State) : State :=
  {| m_dynamicDependencyMap := m_dynamicDependencyMap s;
     m_hasImpactAnalysisData := f (m_hasImpactAnalysisData s);
     files := files s; writable := writable s; log := log s; trace := trace s |}.

Definition with_files
    (f : gmap RepoPath SourceCoveringTestsList → gmap RepoPath SourceCoveringTestsList)
    (s : State) : State :=
  {| m_dynamicDependencyMap := m_dynamicDependencyMap s;
     m_hasImpactAnalysisData := m_hasImpactAnalysisData s;
     files := f (files s); writable := writable s; log := log s; trace := trace s |}.

Definition with_log (f : list LogEntry → list LogEntry) (s : State) : State :=
  {| m_dynamicDependencyMap := m_dynamicDependencyMap s;
     m_hasImpactAnalysisData := m_hasImpactAnalysisData s;
     files := files s; writable := writable s; log := f (log s); trace := trace s |}.

Definition with_trace (f : list Event → list Event) (s : State) : State :=
  {| m_dynamicDependencyMap := m_dynamicDependencyMap s;
     m_hasImpactAnalysisData := m_hasImpactAnalysisData s;
     files := files s; writable := writable s; log := log s; trace := f (trace s) |}.

Definition M (A : Type) : Type := State → State * (Exception + A).

#[global] Instance M_ret : MRet M := λ A (a : A) s, (s, inr a).
#[global] Instance M_bind : MBind M := λ A B (f : A → M B) (m : M A) s,
  match m s with
  | (s', inr a) => f a s'
  | (s', inl e) => (s', inl e)
  end.

Definition throw {A} (e : Exception) : M A := λ s, (s, inl e).

(** [try { body } catch (const RuntimeException& e) { handler }]: any
    other exception passes through. *)
Definition try_catch_RuntimeException {A} (body : M A) (handler : string → M A) : M A :=
  λ s, match body s with
       | (s', inl (RuntimeException what)) => handler what s'
       | r => r
       end.

Definition Eval (condition : bool) (e : Exception) : M unit :=
  λ s, (s, AZ_TestImpact_Eval condition e).

Definition modify_map (f : DynamicDependencyMap → DynamicDependencyMap) : M unit :=
  λ s, (with_map f s, inr tt).

Definition get_map : M DynamicDependencyMap := λ s, (s, inr (m_dynamicDependencyMap s)).

Definition set_hasImpactAnalysisData (f : bool → bool) : M unit :=
  λ s, (with_hasImpactAnalysisData f s, inr tt).

Definition write_log (entry : LogEntry) : M unit :=
  λ s, (with_log (λ l, l ++ [entry]) s, inr tt).

Definition emit (ev : Event) : M unit :=
  λ s, (with_trace (λ t, t ++ [ev]) s, inr tt).

Definition get_trace : M (list Event) := λ s, (s, inr (trace s)).

(** Modelled from the spec: [WriteFileContents<RuntimeException>] and
    [DeleteFile], file primitives outside the sources at hand.  A write
    replaces the whole file or, on an I/O failure, raises
    [RuntimeException] and leaves the file as it was. *)
Definition WriteFileContents (data : SourceCoveringTestsList) (path : RepoPath) : M unit :=
  λ s, if writable s
       then (with_files <[path := data]> s, inr tt)
       else (s, inl (RuntimeException "Couldn't open file for writing")).

Definition DeleteFile (path : RepoPath) : M unit :=
  λ s, (with_files (delete path) s, inr tt).

(** A range-based [for] whose body updates a local accumulator. *)
Fixpoint for_each {A B} (body : A → B → M B) (l : list A) (acc : B) : M B :=
  match l with
  | [] => mret acc
  | x :: l => acc ← body x acc; for_each body l acc
  end.

(** ** Coverage consolidation and persistence *)

(** [coverage[source].insert(name)]. *)
Definition coverage_insert (name : string) (coverage : gmap RepoPath (gset string))
    (source : RepoPath) : gmap RepoPath (gset string) :=
  <[source := default ∅ (coverage !! source) ∪ {[name]}]> coverage.

(** The text of the exception for a passing job without coverage. *)
Definition NoCoverageMessage (job : TestEngineInstrumentedRun) : string :=
  "Test target '" +:+ GetTestTarget job +:+
  "' completed its test run successfully but produced no coverage data. Command string: '"
  +:+ GetCommandString job +:+ "'".

(** Body of the loop over the jobs in
    [CreateSourceCoveringTestFromTestCoverages]. *)
Definition consolidate_job (failedTestCoveragePolicy : Policy.FailedTestCoverage)
    (job : TestEngineInstrumentedRun) (coverage : gmap RepoPath (gset string))
    : M (gmap RepoPath (gset string)) :=
  modify_map (RemoveTestTargetFromSourceCoverage (GetTestTarget job));;
  let testResult := GetTestResult job in
  if bool_decide (failedTestCoveragePolicy = Policy.Discard)
     && bool_decide (testResult = Client.TestFailures)
  then mret coverage
  else if bool_decide (testResult = Client.AllTestsPass)
          || bool_decide (testResult = Client.TestFailures)
  then
    (if bool_decide (testResult = Client.AllTestsPass)
     then Eval (bool_decide (is_Some (GetCoverge job)))
            (RuntimeException (NoCoverageMessage job))
     else mret tt);;
    match GetCoverge job with
    | None => mret coverage
    | Some testCoverage =>
        mret (foldl (coverage_insert (GetTestTarget job)) coverage
                    (GetSourcesCovered testCoverage))
    end
  else mret coverage.

(** Body of the loop over the aggregated [coverage]. *)
Definition collect_source (repoRoot : RepoPath) (entry : RepoPath * gset string)
    (sourceCoveringTests : list SourceCoveringTests) : M (list SourceCoveringTests) :=
  let sourcePath := entry.1 in
  if IsRelativeTo sourcePath repoRoot
  then mret (sourceCoveringTests ++
             [{| GetPath := LexicallyRelative sourcePath repoRoot;
                 GetCoveringTestTargets := entry.2 |}])
  else write_log (Warning_IgnoringSource sourcePath);; mret sourceCoveringTests.

(** The iteration order of the [unordered_map] is that of [map_to_list]. *)
Definition CreateSourceCoveringTestFromTestCoverages
    (jobs : list TestEngineInstrumentedRun)
    (failedTestCoveragePolicy : Policy.FailedTestCoverage)
    (repoRoot : RepoPath) : M SourceCoveringTestsList :=
  coverage ← for_each (consolidate_job failedTestCoveragePolicy) jobs ∅;
  sourceCoveringTests ← for_each (collect_source repoRoot) (map_to_list coverage) [];
  mret {| GetCoverage := sourceCoveringTests |}.

Definition UpdateAndSerializeDynamicDependencyMap
    (jobs : list TestEngineInstrumentedRun)
    (failedTestCoveragePolicy : Policy.FailedTestCoverage)
    (integrationFailurePolicy : Policy.IntegrityFailure)
    (repoRoot sparTiaFile : RepoPath) : M (option bool) :=
  try_catch_RuntimeException
    (sourceCoverageTestsList ←
       CreateSourceCoveringTestFromTestCoverages jobs failedTestCoveragePolicy repoRoot;
     if bool_decide (GetNumSources sourceCoverageTestsList = 0)
     then mret None
     else
       modify_map (ReplaceSourceCoverage sourceCoverageTestsList);;
       dynamicDependencyMap ← get_map;
       let sparTia := ExportSourceCoverage dynamicDependencyMap in
       let sparTiaData := SerializeSourceCoveringTestsList sparTia in
       WriteFileContents sparTiaData sparTiaFile;;
       mret (Some true))
    (λ what,
       if bool_decide (integrationFailurePolicy = Policy.Abort)
       then throw (RuntimeException what)
       else write_log (Error what);; mret None).

(** ** Notions used to state the properties of consolidation *)

(** The covering relation of a map: [testTarget] is among the tests
    recorded for [source]. *)
Definition covers (m : gmap RepoPath (gset string)) (source : RepoPath)
    (testTarget : string) : Prop :=
  ∃ tests, m !! source = Some tests ∧ testTarget ∈ tests.

(** A job that passed all its tests but carries no coverage artifact. *)
Definition passed_without_coverage (job : TestEngineInstrumentedRun) : bool :=
  bool_decide (GetTestResult job = Client.AllTestsPass)
  && bool_decide (GetCoverge job = None).

(** The sources a job hands over to the aggregated coverage. *)
Definition ingested_sources (failedTestCoveragePolicy : Policy.FailedTestCoverage)
    (job : TestEngineInstrumentedRun) : list RepoPath :=
  if bool_decide (failedTestCoveragePolicy = Policy.Discard)
     && bool_decide (GetTestResult job = Client.TestFailures)
  then []
  else if bool_decide (GetTestResult job = Client.AllTestsPass)
          || bool_decide (GetTestResult job = Client.TestFailures)
  then match GetCoverge job with
       | Some testCoverage => GetSourcesCovered testCoverage
       | None => []
       end
  else [].

(** The jobs the loop gets to: all of them, or those up to and including
    the first that passed without coverage. *)
Fixpoint processed_jobs (jobs : list TestEngineInstrumentedRun)
    : list TestEngineInstrumentedRun :=
  match jobs with
  | [] => []
  | job :: jobs =>
      if passed_without_coverage job then [job] else job :: processed_jobs jobs
  end.

(** The aggregated coverage of a batch none of whose jobs throws. *)
Definition aggregated_coverage (failedTestCoveragePolicy : Policy.FailedTestCoverage)
    (jobs : list TestEngineInstrumentedRun) (coverage : gmap RepoPath (gset string))
    : gmap RepoPath (gset string) :=
  foldl (λ coverage job,
           foldl (coverage_insert (GetTestTarget job)) coverage
                 (ingested_sources failedTestCoveragePolicy job))
        coverage jobs.

(** The entries of the aggregated coverage that lie under the repository
    root, made relative to it, and the warnings for the others. *)
Definition sources_in_repo (repoRoot : RepoPath)
    (entries : list (RepoPath * gset string)) : list SourceCoveringTests :=
  (λ entry, {| GetPath := LexicallyRelative entry.1 repoRoot;
               GetCoveringTestTargets := entry.2 |})
    <$> filter (λ entry, IsRelativeTo entry.1 repoRoot = true) entries.

Definition warnings_outside_repo (repoRoot : RepoPath)
    (entries : list (RepoPath * gset string)) : list LogEntry :=
  (λ entry, Warning_IgnoringSource entry.1)
    <$> filter (λ entry, IsRelativeTo entry.1 repoRoot = false) entries.

Definition consolidated_list (failedTestCoveragePolicy : Policy.FailedTestCoverage)
    (repoRoot : RepoPath) (jobs : list TestEngineInstrumentedRun)
    : SourceCoveringTestsList :=
  {| GetCoverage :=
       sources_in_repo repoRoot
         (map_to_list (aggregated_coverage failedTestCoveragePolicy jobs ∅)) |}.

(** Removal of the coverage of the targets of a list of jobs, in order. *)
Definition remove_targets_of (jobs : list TestEngineInstrumentedRun)
    (ddm : DynamicDependencyMap) : DynamicDependencyMap :=
  foldl (λ ddm job, RemoveTestTargetFromSourceCoverage (GetTestTarget job) ddm) ddm jobs.

(** ** Collaborators of the sequences *)

(** The accessors shared by the two kinds of test-engine job. *)
Class TestEngineJob (TestJob : Type) : Type := {
  job_GetTestTarget : TestJob → TestTargetPtr;
  job_GetCommandString : TestJob → string;
  job_GetTestResult : TestJob → Client.TestRunResult
}.

#[global] Instance TestEngineRegularRun_job : TestEngineJob TestEngineRegularRun :=
  {| job_GetTestTarget := reg_GetTestTarget;
     job_GetCommandString := reg_GetCommandString;
     job_GetTestResult := reg_GetTestResult |}.

#[global] Instance TestEngineInstrumentedRun_job : TestEngineJob TestEngineInstrumentedRun :=
  {| job_GetTestTarget := GetTestTarget;
     job_GetCommandString := GetCommandString;
     job_GetTestResult := GetTestResult |}.

(** What a call of the test engine yields: the sequence result, the jobs
    and the time, in milliseconds, the [Timer] around the call measures. *)
Record EngineOutcome (TestJob : Type) : Type := {
  outcome_result : TestSequenceResult;
  outcome_jobs : list TestJob;
  outcome_elapsedMs : Z
}.
Arguments outcome_result {TestJob}.
Arguments outcome_jobs {TestJob}.
Arguments outcome_elapsedMs {TestJob}.

(** Modelled from the spec: the test engine (section 6), an external
    collaborator.  Its outcome may depend on anything that happened so far
    and on the targets and timeouts it is given; nothing else is assumed
    about it. *)
Record NativeTestEngine : Type := {
  InstrumentedRun : list Event → list TestTargetPtr → option Z → option Z →
                    EngineOutcome TestEngineInstrumentedRun;
  RegularRun : list Event → list TestTargetPtr → option Z → option Z →
               EngineOutcome TestEngineRegularRun
}.

Record ChangeList : Type := {
  m_createdFiles : list RepoPath;
  m_updatedFiles : list RepoPath;
  m_deletedFiles : list RepoPath
}.

(** Modelled from the spec: change-list resolution followed by
    [SelectTestTargets] (sections 4.3 and 4.5), code outside the sources at
    hand: some choice of test targets, read off the dependency map. *)
Definition TestSelectorAndPrioritizer : Type :=
  DynamicDependencyMap → ChangeList → Policy.TestPrioritization → list TestTargetPtr.

(** Modelled from the spec: the exclude list (section 4.2).  A listed name
    maps to its test-case filters; a target is fully excluded iff it is
    listed with no filter. *)
Definition TestTargetExcludeList : Type := gmap string (list string).

Definition IsTestTargetFullyExcluded (excludeList : TestTargetExcludeList)
    (testTarget : TestTargetPtr) : bool :=
  bool_decide (excludeList !! testTarget = Some []).

(** Modelled from the spec: [SelectTestTargetsByExcludeList], declared in
    [TestImpactNativeRuntimeUtils.h]: the targets not fully excluded and
    those fully excluded, each in the given order. *)
Definition SelectTestTargetsByExcludeList (excludeList : TestTargetExcludeList)
    (testTargets : list TestTargetPtr) : list TestTargetPtr * list TestTargetPtr :=
  (filter (λ t, IsTestTargetFullyExcluded excludeList t = false) testTargets,
   filter (λ t, IsTestTargetFullyExcluded excludeList t = true) testTargets).

(** [struct TestRunData]; time points are not represented, durations
    are. *)
Record TestRunData (TestJob : Type) : Type := {
  m_result : TestSequenceResult;
  m_jobs : list TestJob;
  m_duration : Z
}.
Arguments m_result {TestJob}.
Arguments m_jobs {TestJob}.
Arguments m_duration {TestJob}.

Definition TestRunData_default {TestJob} : TestRunData TestJob :=
  {| m_result := Success; m_jobs := []; m_duration := 0 |}.

Module ClientReports.
Record TestRunBase : Type := {
  GetTargetName : string;
  GetCommandString : string;
  GetResult : Client.TestRunResult
}.

Record TestRunReport : Type := {
  GetSequenceResult : TestSequenceResult;
  GetDuration : Z;
  GetTestRuns : list TestRunBase
}.

Record SeedSequenceReport : Type := {
  seed_testTargetTimeout : option Z;
  seed_globalTimeout : option Z;
  seed_selectedTestRuns : Client.TestRunSelection;
  seed_selectedTestRunReport : TestRunReport
}.

Record ImpactAnalysisSequenceReport : Type := {
  ia_testTargetTimeout : option Z;
  ia_globalTimeout : option Z;
  ia_selectedTestRuns : Client.TestRunSelection;
  ia_discardedTestRuns : list string;
  ia_draftedTestRuns : list string;
  ia_selectedTestRunReport : TestRunReport;
  ia_draftedTestRunReport : TestRunReport
}.

Record SafeImpactAnalysisSequenceReport : Type := {
  safe_testTargetTimeout : option Z;
  safe_globalTimeout : option Z;
  safe_selectedTestRuns : Client.TestRunSelection;
  safe_discardedTestRuns : Client.TestRunSelection;
  safe_draftedTestRuns : list string;
  safe_selectedTestRunReport : TestRunReport;
  safe_discardedTestRunReport : TestRunReport;
  safe_draftedTestRunReport : TestRunReport
}.
End ClientReports.

(** Modelled from the spec: [GenerateTestRunReport], declared in
    [TestImpactNativeRuntimeUtils.h]: result, duration and one client run
    per job. *)
Definition GenerateTestRunReport `{TestEngineJob TestJob}
    (result : TestSequenceResult) (duration : Z) (jobs : list TestJob)
    : ClientReports.TestRunReport :=
  {| ClientReports.GetSequenceResult := result;
     ClientReports.GetDuration := duration;
     ClientReports.GetTestRuns :=
       (λ job, {| ClientReports.GetTargetName := job_GetTestTarget job;
                  ClientReports.GetCommandString := job_GetCommandString job;
                  ClientReports.GetResult := job_GetTestResult job |}) <$> jobs |}.

(** The members of [NativeRuntime] that a sequence reads but never
    writes. *)
Record NativeRuntime : Type := {
  m_repoRoot : RepoPath;
  m_sparTiaFile : RepoPath;
  m_failedTestCoveragePolicy : Policy.FailedTestCoverage;
  m_integrationFailurePolicy : Policy.IntegrityFailure;
  m_regularTestTargetExcludeList : TestTargetExcludeList;
  m_instrumentedTestTargetExcludeList : TestTargetExcludeList;
  m_testEngine : NativeTestEngine;
  m_testSelectorAndPrioritizer : TestSelectorAndPrioritizer
}.

(** [ConcatenateVectors]. *)
Definition ConcatenateVectors {T} (v1 v2 : list T) : list T := v1 ++ v2.

(** An optional callback is known by its presence; calling it shows in
    the trace. *)
Definition call_if_present (callback : bool) (ev : Event) : M unit :=
  if callback then emit ev else mret tt.

(** ** The sequences

    A sequence is embedded with what decides which targets are run, with
    which timeouts, and what becomes of the map and of the persisted file.
    The handler of per-test completion callbacks, which only counts and
    forwards to the client, and the fields of the reports that copy members
    of the runtime (concurrency, policies, suite) are left out. *)

(** [ImpactAnalysisTestSequenceWrapper].  [gatherTestRunData] captures
    [globalTimeout] and hands it to the runner; [sequenceTimeout] is
    assigned after the selected run and not read afterwards. *)
Definition ImpactAnalysisTestSequenceWrapper `{TestEngineJob TestJob}
    (testRunner : list TestTargetPtr → option Z → M (EngineOutcome TestJob))
    (includedSelectedTestTargets excludedSelectedTestTargets
       discardedTestTargets draftedTestTargets : list TestTargetPtr)
    (testTargetTimeout globalTimeout : option Z)
    (testSequenceStartCallback testSequenceEndCallback : bool)
    (updateCoverage : option (list TestJob → M unit))
    : M ClientReports.ImpactAnalysisSequenceReport :=
  let sequenceTimeout := globalTimeout in
  let selectedTests :=
    {| Client.GetIncludedTestRuns := ExtractTestTargetNames includedSelectedTestTargets;
       Client.GetExcludedTestRuns := ExtractTestTargetNames excludedSelectedTestTargets |} in
  let discardedTests := ExtractTestTargetNames discardedTestTargets in
  let draftedTests := ExtractTestTargetNames draftedTestTargets in
  call_if_present testSequenceStartCallback
    (ImpactAnalysisSequenceStart selectedTests discardedTests draftedTests);;
  let gatherTestRunData (testsTargets : list TestTargetPtr) : M (TestRunData TestJob) :=
    outcome ← testRunner testsTargets globalTimeout;
    mret {| m_result := outcome_result outcome;
            m_jobs := outcome_jobs outcome;
            m_duration := outcome_elapsedMs outcome |} in
  selected ←
    (if bool_decide (includedSelectedTestTargets ≠ [])
     then
       selectedTestRunData ← gatherTestRunData includedSelectedTestTargets;
       mret (selectedTestRunData,
             match globalTimeout with
             | Some globalTimeout =>
                 let elapsed := m_duration selectedTestRunData in
                 Some (if (elapsed <? globalTimeout)%Z
                       then (globalTimeout - elapsed)%Z else 0%Z)
             | None => sequenceTimeout
             end)
     else mret (TestRunData_default, sequenceTimeout));
  let selectedTestRunData := selected.1 in
  draftedTestRunData ←
    (if bool_decide (draftedTestTargets ≠ [])
     then gatherTestRunData draftedTestTargets
     else mret TestRunData_default);
  let sequenceReport :=
    {| ClientReports.ia_testTargetTimeout := testTargetTimeout;
       ClientReports.ia_globalTimeout := globalTimeout;
       ClientReports.ia_selectedTestRuns := selectedTests;
       ClientReports.ia_discardedTestRuns := discardedTests;
       ClientReports.ia_draftedTestRuns := draftedTests;
       ClientReports.ia_selectedTestRunReport :=
         GenerateTestRunReport (m_result selectedTestRunData)
           (m_duration selectedTestRunData) (m_jobs selectedTestRunData);
       ClientReports.ia_draftedTestRunReport :=
         GenerateTestRunReport (m_result draftedTestRunData)
           (m_duration draftedTestRunData) (m_jobs draftedTestRunData) |} in
  call_if_present testSequenceEndCallback SequenceEnd;;
  match updateCoverage with
  | Some updateCoverage =>
      updateCoverage (ConcatenateVectors (m_jobs selectedTestRunData)
                                         (m_jobs draftedTestRunData))
  | None => mret tt
  end;;
  mret sequenceReport.

Section NativeRuntime.
Variable this : NativeRuntime.

(** [NativeRuntime::SelectCoveringTestTargets]. *)
Definition SelectCoveringTestTargets (changeList : ChangeList)
    (testPrioritizationPolicy : Policy.TestPrioritization)
    : M (list TestTargetPtr * list TestTargetPtr) :=
  dynamicDependencyMap ← get_map;
  let selectedTestTargets :=
    m_testSelectorAndPrioritizer this dynamicDependencyMap changeList
      testPrioritizationPolicy in
  let discardedTestTargets :=
    filter (λ testTarget, testTarget ∉ selectedTestTargets)
           (m_testTargets dynamicDependencyMap) in
  mret (selectedTestTargets, discardedTestTargets).

(** [NativeRuntime::ClearDynamicDependencyMapAndRemoveExistingFile]. *)
Definition ClearDynamicDependencyMapAndRemoveExistingFile : M unit :=
  modify_map ClearAllSourceCoverage;;
  DeleteFile (m_sparTiaFile this).

(** The calls of [m_testEngine->InstrumentedRun] and
    [m_testEngine->RegularRun]. *)
Definition instrumentedTestRun (testTargetTimeout : option Z)
    (testsTargets : list TestTargetPtr) (globalTimeout : option Z)
    : M (EngineOutcome TestEngineInstrumentedRun) :=
  history ← get_trace;
  emit (EngineRun true testsTargets testTargetTimeout globalTimeout);;
  mret (InstrumentedRun (m_testEngine this) history testsTargets
          testTargetTimeout globalTimeout).

Definition regularTestRun (testTargetTimeout : option Z)
    (testsTargets : list TestTargetPtr) (globalTimeout : option Z)
    : M (EngineOutcome TestEngineRegularRun) :=
  history ← get_trace;
  emit (EngineRun false testsTargets testTargetTimeout globalTimeout);;
  mret (RegularRun (m_testEngine this) history testsTargets
          testTargetTimeout globalTimeout).

(** [m_hasImpactAnalysisData = UpdateAndSerializeDynamicDependencyMap(...)
    .value_or(m_hasImpactAnalysisData)]. *)
Definition updateCoverage (jobs : list TestEngineInstrumentedRun) : M unit :=
  updated ← UpdateAndSerializeDynamicDependencyMap jobs
              (m_failedTestCoveragePolicy this) (m_integrationFailurePolicy this)
              (m_repoRoot this) (m_sparTiaFile this);
  set_hasImpactAnalysisData (λ current, default current updated).

(** [NativeRuntime::ImpactAnalysisTestSequence]. *)
Definition ImpactAnalysisTestSequence (changeList : ChangeList)
    (testPrioritizationPolicy : Policy.TestPrioritization)
    (dynamicDependencyMapPolicy : Policy.DynamicDependencyMap)
    (testTargetTimeout globalTimeout : option Z)
    (testSequenceStartCallback testSequenceEndCallback : bool)
    : M ClientReports.ImpactAnalysisSequenceReport :=
  dynamicDependencyMap ← get_map;
  let draftedTestTargets := GetNotCoveringTests dynamicDependencyMap in
  selection ← SelectCoveringTestTargets changeList testPrioritizationPolicy;
  let selectedTestTargets := selection.1 in
  let discardedTestTargets :=
    filter (λ testTarget, testTarget ∉ draftedTestTargets) selection.2 in
  let byExcludeList :=
    SelectTestTargetsByExcludeList (m_instrumentedTestTargetExcludeList this)
      selectedTestTargets in
  let includedSelectedTestTargets := byExcludeList.1 in
  let excludedSelectedTestTargets := byExcludeList.2 in
  if bool_decide (dynamicDependencyMapPolicy = Policy.Update)
  then
    ImpactAnalysisTestSequenceWrapper (instrumentedTestRun testTargetTimeout)
      includedSelectedTestTargets excludedSelectedTestTargets
      discardedTestTargets draftedTestTargets
      testTargetTimeout globalTimeout
      testSequenceStartCallback testSequenceEndCallback
      (Some updateCoverage)
  else
    ImpactAnalysisTestSequenceWrapper (regularTestRun testTargetTimeout)
      includedSelectedTestTargets excludedSelectedTestTargets
      discardedTestTargets draftedTestTargets
      testTargetTimeout globalTimeout
      testSequenceStartCallback testSequenceEndCallback
      None.

(** [NativeRuntime::SafeImpactAnalysisTestSequence].  The runners read
    the local [sequenceTimeout] at the time they are called. *)
Definition SafeImpactAnalysisTestSequence (changeList : ChangeList)
    (testPrioritizationPolicy : Policy.TestPrioritization)
    (testTargetTimeout globalTimeout : option Z)
    (testSequenceStartCallback testSequenceEndCallback : bool)
    : M ClientReports.SafeImpactAnalysisSequenceReport :=
  let sequenceTimeout := globalTimeout in
  dynamicDependencyMap ← get_map;
  let draftedTestTargets := GetNotCoveringTests dynamicDependencyMap in
  selection ← SelectCoveringTestTargets changeList testPrioritizationPolicy;
  let selectedTestTargets := selection.1 in
  let discardedTestTargets := selection.2 in
  let selectedByExcludeList :=
    SelectTestTargetsByExcludeList (m_instrumentedTestTargetExcludeList this)
      selectedTestTargets in
  let includedSelectedTestTargets := selectedByExcludeList.1 in
  let excludedSelectedTestTargets := selectedByExcludeList.2 in
  let discardedByExcludeList :=
    SelectTestTargetsByExcludeList (m_regularTestTargetExcludeList this)
      discardedTestTargets in
  let includedDiscardedTestTargets := discardedByExcludeList.1 in
  let excludedDiscardedTestTargets := discardedByExcludeList.2 in
  let selectedTests :=
    {| Client.GetIncludedTestRuns := ExtractTestTargetNames includedSelectedTestTargets;
       Client.GetExcludedTestRuns := ExtractTestTargetNames excludedSelectedTestTargets |} in
  let discardedTests :=
    {| Client.GetIncludedTestRuns := ExtractTestTargetNames includedDiscardedTestTargets;
       Client.GetExcludedTestRuns := ExtractTestTargetNames excludedDiscardedTestTargets |} in
  let draftedTests := ExtractTestTargetNames draftedTestTargets in
  call_if_present testSequenceStartCallback
    (SafeImpactAnalysisSequenceStart selectedTests discardedTests draftedTests);;
  let gatherTestRunData {TestJob}
      (testRunner : list TestTargetPtr → M (EngineOutcome TestJob))
      (testsTargets : list TestTargetPtr) : M (TestRunData TestJob) :=
    outcome ← testRunner testsTargets;
    mret {| m_result := outcome_result outcome;
            m_jobs := outcome_jobs outcome;
            m_duration := outcome_elapsedMs outcome |} in
  selected ←
    (if bool_decide (includedSelectedTestTargets ≠ [])
     then
       selectedTestRunData ←
         gatherTestRunData
           (λ testsTargets, instrumentedTestRun testTargetTimeout testsTargets
                              sequenceTimeout)
           includedSelectedTestTargets;
       mret (selectedTestRunData,
             match globalTimeout with
             | Some globalTimeout =>
                 let elapsed := m_duration selectedTestRunData in
                 Some (if (elapsed <? globalTimeout)%Z
                       then (globalTimeout - elapsed)%Z else 0%Z)
             | None => sequenceTimeout
             end)
     else mret (TestRunData_default, sequenceTimeout));
  let selectedTestRunData := selected.1 in
  let sequenceTimeout := selected.2 in
  discarded ←
    (if bool_decide (includedDiscardedTestTargets ≠ [])
     then
       discardedTestRunData ←
         gatherTestRunData
           (λ testsTargets, regularTestRun testTargetTimeout testsTargets
                              sequenceTimeout)
           includedDiscardedTestTargets;
       mret (discardedTestRunData,
             match globalTimeout with
             | Some globalTimeout =>
                 let elapsed := (m_duration selectedTestRunData
                                 + m_duration discardedTestRunData)%Z in
                 Some (if (elapsed <? globalTimeout)%Z
                       then (globalTimeout - elapsed)%Z else 0%Z)
             | None => sequenceTimeout
             end)
     else mret (TestRunData_default, sequenceTimeout));
  let discardedTestRunData := discarded.1 in
  let sequenceTimeout := discarded.2 in
  draftedTestRunData ←
    (if bool_decide (draftedTestTargets ≠ [])
     then
       gatherTestRunData
         (λ testsTargets, instrumentedTestRun testTargetTimeout testsTargets
                            sequenceTimeout)
         draftedTestTargets
     else mret TestRunData_default);
  let sequenceReport :=
    {| ClientReports.safe_testTargetTimeout := testTargetTimeout;
       ClientReports.safe_globalTimeout := globalTimeout;
       ClientReports.safe_selectedTestRuns := selectedTests;
       ClientReports.safe_discardedTestRuns := discardedTests;
       ClientReports.safe_draftedTestRuns := draftedTests;
       ClientReports.safe_selectedTestRunReport :=
         GenerateTestRunReport (m_result selectedTestRunData)
           (m_duration selectedTestRunData) (m_jobs selectedTestRunData);
       ClientReports.safe_discardedTestRunReport :=
         GenerateTestRunReport (m_result discardedTestRunData)
           (m_duration discardedTestRunData) (m_jobs discardedTestRunData);
       ClientReports.safe_draftedTestRunReport :=
         GenerateTestRunReport (m_result draftedTestRunData)
           (m_duration draftedTestRunData) (m_jobs draftedTestRunData) |} in
  call_if_present testSequenceEndCallback SequenceEnd;;
  updateCoverage (ConcatenateVectors (m_jobs selectedTestRunData)
                                     (m_jobs draftedTestRunData));;
  mret sequenceReport.

(** [NativeRuntime::SeededTestSequence]. *)
Definition SeededTestSequence (testTargetTimeout globalTimeout : option Z)
    (testSequenceStartCallback testSequenceEndCallback : bool)
    : M ClientReports.SeedSequenceReport :=
  dynamicDependencyMap ← get_map;
  let testTargets := m_testTargets dynamicDependencyMap in
  let includedTestTargets :=
    filter (λ t, IsTestTargetFullyExcluded
                   (m_instrumentedTestTargetExcludeList this) t = false) testTargets in
  let excludedTestTargets :=
    filter (λ t, IsTestTargetFullyExcluded
                   (m_instrumentedTestTargetExcludeList this) t = true) testTargets in
  let selectedTests :=
    {| Client.GetIncludedTestRuns := ExtractTestTargetNames includedTestTargets;
       Client.GetExcludedTestRuns := ExtractTestTargetNames excludedTestTargets |} in
  call_if_present testSequenceStartCallback (SequenceStart selectedTests);;
  outcome ← instrumentedTestRun testTargetTimeout includedTestTargets globalTimeout;
  let result := outcome_result outcome in
  let testJobs := outcome_jobs outcome in
  let testRunDuration := outcome_elapsedMs outcome in
  let sequenceReport :=
    {| ClientReports.seed_testTargetTimeout := testTargetTimeout;
       ClientReports.seed_globalTimeout := globalTimeout;
       ClientReports.seed_selectedTestRuns := selectedTests;
       ClientReports.seed_selectedTestRunReport :=
         GenerateTestRunReport result testRunDuration testJobs |} in
  call_if_present testSequenceEndCallback SequenceEnd;;
  ClearDynamicDependencyMapAndRemoveExistingFile;;
  updateCoverage testJobs;;
  mret sequenceReport.

Definition HasImpactAnalysisData : M bool :=
  λ s, (s, inr (m_hasImpactAnalysisData s)).

End NativeRuntime.

(** ** Notions used to state the properties of the sequences *)

(** The event of a callback that is called when present, and the event of
    a test run that takes place when there are targets to run. *)
Definition optional_event (present : bool) (ev : Event) : list Event :=
  if present then [ev] else [].

Definition run_event (instrumented : bool) (testTargets : list TestTargetPtr)
    (testTargetTimeout globalTimeout : option Z) : list Event :=
  if bool_decide (testTargets ≠ [])
  then [EngineRun instrumented testTargets testTargetTimeout globalTimeout]
  else [].

(** The data of a run over [testTargets]: the initial ones when there is
    nothing to run. *)
Definition run_data {TestJob} (testTargets : list TestTargetPtr)
    (outcome : EngineOutcome TestJob) : TestRunData TestJob :=
  if bool_decide (testTargets ≠ [])
  then {| m_result := outcome_result outcome;
          m_jobs := outcome_jobs outcome;
          m_duration := outcome_elapsedMs outcome |}
  else TestRunData_default.

(** The value of the local [sequenceTimeout] after a phase over
    [testTargets] that started with [sequenceTimeout], [elapsed] being the
    time spent in the phases so far. *)
Definition carried_timeout (globalTimeout : option Z) (testTargets : list TestTargetPtr)
    (elapsed : Z) (sequenceTimeout : option Z) : option Z :=
  if bool_decide (testTargets ≠ [])
  then match globalTimeout with
       | Some globalTimeout =>
           Some (if (elapsed <? globalTimeout)%Z
                 then (globalTimeout - elapsed)%Z else 0%Z)
       | None => sequenceTimeout
       end
  else sequenceTimeout.

(** The budget the specification asks for after [elapsed] milliseconds. *)
Definition remaining_budget (globalTimeout : option Z) (elapsed : Z) : option Z :=
  (λ globalTimeout, Z.max 0 (globalTimeout - elapsed)) <$> globalTimeout.

(** ** A concrete runtime

    Three test targets [T1], [T2], [T3] and three sources under the
    repository root; the map is the one a seed run leaves when [T1] covers
    [a.cpp] and [T2] covers [b.cpp] and [c.cpp]. *)
Module Scenario.

Definition repoRoot : RepoPath := ["/"; "repo"].
Definition sparTiaFile : RepoPath := ["/"; "workspace"; "active"; "main"; "spartia"].

Definition a_cpp : RepoPath := repoRoot ++ ["a.cpp"].
Definition b_cpp : RepoPath := repoRoot ++ ["b.cpp"].
Definition c_cpp : RepoPath := repoRoot ++ ["c.cpp"].
Definition x_h : RepoPath := ["/"; "opt"; "sdk"; "x.h"].

Definition seeded_map : DynamicDependencyMap :=
  {| m_testTargets := ["T1"; "T2"; "T3"];
     m_sourceDependencyMap :=
       {[ ["a.cpp"] := {["T1"]}; ["b.cpp"] := {["T2"]}; ["c.cpp"] := {["T2"]} ]} |}.

Definition seeded_state : State :=
  {| m_dynamicDependencyMap := seeded_map;
     m_hasImpactAnalysisData := true;
     files := {[ sparTiaFile := ExportSourceCoverage seeded_map ]};
     writable := true;
     log := [];
     trace := [] |}.

Definition job (testTarget : string) (result : Client.TestRunResult)
    (coverage : option (list RepoPath)) : TestEngineInstrumentedRun :=
  {| GetTestTarget := testTarget;
     GetCommandString := "launch " +:+ testTarget;
     GetTestResult := result;
     GetCoverge := (λ sources, {| GetSourcesCovered := sources |}) <$> coverage |}.

(** An engine whose instrumented runs take 900 ms, pass, and cover
    [a.cpp], and whose regular runs take 50 ms. *)
Definition engine : NativeTestEngine :=
  {| InstrumentedRun := λ _ testTargets _ _,
       {| outcome_result := Success;
          outcome_jobs :=
            (λ t, job t Client.AllTestsPass (Some [a_cpp])) <$> testTargets;
          outcome_elapsedMs := 900 |};
     RegularRun := λ _ testTargets _ _,
       {| outcome_result := Success;
          outcome_jobs :=
            (λ t, {| reg_GetTestTarget := t;
                     reg_GetCommandString := "launch " +:+ t;
                     reg_GetTestResult := Client.AllTestsPass |}) <$> testTargets;
          outcome_elapsedMs := 50 |} |}.

(** An engine every test of which fails. *)
Definition failing_engine : NativeTestEngine :=
  {| InstrumentedRun := λ _ testTargets _ _,
       {| outcome_result := Failure;
          outcome_jobs :=
            (λ t, job t Client.TestFailures (Some [a_cpp])) <$> testTargets;
          outcome_elapsedMs := 900 |};
     RegularRun := RegularRun engine |}.

(** A runtime that selects [T1] for every change list and has [T3] on
    both exclude lists. *)
Definition runtime (testEngine : NativeTestEngine)
    (failedTestCoveragePolicy : Policy.FailedTestCoverage) : NativeRuntime :=
  {| m_repoRoot := repoRoot;
     m_sparTiaFile := sparTiaFile;
     m_failedTestCoveragePolicy := failedTestCoveragePolicy;
     m_integrationFailurePolicy := Policy.Continue;
     m_regularTestTargetExcludeList := {[ "T3" := [] ]};
     m_instrumentedTestTargetExcludeList := {[ "T3" := [] ]};
     m_testEngine := testEngine;
     m_testSelectorAndPrioritizer := λ _ _ _, ["T1"] |}.

Definition changeList : ChangeList :=
  {| m_createdFiles := []; m_updatedFiles := [["a.cpp"]]; m_deletedFiles := [] |}.

End Scenario.

(** ** The rest of the runtime *)

(** [size_t] is taken to be 64 bits wide. *)
Definition size_t_modulus : N := 2 ^ 64.

(** [class TestRunCompleteCallbackHandler]: the total it was constructed
    with, the running count, and whether a client callback is there. *)
Record TestRunCompleteCallbackHandler : Type := {
  m_totalTests : N;
  m_numTestsCompleted : N;
  m_testCompleteCallback : bool
}.

(** One call of the client's [TestRunCompleteCallback]. *)
Record TestRunCompleteCall : Type := {
  call_testRun : ClientReports.TestRunBase;
  call_numTestsCompleted : N;
  call_totalTests : N
}.

Definition TestRunCompleteCallbackHandler_ctor (totalTests : N)
    (testCompleteCallback : bool) : TestRunCompleteCallbackHandler :=
  {| m_totalTests := totalTests;
     m_numTestsCompleted := 0;
     m_testCompleteCallback := testCompleteCallback |}.

(** [operator()]: the handler afterwards and the calls made of the client
    callback.  The count is pre-incremented, in [size_t], and only on the
    branch where there is a callback. *)
Definition TestRunCompleteCallbackHandler_call `{TestEngineJob TestJob}
    (handler : TestRunCompleteCallbackHandler) (testJob : TestJob)
    : TestRunCompleteCallbackHandler * list TestRunCompleteCall :=
  if m_testCompleteCallback handler
  then
    let testRun :=
      {| ClientReports.GetTargetName := job_GetTestTarget testJob;
         ClientReports.GetCommandString := job_GetCommandString testJob;
         ClientReports.GetResult := job_GetTestResult testJob |} in
    let numTestsCompleted :=
      ((m_numTestsCompleted handler + 1) mod size_t_modulus)%N in
    ({| m_totalTests := m_totalTests handler;
        m_numTestsCompleted := numTestsCompleted;
        m_testCompleteCallback := m_testCompleteCallback handler |},
     [{| call_testRun := testRun;
         call_numTestsCompleted := numTestsCompleted;
         call_totalTests := m_totalTests handler |}])
  else (handler, []).

(** The handler called for each of [testJobs] in turn, as the test engine
    does on the completion of each job. *)
Fixpoint TestRunCompleteCallbackHandler_calls `{TestEngineJob TestJob}
    (handler : TestRunCompleteCallbackHandler) (testJobs : list TestJob)
    : TestRunCompleteCallbackHandler * list TestRunCompleteCall :=
  match testJobs with
  | [] => (handler, [])
  | testJob :: testJobs =>
      let r := TestRunCompleteCallbackHandler_call handler testJob in
      let rs := TestRunCompleteCallbackHandler_calls r.1 testJobs in
      (rs.1, r.2 ++ rs.2)
  end.

(** [totalNumTestRuns], the total the shared handler of a sequence is
    constructed with (sizes of vectors of pointers add up within
    [size_t]). *)
Definition ImpactAnalysis_totalNumTestRuns
    (includedSelectedTestTargets draftedTestTargets : list TestTargetPtr) : nat :=
  length includedSelectedTestTargets + length draftedTestTargets.

Definition SafeImpactAnalysis_totalNumTestRuns
    (includedSelectedTestTargets draftedTestTargets
       includedDiscardedTestTargets : list TestTargetPtr) : nat :=
  length includedSelectedTestTargets + length draftedTestTargets
  + length includedDiscardedTestTargets.

(** [Client::RegularSequenceReport]. *)
Record RegularSequenceReport : Type := {
  regular_testTargetTimeout : option Z;
  regular_globalTimeout : option Z;
  regular_selectedTestRuns : Client.TestRunSelection;
  regular_selectedTestRunReport : ClientReports.TestRunReport
}.

(** [NativeRuntime::RegularTestSequence]. *)
Definition RegularTestSequence (this : NativeRuntime)
    (testTargetTimeout globalTimeout : option Z)
    (testSequenceStartCallback testSequenceEndCallback : bool)
    : M RegularSequenceReport :=
  dynamicDependencyMap ← get_map;
  let testTargets := m_testTargets dynamicDependencyMap in
  let includedTestTargets :=
    filter (λ t, IsTestTargetFullyExcluded
                   (m_regularTestTargetExcludeList this) t = false) testTargets in
  let excludedTestTargets :=
    filter (λ t, IsTestTargetFullyExcluded
                   (m_regularTestTargetExcludeList this) t = true) testTargets in
  let selectedTests :=
    {| Client.GetIncludedTestRuns := ExtractTestTargetNames includedTestTargets;
       Client.GetExcludedTestRuns := ExtractTestTargetNames excludedTestTargets |} in
  call_if_present testSequenceStartCallback (SequenceStart selectedTests);;
  outcome ← regularTestRun this testTargetTimeout includedTestTargets globalTimeout;
  let result := outcome_result outcome in
  let testJobs := outcome_jobs outcome in
  let testRunDuration := outcome_elapsedMs outcome in
  let sequenceReport :=
    {| regular_testTargetTimeout := testTargetTimeout;
       regular_globalTimeout := globalTimeout;
       regular_selectedTestRuns := selectedTests;
       regular_selectedTestRunReport :=
         GenerateTestRunReport result testRunDuration testJobs |} in
  call_if_present testSequenceEndCallback SequenceEnd;;
  mret sequenceReport.

(** ** Further notions used to state properties *)

(** The test targets the engine is given over the runs of a trace, in
    order. *)
Fixpoint run_targets (events : list Event) : list TestTargetPtr :=
  match events with
  | [] => []
  | EngineRun _ testTargets _ _ :: events => testTargets ++ run_targets events
  | _ :: events => run_targets events
  end.

(** Two states with the same map, flag, files and log: they may differ in
    what the client and the engine have seen. *)
Definition same_data (s1 s2 : State) : Prop :=
  m_dynamicDependencyMap s1 = m_dynamicDependencyMap s2 ∧
  m_hasImpactAnalysisData s1 = m_hasImpactAnalysisData s2 ∧
  files s1 = files s2 ∧
  writable s1 = writable s2 ∧
  log s1 = log s2.

(** The client's view of a job. *)
Definition client_test_run `{TestEngineJob TestJob} (testJob : TestJob)
    : ClientReports.TestRunBase :=
  {| ClientReports.GetTargetName := job_GetTestTarget testJob;
     ClientReports.GetCommandString := job_GetCommandString testJob;
     ClientReports.GetResult := job_GetTestResult testJob |}.

(** The phases of a sequence started in state [s]: the locals of the
    sequence functions, with the values they take there. *)
Section Phases.
Variable this : NativeRuntime.
Variable changeList : ChangeList.
Variable testPrioritizationPolicy : Policy.TestPrioritization.
Variables testTargetTimeout globalTimeout : option Z.
Variable testSequenceStartCallback : bool.
Variable s : State.

Definition draftedTestTargets : list TestTargetPtr :=
  GetNotCoveringTests (m_dynamicDependencyMap s).

Definition selectedTestTargets : list TestTargetPtr :=
  m_testSelectorAndPrioritizer this (m_dynamicDependencyMap s) changeList
    testPrioritizationPolicy.

Definition unselectedTestTargets : list TestTargetPtr :=
  filter (λ testTarget, testTarget ∉ selectedTestTargets)
         (m_testTargets (m_dynamicDependencyMap s)).

Definition includedSelectedTestTargets : list TestTargetPtr :=
  (SelectTestTargetsByExcludeList (m_instrumentedTestTargetExcludeList this)
     selectedTestTargets).1.

Definition excludedSelectedTestTargets : list TestTargetPtr :=
  (SelectTestTargetsByExcludeList (m_instrumentedTestTargetExcludeList this)
     selectedTestTargets).2.

(** [SafeImpactAnalysisTestSequence]. *)
Definition includedDiscardedTestTargets : list TestTargetPtr :=
  (SelectTestTargetsByExcludeList (m_regularTestTargetExcludeList this)
     unselectedTestTargets).1.

Definition excludedDiscardedTestTargets : list TestTargetPtr :=
  (SelectTestTargetsByExcludeList (m_regularTestTargetExcludeList this)
     unselectedTestTargets).2.

Definition safe_start : list Event :=
  optional_event testSequenceStartCallback
    (SafeImpactAnalysisSequenceStart
       {| Client.GetIncludedTestRuns := includedSelectedTestTargets;
          Client.GetExcludedTestRuns := excludedSelectedTestTargets |}
       {| Client.GetIncludedTestRuns := includedDiscardedTestTargets;
          Client.GetExcludedTestRuns := excludedDiscardedTestTargets |}
       draftedTestTargets).

Definition safe_selectedTestRunData : TestRunData TestEngineInstrumentedRun :=
  run_data includedSelectedTestTargets
    (InstrumentedRun (m_testEngine this) (trace s ++ safe_start)
       includedSelectedTestTargets testTargetTimeout globalTimeout).

Definition safe_selectedRun : list Event :=
  run_event true includedSelectedTestTargets testTargetTimeout globalTimeout.

Definition safe_discardedTimeout : option Z :=
  carried_timeout globalTimeout includedSelectedTestTargets
    (m_duration safe_selectedTestRunData) globalTimeout.

Definition safe_discardedTestRunData : TestRunData TestEngineRegularRun :=
  run_data includedDiscardedTestTargets
    (RegularRun (m_testEngine this) (trace s ++ safe_start ++ safe_selectedRun)
       includedDiscardedTestTargets testTargetTimeout safe_discardedTimeout).

Definition safe_discardedRun : list Event :=
  run_event false includedDiscardedTestTargets testTargetTimeout
    safe_discardedTimeout.

Definition safe_draftedTimeout : option Z :=
  carried_timeout globalTimeout includedDiscardedTestTargets
    (m_duration safe_selectedTestRunData + m_duration safe_discardedTestRunData)
    safe_discardedTimeout.

Definition safe_draftedTestRunData : TestRunData TestEngineInstrumentedRun :=
  run_data draftedTestTargets
    (InstrumentedRun (m_testEngine this)
       (trace s ++ safe_start ++ safe_selectedRun ++ safe_discardedRun)
       draftedTestTargets testTargetTimeout safe_draftedTimeout).

Definition safe_draftedRun : list Event :=
  run_event true draftedTestTargets testTargetTimeout safe_draftedTimeout.

(** [ImpactAnalysisTestSequence] under the [Update] policy. *)
Definition ia_discardedTestTargets : list TestTargetPtr :=
  filter (λ testTarget, testTarget ∉ draftedTestTargets) unselectedTestTargets.

Definition ia_start : list Event :=
  optional_event testSequenceStartCallback
    (ImpactAnalysisSequenceStart
       {| Client.GetIncludedTestRuns := includedSelectedTestTargets;
          Client.GetExcludedTestRuns := excludedSelectedTestTargets |}
       ia_discardedTestTargets draftedTestTargets).

Definition ia_selectedTestRunData : TestRunData TestEngineInstrumentedRun :=
  run_data includedSelectedTestTargets
    (InstrumentedRun (m_testEngine this) (trace s ++ ia_start)
       includedSelectedTestTargets testTargetTimeout globalTimeout).

Definition ia_selectedRun (instrumented : bool) : list Event :=
  run_event instrumented includedSelectedTestTargets testTargetTimeout globalTimeout.

Definition ia_draftedTestRunData : TestRunData TestEngineInstrumentedRun :=
  run_data draftedTestTargets
    (InstrumentedRun (m_testEngine this) (trace s ++ ia_start ++ ia_selectedRun true)
       draftedTestTargets testTargetTimeout globalTimeout).

Definition ia_draftedRun (instrumented : bool) : list Event :=
  run_event instrumented draftedTestTargets testTargetTimeout globalTimeout.

(** [SeededTestSequence] and [RegularTestSequence]. *)
Definition includedTestTargets (excludeList : TestTargetExcludeList)
    : list TestTargetPtr :=
  filter (λ t, IsTestTargetFullyExcluded excludeList t = false)
         (m_testTargets (m_dynamicDependencyMap s)).

Definition excludedTestTargets (excludeList : TestTargetExcludeList)
    : list TestTargetPtr :=
  filter (λ t, IsTestTargetFullyExcluded excludeList t = true)
         (m_testTargets (m_dynamicDependencyMap s)).

Definition sequence_start (excludeList : TestTargetExcludeList) : list Event :=
  optional_event testSequenceStartCallback
    (SequenceStart
       {| Client.GetIncludedTestRuns := includedTestTargets excludeList;
          Client.GetExcludedTestRuns := excludedTestTargets excludeList |}).

Definition seed_outcome : EngineOutcome TestEngineInstrumentedRun :=
  InstrumentedRun (m_testEngine this)
    (trace s ++ sequence_start (m_instrumentedTestTargetExcludeList this))
    (includedTestTargets (m_instrumentedTestTargetExcludeList this))
    testTargetTimeout globalTimeout.

Definition regular_outcome : EngineOutcome TestEngineRegularRun :=
  RegularRun (m_testEngine this)
    (trace s ++ sequence_start (m_regularTestTargetExcludeList this))
    (includedTestTargets (m_regularTestTargetExcludeList this))
    testTargetTimeout globalTimeout.

End Phases.

(** A runtime with nothing to do: both test targets cover a source, the
    selector selects no test target, and the regular exclude list fully
    excludes both. *)
Module IdleScenario.

Definition covered_map : DynamicDependencyMap :=
  {| m_testTargets := ["T1"; "T2"];
     m_sourceDependencyMap := m_sourceDependencyMap Scenario.seeded_map |}.

Definition covered_state : State :=
  {| m_dynamicDependencyMap := covered_map;
     m_hasImpactAnalysisData := true;
     files := {[ Scenario.sparTiaFile := ExportSourceCoverage covered_map ]};
     writable := true;
     log := [];
     trace := [] |}.

Definition runtime : NativeRuntime :=
  {| m_repoRoot := Scenario.repoRoot;
     m_sparTiaFile := Scenario.sparTiaFile;
     m_failedTestCoveragePolicy := Policy.Keep;
     m_integrationFailurePolicy := Policy.Abort;
     m_regularTestTargetExcludeList := {[ "T1" := []; "T2" := [] ]};
     m_instrumentedTestTargetExcludeList := ∅;
     m_testEngine := Scenario.engine;
     m_testSelectorAndPrioritizer := λ _ _ _, [] |}.

End IdleScenario.

#[local] Set Warnings "-clear-no-such-hyp".

(** * Properties *)

(** ** Facts about the order on strings *)

Lemma string_lt_irrefl a : ¬ string_lt a a.
Proof. apply (irreflexivity String_as_OT.lt). Qed.

Lemma string_lt_trans a b c : string_lt a b → string_lt b c → string_lt a c.
Proof. apply (transitivity (R := String_as_OT.lt)). Qed.

Lemma string_lt_trichotomy a b : string_lt a b ∨ a = b ∨ string_lt b a.
Proof.
  unfold string_lt. destruct (String_as_OT.compare_spec a b); auto.
Qed.

Lemma string_ltb_lt a b : string_ltb a b = true ↔ string_lt a b.
Proof.
  unfold string_ltb, string_lt.
  destruct (String_as_OT.compare a b); split; congruence.
Qed.

Lemma string_ltb_nlt a b : string_ltb a b = false ↔ ¬ string_lt a b.
Proof. rewrite <- string_ltb_lt. destruct (string_ltb a b); split; congruence. Qed.

Module TargetListFacts.
Import TargetListH.

Section Facts.
Context {Target : Type} `{TargetType Target}.

#[local] Instance descriptor_le_total : Total descriptor_le.
Proof.
  intros a b. unfold descriptor_le.
  destruct (string_lt_trichotomy (m_name a) (m_name b)) as [Hlt|[Heq|Hgt]].
  - left. intros Hba. exact (string_lt_irrefl _ (string_lt_trans _ _ _ Hlt Hba)).
  - left. rewrite Heq. apply string_lt_irrefl.
  - right. intros Hab. exact (string_lt_irrefl _ (string_lt_trans _ _ _ Hab Hgt)).
Qed.

#[local] Instance descriptor_le_trans : Transitive descriptor_le.
Proof.
  intros a b c Hab Hbc Hca. unfold descriptor_le in *.
  destruct (string_lt_trichotomy (m_name b) (m_name a)) as [Hlt|[Heq|Hgt]].
  - auto.
  - apply Hbc. by rewrite Heq.
  - apply Hbc. eapply string_lt_trans; eauto.
Qed.

Lemma adjacent_find_cons {A} (pred : A → A → bool) x y l :
  adjacent_find pred (x :: y :: l) =
    if pred x y then Some 0 else S <$> adjacent_find pred (y :: l).
Proof. reflexivity. Qed.

(** No hit of [adjacent_find] on a sorted vector: the names strictly
    increase. *)
Lemma adjacent_find_None_sorted (l : list Descriptor) :
  Sorted descriptor_le l →
  adjacent_find (λ lhs rhs, String.eqb (m_name lhs) (m_name rhs)) l = None →
  Sorted (λ a b, string_lt (m_name a) (m_name b)) l.
Proof.
  induction 1 as [|x l Hl IH Hhd]; intros Hfind; [constructor|].
  destruct l as [|y l]; [repeat constructor|].
  rewrite adjacent_find_cons in Hfind.
  destruct (String.eqb_spec (m_name x) (m_name y)) as [Heq|Hne]; [done|].
  destruct (adjacent_find _ (y :: l)) eqn:E; [done|].
  constructor; [by apply IH|].
  constructor. inversion Hhd as [|? ? Hxy]; subst.
  destruct (string_lt_trichotomy (m_name x) (m_name y)) as [?|[?|?]]; done.
Qed.

Lemma adjacent_find_Some_dup (l : list Descriptor) i :
  adjacent_find (λ lhs rhs, String.eqb (m_name lhs) (m_name rhs)) l = Some i →
  ¬ NoDup (m_name <$> l).
Proof.
  revert i. induction l as [|x [|y l] IH]; intros i Hfind; [done..|].
  rewrite adjacent_find_cons in Hfind.
  destruct (String.eqb_spec (m_name x) (m_name y)) as [Heq|Hne].
  - intros Hnd. rewrite !fmap_cons, Heq in Hnd.
    apply NoDup_cons in Hnd as [Hnin _]. apply Hnin. left.
  - destruct (adjacent_find _ (y :: l)) eqn:E; [|done].
    intros Hnd. rewrite fmap_cons in Hnd. apply NoDup_cons in Hnd as [_ Hnd].
    by eapply IH.
Qed.

#[local] Instance string_lt_transitive : Transitive string_lt.
Proof. intros a b c. apply string_lt_trans. Qed.

Lemma strictly_sorted_NoDup (l : list string) :
  StronglySorted string_lt l → NoDup l.
Proof.
  induction 1 as [|x l Hl IH Hall]; constructor; [|done].
  intros Hin. rewrite Forall_forall in Hall.
  exact (string_lt_irrefl _ (Hall _ Hin)).
Qed.

Lemma strictly_sorted_lookup (l : list string) i j a b :
  StronglySorted string_lt l → i < j → l !! i = Some a → l !! j = Some b →
  string_lt a b.
Proof.
  intros Hs. revert i j. induction Hs as [|x l Hl IH Hall]; intros i j Hij Hi Hj; [done|].
  destruct j as [|j]; [lia|]. destruct i as [|i]; simpl in *.
  - injection Hi as ->. rewrite Forall_forall in Hall.
    apply Hall. by eapply list_elem_of_lookup_2.
  - eapply (IH i j); [lia|done..].
Qed.

(** The outcome of the constructor, by cases on its input. *)
Lemma TargetList_ctor_cases (descriptors : list Descriptor) :
  (descriptors = [] ∧
   TargetList_ctor descriptors = inl (TargetException "Target list is empty")) ∨
  (descriptors ≠ [] ∧ ¬ NoDup (m_name <$> descriptors) ∧
   TargetList_ctor descriptors =
     inl (TargetException "Target list contains duplicate targets")) ∨
  (descriptors ≠ [] ∧ NoDup (m_name <$> descriptors) ∧
   ∃ sorted, sorted ≡ₚ descriptors ∧
     StronglySorted string_lt (m_name <$> sorted) ∧
     TargetList_ctor descriptors = inr {| m_targets := MakeTarget <$> sorted |}).
Proof.
  unfold TargetList_ctor.
  destruct (decide (descriptors = [])) as [->|Hne]; [by left|right].
  rename descriptors into l.
  rewrite bool_decide_eq_false_2 by done. simpl.
  pose proof (merge_sort_Permutation descriptor_le l) as Hperm.
  pose proof (Sorted_merge_sort descriptor_le l) as Hsorted.
  destruct (adjacent_find _ (merge_sort descriptor_le l)) as [i|] eqn:Hfind; simpl.
  - left. split; [done|]. split; [|done].
    intros Hnd. eapply adjacent_find_Some_dup; [exact Hfind|].
    by rewrite Hperm.
  - right. split; [done|].
    assert (StronglySorted string_lt (m_name <$> merge_sort descriptor_le l)) as Hss.
    { apply Sorted_StronglySorted; [apply _|].
      apply (Sorted_fmap m_name (λ a b, string_lt (m_name a) (m_name b))); [done|].
      by apply adjacent_find_None_sorted. }
    split; [|by exists (merge_sort descriptor_le l)].
    rewrite <- Hperm. by apply strictly_sorted_NoDup.
Qed.

Lemma lower_bound_loop_partition steps v name first len :
  lower_bound_loop steps v name first len =
  partition_point_loop (λ t, string_ltb (GetName t) name) steps v first len.
Proof.
  revert first len. induction steps as [|steps IH]; intros first len; [done|].
  cbn [lower_bound_loop partition_point_loop].
  case_decide; [done|]. destruct (v !! _); [|done].
  by rewrite !IH.
Qed.

Lemma upper_bound_loop_partition steps v name first len :
  upper_bound_loop steps v name first len =
  partition_point_loop (λ t, negb (string_ltb name (GetName t))) steps v first len.
Proof.
  revert first len. induction steps as [|steps IH]; intros first len; [done|].
  cbn [upper_bound_loop partition_point_loop].
  case_decide; [done|]. destruct (v !! _); [|done].
  rewrite !IH. by destruct (string_ltb _ _).
Qed.

(** Bisection finds the partition point of a predicate that holds on a
    prefix of the range and fails on the rest. *)
Lemma partition_point_loop_spec (p : Target → bool) (v : list Target) :
  (∀ i j ti tj, i ≤ j → v !! i = Some ti → v !! j = Some tj →
                p tj = true → p ti = true) →
  ∀ steps first len : nat,
    len ≤ steps → first + len ≤ length v →
    (∀ i t, i < first → v !! i = Some t → p t = true) →
    (∀ i t, first + len ≤ i → v !! i = Some t → p t = false) →
    let r := partition_point_loop p steps v first len in
    first ≤ r ≤ first + len ∧
    (∀ i t, i < r → v !! i = Some t → p t = true) ∧
    (∀ i t, r ≤ i → v !! i = Some t → p t = false).
Proof.
  intros Hmono. induction steps as [|steps IH]; intros first len Hsteps Hlen Hlo Hhi.
  { simpl. assert (len = 0) as -> by lia.
    split; [lia|]. split; [done|]. intros i t ?. apply Hhi. lia. }
  cbn [partition_point_loop]. case_decide as Hz.
  { subst len. split; [lia|]. split; [done|]. intros i t ?. apply Hhi. lia. }
  assert (len / 2 < len) as Hhalf by (apply Nat.div_lt; lia).
  destruct (v !! (first + len / 2)) as [target|] eqn:Hmid.
  2:{ apply lookup_ge_None in Hmid. lia. }
  destruct (p target) eqn:Hp.
  - destruct (IH (first + len / 2 + 1) (len - len / 2 - 1)) as (Hr & Hbelow & Habove);
      [lia|lia| | |].
    + intros i t Hi Hit. eapply (Hmono i (first + len / 2)); [lia|done..].
    + intros i t Hi. apply Hhi. lia.
    + split; [lia|]. by split.
  - destruct (IH first (len / 2)) as (Hr & Hbelow & Habove); [lia|lia|done| |].
    + intros i t Hi Hit. destruct (p t) eqn:Hpt; [|done].
      rewrite <- Hp. symmetry.
      eapply (Hmono (first + len / 2) i); [lia|done..].
    + split; [lia|]. by split.
Qed.

(** On a vector with strictly increasing names, the range [equal_range]
    returns is the position of the name, if there, and is empty
    otherwise. *)
Lemma equal_range_sorted (v : list Target) (name : string) :
  StronglySorted string_lt (GetName <$> v) →
  let r := equal_range v name in
  (∀ i t, v !! i = Some t → GetName t = name → r = (i, S i)) ∧
  ((∀ t, t ∈ v → GetName t ≠ name) → r.1 = r.2).
Proof.
  intros Hs. unfold equal_range.
  rewrite lower_bound_loop_partition, upper_bound_loop_partition.
  assert (∀ i j ti tj, i < j → v !! i = Some ti → v !! j = Some tj →
                       string_lt (GetName ti) (GetName tj)) as Hlt.
  { intros i j ti tj Hij Hi Hj.
    eapply (strictly_sorted_lookup _ i j); [done..| |]; rewrite list_lookup_fmap.
    - by rewrite Hi. - by rewrite Hj. }
  destruct (partition_point_loop_spec (λ t, string_ltb (GetName t) name) v)
    with (steps := length v) (first := 0) (len := length v)
    as (Hr1 & Hlo1 & Hhi1); [|lia|lia|lia| |].
  { intros i j ti tj Hij Hi Hj. rewrite !string_ltb_lt. intros Hj'.
    destruct (decide (i = j)) as [->|]; [by simplify_eq|].
    eapply string_lt_trans; [|done]. eapply (Hlt i j); [lia|done..]. }
  { intros i t Hi Hit. apply lookup_lt_Some in Hit. lia. }
  destruct (partition_point_loop_spec (λ t, negb (string_ltb name (GetName t))) v)
    with (steps := length v) (first := 0) (len := length v)
    as (Hr2 & Hlo2 & Hhi2); [|lia|lia|lia| |].
  { intros i j ti tj Hij Hi Hj. rewrite !negb_true_iff, !string_ltb_nlt. intros Hj' Hi'.
    destruct (decide (i = j)) as [->|]; [by simplify_eq|].
    apply Hj'. eapply string_lt_trans; [done|]. eapply (Hlt i j); [lia|done..]. }
  { intros i t Hi Hit. apply lookup_lt_Some in Hit. lia. }
  generalize dependent
    (partition_point_loop (λ t, string_ltb (GetName t) name) (length v) v 0 (length v)).
  intros r1 Hr1 Hlo1 Hhi1.
  generalize dependent
    (partition_point_loop (λ t, negb (string_ltb name (GetName t))) (length v) v 0
       (length v)).
  intros r2 Hr2 Hlo2 Hhi2.
  simpl. split.
  - intros i t Hi Hname.
    assert (r1 = i) as ->.
    { destruct (decide (r1 ≤ i)) as [Hle|Hgt].
      - destruct (decide (r1 = i)) as [|Hne]; [done|].
        destruct (v !! r1) as [t1|] eqn:H1.
        2:{ apply lookup_ge_None in H1. apply lookup_lt_Some in Hi. lia. }
        pose proof (Hhi1 r1 t1 ltac:(lia) H1) as Hn. apply string_ltb_nlt in Hn.
        exfalso. apply Hn. rewrite <- Hname. eapply (Hlt r1 i); [lia|done..].
      - pose proof (Hlo1 i t ltac:(lia) Hi) as Hn. apply string_ltb_lt in Hn.
        rewrite Hname in Hn. by apply string_lt_irrefl in Hn. }
    f_equal.
    destruct (decide (r2 ≤ i)) as [Hle|Hgt].
    { pose proof (Hhi2 i t Hle Hi) as Hn.
      apply negb_false_iff, string_ltb_lt in Hn.
      rewrite Hname in Hn. by apply string_lt_irrefl in Hn. }
    destruct (decide (r2 = S i)) as [|Hne]; [done|].
    destruct (v !! S i) as [t1|] eqn:H1.
    2:{ apply lookup_ge_None in H1. lia. }
    pose proof (Hlo2 (S i) t1 ltac:(lia) H1) as Hn.
    apply negb_true_iff, string_ltb_nlt in Hn.
    exfalso. apply Hn. rewrite <- Hname. eapply (Hlt i (S i)); [lia|done..].
  - intros Habsent.
    destruct (decide (r1 = r2)) as [|Hne]; [done|exfalso].
    destruct (decide (r1 < r2)) as [Hlt12|Hge].
    + destruct (v !! r1) as [t1|] eqn:H1.
      2:{ apply lookup_ge_None in H1. lia. }
      pose proof (Hhi1 r1 t1 ltac:(lia) H1) as Hn1. apply string_ltb_nlt in Hn1.
      pose proof (Hlo2 r1 t1 Hlt12 H1) as Hn2.
      apply negb_true_iff, string_ltb_nlt in Hn2.
      apply (Habsent t1); [by eapply list_elem_of_lookup_2|].
      destruct (string_lt_trichotomy (GetName t1) name) as [?|[?|?]]; done.
    + destruct (v !! r2) as [t2|] eqn:H2.
      2:{ apply lookup_ge_None in H2. lia. }
      pose proof (Hlo1 r2 t2 ltac:(lia) H2) as Hn1. apply string_ltb_lt in Hn1.
      pose proof (Hhi2 r2 t2 ltac:(lia) H2) as Hn2.
      apply negb_false_iff, string_ltb_lt in Hn2.
      exact (string_lt_irrefl _ (string_lt_trans _ _ _ Hn1 Hn2)).
Qed.

(** C7. Constructing a [TargetList] from an empty vector of descriptors
    throws [TargetException], and so does constructing it from a vector
    in which two descriptors share a name; whenever the constructor
    throws, it is a [TargetException] and no list results, and whenever
    it delivers a list, that list holds a target for every descriptor. *)
Theorem TargetList_ctor_empty_or_duplicate_throws :
  TargetList_ctor [] = inl (TargetException "Target list is empty") ∧
  (∀ (descriptors : list Descriptor) (i j : nat) (d1 d2 : Descriptor),
      i ≠ j → descriptors !! i = Some d1 → descriptors !! j = Some d2 →
      m_name d1 = m_name d2 →
      TargetList_ctor descriptors =
        inl (TargetException "Target list contains duplicate targets")) ∧
  (∀ (descriptors : list Descriptor),
      (∃ msg, TargetList_ctor descriptors = inl (TargetException msg)) ∨
      (∃ tl, TargetList_ctor descriptors = inr tl ∧
             m_targets tl ≡ₚ MakeTarget <$> descriptors)).
Proof.
  split; [done|]. split.
  - intros descriptors i j d1 d2 Hij Hi Hj Hname.
    destruct (TargetList_ctor_cases descriptors)
      as [[-> _]|[(_ & _ & Hthrow)|(_ & Hnd & _)]]; [done|done|].
    exfalso. apply Hij. eapply (NoDup_lookup _ i j (m_name d1)); [exact Hnd|..];
      rewrite list_lookup_fmap; [by rewrite Hi|by rewrite Hj, Hname].
  - intros descriptors.
    destruct (TargetList_ctor_cases descriptors)
      as [[_ Hthrow]|[(_ & _ & Hthrow)|(_ & _ & sorted & Hperm & _ & Hok)]].
    + left. eauto.
    + left. eauto.
    + right. eexists. split; [exact Hok|]. simpl. by rewrite Hperm.
Qed.

(** C8. A [TargetList] built from descriptors with pairwise distinct
    names answers [GetTarget] for the name of each of them with a
    non-null pointer to the target made from that descriptor, whose name
    is the queried one; for a name that is not among them [GetTarget]
    returns null and [GetTargetOrThrow] throws [TargetException]. *)
Theorem GetTarget_round_trip (descriptors : list Descriptor) :
  descriptors ≠ [] → NoDup (m_name <$> descriptors) →
  ∃ tl, TargetList_ctor descriptors = inr tl ∧
    (∀ d, d ∈ descriptors →
       ∃ p, GetTarget tl (m_name d) = Some p ∧
            m_targets tl !! p = Some (MakeTarget d) ∧
            GetName (MakeTarget d) = m_name d ∧
            GetTargetOrThrow tl (m_name d) = inr p ∧
            HasTarget tl (m_name d) = true) ∧
    (∀ name, name ∉ m_name <$> descriptors →
       GetTarget tl name = None ∧
       GetTargetOrThrow tl name =
         inl (TargetException ("Couldn't find target " +:+ name)) ∧
       HasTarget tl name = false).
Proof.
  intros Hne Hnd.
  destruct (TargetList_ctor_cases descriptors)
    as [[-> _]|[(_ & Hdup & _)|(_ & _ & sorted & Hperm & Hsorted & Hok)]]; [done..|].
  eexists. split; [exact Hok|].
  assert (StronglySorted string_lt (GetName <$> (MakeTarget <$> sorted))) as Hs.
  { rewrite <- list_fmap_compose.
    erewrite list_fmap_ext; [exact Hsorted|]. intros ? d _. apply GetName_MakeTarget. }
  split.
  - intros d Hd. rewrite <- Hperm in Hd.
    apply list_elem_of_lookup in Hd as [p Hp].
    assert ((MakeTarget <$> sorted) !! p = Some (MakeTarget d)) as Hp'
      by (by rewrite list_lookup_fmap, Hp).
    destruct (equal_range_sorted _ (m_name d) Hs) as [Hfound _].
    specialize (Hfound p _ Hp' (GetName_MakeTarget d)).
    assert (GetTarget {| m_targets := MakeTarget <$> sorted |} (m_name d) = Some p) as Hget.
    { unfold GetTarget. cbn [m_targets]. rewrite Hfound. simpl.
      case_decide; [done|lia]. }
    exists p. unfold GetTargetOrThrow, HasTarget. rewrite Hget.
    split_and!; [done|exact Hp'|apply GetName_MakeTarget|done|
                 by apply bool_decide_eq_true_2].
  - intros name Hname.
    destruct (equal_range_sorted (MakeTarget <$> sorted) name Hs) as [_ Habsent].
    assert (GetTarget {| m_targets := MakeTarget <$> sorted |} name = None) as Hget.
    { unfold GetTarget. cbn [m_targets]. case_decide as Hr; [|done].
      exfalso. apply Hr, Habsent.
      intros t Ht Heq. apply list_elem_of_fmap in Ht as (d & -> & Hd).
      apply Hname. rewrite <- Hperm. apply list_elem_of_fmap. exists d.
      by rewrite <- Heq, GetName_MakeTarget. }
    unfold GetTargetOrThrow, HasTarget. rewrite Hget.
    split_and!; [done..|]. apply bool_decide_eq_false_2. by intros [].
Qed.

End Facts.
End TargetListFacts.

Module TargetListWitness.
Import TargetListH TargetListFacts.

Lemma TargetList_ctor_duplicate_T1_throws :
  TargetList_ctor [T1; T1] =
    inl (TargetException "Target list contains duplicate targets").
Proof.
  apply (proj1 (proj2 (@TargetList_ctor_empty_or_duplicate_throws BuildTarget BuildTarget_TargetType))
           [T1; T1] 0 1 T1 T1);
    [lia|reflexivity..].
Defined.

Lemma GetTarget_round_trip_T3_T1_T2 :
  ∃ tl, TargetList_ctor [T3; T1; T2] = inr tl ∧
    (∀ d, d ∈ [T3; T1; T2] →
       ∃ p, GetTarget tl (m_name d) = Some p ∧
            m_targets tl !! p = Some (MakeTarget d) ∧
            GetName (MakeTarget d) = m_name d ∧
            GetTargetOrThrow tl (m_name d) = inr p ∧
            HasTarget tl (m_name d) = true) ∧
    (∀ name, name ∉ m_name <$> [T3; T1; T2] →
       GetTarget tl name = None ∧
       GetTargetOrThrow tl name =
         inl (TargetException ("Couldn't find target " +:+ name)) ∧
       HasTarget tl name = false).
Proof.
  apply (@GetTarget_round_trip BuildTarget BuildTarget_TargetType [T3; T1; T2]); [done|].
  apply (bool_decide_unpack _). vm_compute. exact I.
Defined.

Example GetTarget_example :
  (λ tl, (GetTarget tl "T1", GetTarget tl "T2", GetTarget tl "T3", GetTarget tl "T0"))
    <$> (match TargetList_ctor [T3; T1; T2] with inr tl => Some tl | _ => None end)
  = Some (Some 0, Some 1, Some 2, None).
Proof. vm_compute. reflexivity. Qed.

End TargetListWitness.

(** ** Coverage consolidation *)

Module ConsolidationFacts.

Lemma with_map_id s : with_map (λ ddm, ddm) s = s.
Proof. by destruct s. Qed.

Lemma with_log_nil s : with_log (λ l, l ++ []) s = s.
Proof. destruct s. unfold with_log. simpl. by rewrite app_nil_r. Qed.

Lemma processed_jobs_no_throw jobs :
  List.find passed_without_coverage jobs = None → processed_jobs jobs = jobs.
Proof.
  induction jobs as [|job jobs IH]; [done|]. simpl.
  destruct (passed_without_coverage job); [done|]. intros ?. by rewrite IH.
Qed.

Lemma find_passed_without_coverage_None jobs :
  List.find passed_without_coverage jobs = None ↔
  Forall (λ job, passed_without_coverage job = false) jobs.
Proof.
  induction jobs as [|job jobs IH]; simpl; [by split; [constructor|]|].
  destruct (passed_without_coverage job) eqn:E.
  - split; [done|]. intros Hall. apply Forall_cons in Hall as [? _]. congruence.
  - rewrite IH. split; [by constructor|]. by intros [? ?]%Forall_cons.
Qed.

(** One turn of the loop over the jobs: the target's coverage goes first,
    whatever comes next. *)
Lemma consolidate_job_eq policy job coverage s :
  consolidate_job policy job coverage s =
    (with_map (RemoveTestTargetFromSourceCoverage (GetTestTarget job)) s,
     if passed_without_coverage job
     then inl (RuntimeException (NoCoverageMessage job))
     else inr (foldl (coverage_insert (GetTestTarget job)) coverage
                     (ingested_sources policy job))).
Proof.
  unfold consolidate_job, passed_without_coverage, ingested_sources.
  destruct job as [target command result artifact].
  destruct policy, result, artifact; reflexivity.
Qed.

Lemma for_each_consolidate_job policy jobs coverage s :
  for_each (consolidate_job policy) jobs coverage s =
    (with_map (remove_targets_of (processed_jobs jobs)) s,
     match List.find passed_without_coverage jobs with
     | Some job => inl (RuntimeException (NoCoverageMessage job))
     | None => inr (aggregated_coverage policy jobs coverage)
     end).
Proof.
  revert coverage s. induction jobs as [|job jobs IH]; intros coverage s.
  { simpl. unfold mret, M_ret. by rewrite with_map_id. }
  simpl. unfold mbind, M_bind. rewrite consolidate_job_eq.
  destruct (passed_without_coverage job); [done|].
  by rewrite IH.
Qed.

Lemma sources_in_repo_cons repoRoot entry entries :
  sources_in_repo repoRoot (entry :: entries) =
    if IsRelativeTo entry.1 repoRoot
    then {| GetPath := LexicallyRelative entry.1 repoRoot;
            GetCoveringTestTargets := entry.2 |} :: sources_in_repo repoRoot entries
    else sources_in_repo repoRoot entries.
Proof.
  unfold sources_in_repo. rewrite filter_cons.
  destruct (IsRelativeTo entry.1 repoRoot); by simpl.
Qed.

Lemma warnings_outside_repo_cons repoRoot entry entries :
  warnings_outside_repo repoRoot (entry :: entries) =
    if IsRelativeTo entry.1 repoRoot
    then warnings_outside_repo repoRoot entries
    else Warning_IgnoringSource entry.1 :: warnings_outside_repo repoRoot entries.
Proof.
  unfold warnings_outside_repo. rewrite filter_cons.
  destruct (IsRelativeTo entry.1 repoRoot); by simpl.
Qed.

Lemma for_each_collect_source repoRoot entries acc s :
  for_each (collect_source repoRoot) entries acc s =
    (with_log (λ l, l ++ warnings_outside_repo repoRoot entries) s,
     inr (acc ++ sources_in_repo repoRoot entries)).
Proof.
  revert acc s. induction entries as [|entry entries IH]; intros acc s.
  { simpl. unfold mret, M_ret, sources_in_repo, warnings_outside_repo. simpl.
    by rewrite with_log_nil, app_nil_r. }
  simpl. unfold mbind, M_bind, collect_source.
  rewrite sources_in_repo_cons, warnings_outside_repo_cons.
  destruct (IsRelativeTo entry.1 repoRoot); simpl; rewrite IH.
  - by rewrite <- app_assoc.
  - unfold with_log. simpl. by rewrite <- app_assoc.
Qed.

(** What [CreateSourceCoveringTestFromTestCoverages] does, in closed
    form. *)
Lemma CreateSourceCoveringTestFromTestCoverages_eq jobs policy repoRoot s :
  CreateSourceCoveringTestFromTestCoverages jobs policy repoRoot s =
    match List.find passed_without_coverage jobs with
    | Some job =>
        (with_map (remove_targets_of (processed_jobs jobs)) s,
         inl (RuntimeException (NoCoverageMessage job)))
    | None =>
        (with_log (λ l, l ++ warnings_outside_repo repoRoot
                              (map_to_list (aggregated_coverage policy jobs ∅)))
           (with_map (remove_targets_of jobs) s),
         inr (consolidated_list policy repoRoot jobs))
    end.
Proof.
  unfold CreateSourceCoveringTestFromTestCoverages, mbind, M_bind.
  rewrite for_each_consolidate_job.
  destruct (List.find passed_without_coverage jobs) eqn:E; [done|].
  rewrite for_each_collect_source, (processed_jobs_no_throw _ E). done.
Qed.

(** What [UpdateAndSerializeDynamicDependencyMap] does, in closed form. *)
Lemma UpdateAndSerializeDynamicDependencyMap_eq jobs policy integrity repoRoot sparTiaFile s :
  UpdateAndSerializeDynamicDependencyMap jobs policy integrity repoRoot sparTiaFile s =
    match List.find passed_without_coverage jobs with
    | Some job =>
        let s1 := with_map (remove_targets_of (processed_jobs jobs)) s in
        if bool_decide (integrity = Policy.Abort)
        then (s1, inl (RuntimeException (NoCoverageMessage job)))
        else (with_log (λ l, l ++ [Error (NoCoverageMessage job)]) s1, inr None)
    | None =>
        let s1 :=
          with_log (λ l, l ++ warnings_outside_repo repoRoot
                                (map_to_list (aggregated_coverage policy jobs ∅)))
            (with_map (remove_targets_of jobs) s) in
        let sourceCoverageTestsList := consolidated_list policy repoRoot jobs in
        if bool_decide (GetNumSources sourceCoverageTestsList = 0)
        then (s1, inr None)
        else
          let s2 := with_map (ReplaceSourceCoverage sourceCoverageTestsList) s1 in
          if writable s
          then (with_files
                  <[sparTiaFile := ExportSourceCoverage (m_dynamicDependencyMap s2)]> s2,
                inr (Some true))
          else if bool_decide (integrity = Policy.Abort)
          then (s2, inl (RuntimeException "Couldn't open file for writing"))
          else (with_log (λ l, l ++ [Error "Couldn't open file for writing"]) s2,
                inr None)
    end.
Proof.
  unfold UpdateAndSerializeDynamicDependencyMap, try_catch_RuntimeException,
    mbind, M_bind.
  rewrite CreateSourceCoveringTestFromTestCoverages_eq.
  destruct (List.find passed_without_coverage jobs) as [job|].
  { by destruct integrity. }
  cbv zeta. case_bool_decide; [done|].
  unfold WriteFileContents, modify_map, get_map, mret, M_ret. cbn.
  destruct (writable s); [done|]. by destruct integrity.
Qed.

(** *** The covering relation under the operations *)

Lemma covers_RemoveTestTargetFromSourceCoverage testTarget ddm source t :
  covers (m_sourceDependencyMap (RemoveTestTargetFromSourceCoverage testTarget ddm))
         source t ↔
  covers (m_sourceDependencyMap ddm) source t ∧ t ≠ testTarget.
Proof.
  unfold covers, RemoveTestTargetFromSourceCoverage. simpl. setoid_rewrite lookup_omap.
  split.
  - intros (tests & Hlook & Hin).
    destruct (m_sourceDependencyMap ddm !! source) as [tests0|] eqn:E; [|done].
    simpl in Hlook. case_decide; simplify_eq. set_solver.
  - intros [(tests & Hlook & Hin) Hne]. rewrite Hlook. simpl.
    case_decide as Hempty; [set_solver|].
    eexists. split; [done|]. set_solver.
Qed.

Lemma covers_remove_targets_of jobs ddm source t :
  covers (m_sourceDependencyMap (remove_targets_of jobs ddm)) source t ↔
  covers (m_sourceDependencyMap ddm) source t ∧ t ∉ GetTestTarget <$> jobs.
Proof.
  revert ddm. induction jobs as [|job jobs IH]; intros ddm; simpl.
  { split; [|by intros []]. intros ?. split; [done|]. by intros ?%elem_of_nil. }
  unfold remove_targets_of in *. simpl. rewrite IH.
  rewrite covers_RemoveTestTargetFromSourceCoverage, not_elem_of_cons. tauto.
Qed.

Lemma covers_coverage_insert name coverage source0 source t :
  covers (coverage_insert name coverage source0) source t ↔
  covers coverage source t ∨ (source = source0 ∧ t = name).
Proof.
  unfold covers, coverage_insert.
  destruct (decide (source = source0)) as [->|Hne].
  - setoid_rewrite lookup_insert_eq. split.
    + intros (tests & [= <-] & Hin).
      apply elem_of_union in Hin as [Hin|Hin]; [|set_solver].
      left. destruct (coverage !! source0); [eauto|set_solver].
    + intros [(tests & Hlook & Hin)|[_ ->]]; eexists; (split; [done|]).
      * rewrite Hlook. set_solver.
      * set_solver.
  - setoid_rewrite lookup_insert_ne; [|done]. naive_solver.
Qed.

Lemma covers_foldl_coverage_insert name sources coverage source t :
  covers (foldl (coverage_insert name) coverage sources) source t ↔
  covers coverage source t ∨ (source ∈ sources ∧ t = name).
Proof.
  revert coverage. induction sources as [|source0 sources IH]; intros coverage; simpl.
  { split; [auto|]. intros [?|[?%elem_of_nil _]]; done. }
  rewrite IH, covers_coverage_insert, elem_of_cons. naive_solver.
Qed.

Lemma covers_aggregated_coverage policy jobs coverage source t :
  covers (aggregated_coverage policy jobs coverage) source t ↔
  covers coverage source t ∨
  ∃ job, job ∈ jobs ∧ GetTestTarget job = t ∧ source ∈ ingested_sources policy job.
Proof.
  revert coverage. induction jobs as [|job jobs IH]; intros coverage.
  { simpl. split; [auto|]. intros [?|(? & ?%elem_of_nil & _)]; done. }
  unfold aggregated_coverage in *. simpl. rewrite IH, covers_foldl_coverage_insert.
  setoid_rewrite elem_of_cons. naive_solver.
Qed.

Lemma not_covers_empty source t : ¬ covers ∅ source t.
Proof. intros (tests & Hlook & _). by rewrite lookup_empty in Hlook. Qed.

(** Every set of the aggregated coverage has a member. *)
Lemma aggregated_coverage_inhabited policy jobs source tests :
  aggregated_coverage policy jobs ∅ !! source = Some tests → ∃ t, t ∈ tests.
Proof.
  assert (∀ coverage : gmap RepoPath (gset string),
            (∀ source tests, coverage !! source = Some tests → ∃ t, t ∈ tests) →
            ∀ source tests,
              aggregated_coverage policy jobs coverage !! source = Some tests →
              ∃ t, t ∈ tests) as Hgen.
  { induction jobs as [|job jobs IH]; intros coverage Hcov; [done|].
    unfold aggregated_coverage in *. simpl. apply IH. clear IH.
    generalize (ingested_sources policy job). intros sources.
    revert coverage Hcov. induction sources as [|source0 sources IH]; [done|].
    intros coverage Hcov. simpl. apply IH. intros source1 tests1.
    unfold coverage_insert. destruct (decide (source0 = source1)) as [->|Hne].
    - rewrite lookup_insert_eq. intros [= <-]. exists (GetTestTarget job). set_solver.
    - rewrite lookup_insert_ne by done. apply Hcov. }
  apply Hgen. intros ? ?. by rewrite lookup_empty.
Qed.

Lemma IsRelativeTo_true path base :
  IsRelativeTo path base = true ↔ path = base ++ LexicallyRelative path base.
Proof.
  unfold IsRelativeTo, LexicallyRelative. rewrite bool_decide_eq_true. split.
  - intros [k ->]. by rewrite drop_app_length.
  - intros ->. by eexists.
Qed.

Lemma LexicallyRelative_app base rel : LexicallyRelative (base ++ rel) base = rel.
Proof. unfold LexicallyRelative. by rewrite drop_app_length. Qed.

Lemma elem_of_consolidated_list policy repoRoot jobs c :
  c ∈ GetCoverage (consolidated_list policy repoRoot jobs) ↔
  aggregated_coverage policy jobs ∅ !! (repoRoot ++ GetPath c)
    = Some (GetCoveringTestTargets c).
Proof.
  unfold consolidated_list, sources_in_repo. simpl.
  rewrite list_elem_of_fmap. setoid_rewrite list_elem_of_filter. split.
  - intros ([source tests] & -> & Hrel & Hin). simpl in *.
    apply elem_of_map_to_list in Hin. apply IsRelativeTo_true in Hrel.
    by rewrite <- Hrel.
  - intros Hlook. exists (repoRoot ++ GetPath c, GetCoveringTestTargets c). simpl.
    rewrite LexicallyRelative_app. split; [by destruct c|]. split.
    + apply IsRelativeTo_true. by rewrite LexicallyRelative_app.
    + by apply elem_of_map_to_list.
Qed.

Lemma CreateSourceCoveringTestFromTestCoverages_result jobs policy repoRoot s :
  (CreateSourceCoveringTestFromTestCoverages jobs policy repoRoot s).2 =
    match List.find passed_without_coverage jobs with
    | Some job => inl (RuntimeException (NoCoverageMessage job))
    | None => inr (consolidated_list policy repoRoot jobs)
    end.
Proof.
  rewrite CreateSourceCoveringTestFromTestCoverages_eq.
  by destruct (List.find passed_without_coverage jobs).
Qed.

Lemma CreateSourceCoveringTestFromTestCoverages_map jobs policy repoRoot s :
  m_dynamicDependencyMap (CreateSourceCoveringTestFromTestCoverages jobs policy repoRoot s).1 =
    remove_targets_of (processed_jobs jobs) (m_dynamicDependencyMap s).
Proof.
  rewrite CreateSourceCoveringTestFromTestCoverages_eq.
  destruct (List.find passed_without_coverage jobs) eqn:E; [done|].
  by rewrite (processed_jobs_no_throw _ E).
Qed.

Lemma find_app_skip {A} (f : A → bool) before x after :
  f x = false → List.find f (before ++ x :: after) = List.find f (before ++ after).
Proof.
  intros Hx. induction before as [|y before IH]; simpl; [by rewrite Hx|].
  by destruct (f y).
Qed.

Lemma elem_of_processed_jobs job jobs : job ∈ processed_jobs jobs → job ∈ jobs.
Proof.
  induction jobs as [|job0 jobs IH]; simpl; [done|].
  destruct (passed_without_coverage job0).
  - intros ->%list_elem_of_singleton. left.
  - intros [->|?]%elem_of_cons; [left|right; auto].
Qed.

Lemma find_passed_without_coverage_Some jobs job :
  job ∈ jobs → passed_without_coverage job = true →
  ∃ first, List.find passed_without_coverage jobs = Some first.
Proof.
  intros Hin Hjob. destruct (List.find passed_without_coverage jobs) eqn:E; [eauto|].
  apply find_passed_without_coverage_None in E. rewrite Forall_forall in E.
  specialize (E _ Hin). congruence.
Qed.

Lemma ingested_sources_discarded job :
  GetTestResult job = Client.TestFailures → ingested_sources Policy.Discard job = [].
Proof. unfold ingested_sources. by intros ->. Qed.

Lemma ingested_sources_no_artifact policy job :
  GetCoverge job = None → ingested_sources policy job = [].
Proof. unfold ingested_sources. intros ->. by repeat case_match. Qed.

Lemma aggregated_coverage_skip policy before job after coverage :
  ingested_sources policy job = [] →
  aggregated_coverage policy (before ++ job :: after) coverage =
  aggregated_coverage policy (before ++ after) coverage.
Proof.
  intros Hnone. unfold aggregated_coverage. rewrite !foldl_app. simpl.
  by rewrite Hnone.
Qed.

Lemma elem_of_ExportSourceCoverage ddm c :
  c ∈ GetCoverage (ExportSourceCoverage ddm) ↔
  m_sourceDependencyMap ddm !! GetPath c = Some (GetCoveringTestTargets c).
Proof.
  unfold ExportSourceCoverage. simpl. rewrite merge_sort_Permutation.
  rewrite list_elem_of_fmap. split.
  - intros ([source tests] & -> & Hin). by apply elem_of_map_to_list in Hin.
  - intros Hlook. exists (GetPath c, GetCoveringTestTargets c).
    split; [by destruct c|]. by apply elem_of_map_to_list.
Qed.

Lemma covers_ReplaceSourceCoverage l ddm source t :
  covers (m_sourceDependencyMap (ReplaceSourceCoverage l ddm)) source t ↔
  covers (m_sourceDependencyMap ddm) source t ∨
  ∃ c, c ∈ GetCoverage l ∧ GetPath c = source ∧ t ∈ GetCoveringTestTargets c.
Proof.
  unfold ReplaceSourceCoverage. cbn [m_sourceDependencyMap].
  generalize (m_sourceDependencyMap ddm). generalize (GetCoverage l). clear.
  intros entries. induction entries as [|c entries IH]; intros m; simpl.
  { split; [by left|]. intros [?|(c & Hc & _)]; [done|]. by apply elem_of_nil in Hc. }
  rewrite IH. clear IH.
  assert (covers (<[GetPath c := default ∅ (m !! GetPath c) ∪ GetCoveringTestTargets c]> m)
                 source t ↔
          covers m source t ∨ (GetPath c = source ∧ t ∈ GetCoveringTestTargets c)) as ->.
  { unfold covers. destruct (decide (GetPath c = source)) as [<-|Hne].
    - rewrite lookup_insert_eq. split.
      + intros (tests & [= <-] & Hin). apply elem_of_union in Hin as [Hin|Hin]; [|by right].
        left. destruct (m !! GetPath c) as [tests|]; [by exists tests|].
        by apply elem_of_empty in Hin.
      + intros [(tests & Hlook & Hin)|[_ Hin]]; eexists; (split; [done|]).
        * rewrite Hlook. simpl. by apply elem_of_union_l.
        * by apply elem_of_union_r.
    - rewrite lookup_insert_ne by done. split; [by left|]. by intros [?|[? _]]. }
  setoid_rewrite elem_of_cons. split.
  - intros [[?|[? ?]]|(c' & ? & ? & ?)]; [by left|right..]; [exists c|exists c']; eauto.
  - intros [?|(c' & [->|?] & ? & ?)]; [by left; left|by left; right|right; eauto].
Qed.

Lemma lookup_ReplaceSourceCoverage l ddm source :
  is_Some (m_sourceDependencyMap (ReplaceSourceCoverage l ddm) !! source) →
  is_Some (m_sourceDependencyMap ddm !! source) ∨ source ∈ GetPath <$> GetCoverage l.
Proof.
  unfold ReplaceSourceCoverage. cbn [m_sourceDependencyMap].
  generalize (m_sourceDependencyMap ddm). generalize (GetCoverage l). clear.
  intros entries. induction entries as [|c entries IH]; intros m; simpl; [by left|].
  intros [Hm|Hin]%IH.
  - destruct (decide (GetPath c = source)) as [<-|Hne].
    + right. apply elem_of_cons. by left.
    + left. by rewrite lookup_insert_ne in Hm.
  - right. apply elem_of_cons. by right.
Qed.

Lemma lookup_remove_targets_of jobs ddm source :
  is_Some (m_sourceDependencyMap (remove_targets_of jobs ddm) !! source) →
  is_Some (m_sourceDependencyMap ddm !! source).
Proof.
  revert ddm. induction jobs as [|job jobs IH]; intros ddm; [done|].
  unfold remove_targets_of in *. simpl. intros Hsome%IH. revert Hsome.
  unfold RemoveTestTargetFromSourceCoverage. simpl. rewrite lookup_omap.
  destruct (m_sourceDependencyMap ddm !! source); [by eexists|]. by intros [].
Qed.

Lemma ingested_source_aggregated policy jobs job source :
  job ∈ jobs → source ∈ ingested_sources policy job →
  ∃ tests, aggregated_coverage policy jobs ∅ !! source = Some tests ∧
           GetTestTarget job ∈ tests.
Proof.
  intros Hjob Hsource.
  apply (covers_aggregated_coverage policy jobs ∅ source (GetTestTarget job)).
  right. eauto.
Qed.

End ConsolidationFacts.

Module Consolidation.
Import ConsolidationFacts.

(** C3. In coverage consolidation a job that passed all its tests but
    carries no coverage artifact makes the consolidation fail with a
    [RuntimeException]; a job with test failures and no coverage artifact
    is skipped without error and adds nothing to the coverage: the
    consolidation gives what it gives without that job. *)
Theorem pass_without_coverage_throws_failure_without_coverage_skipped
    (policy : Policy.FailedTestCoverage) (repoRoot : RepoPath) :
  (∀ jobs job s,
      job ∈ jobs → GetTestResult job = Client.AllTestsPass → GetCoverge job = None →
      ∃ what, (CreateSourceCoveringTestFromTestCoverages jobs policy repoRoot s).2
              = inl (RuntimeException what)) ∧
  (∀ job coverage s,
      GetTestResult job = Client.TestFailures → GetCoverge job = None →
      (consolidate_job policy job coverage s).2 = inr coverage) ∧
  (∀ before job after s,
      GetTestResult job = Client.TestFailures → GetCoverge job = None →
      (CreateSourceCoveringTestFromTestCoverages (before ++ job :: after) policy
         repoRoot s).2 =
      (CreateSourceCoveringTestFromTestCoverages (before ++ after) policy repoRoot s).2).
Proof.
  split_and!.
  - intros jobs job s Hin Hresult Hartifact.
    rewrite CreateSourceCoveringTestFromTestCoverages_result.
    destruct (find_passed_without_coverage_Some jobs job Hin) as [first ->]; [|eauto].
    unfold passed_without_coverage. by rewrite Hresult, Hartifact.
  - intros job coverage s Hresult Hartifact. rewrite consolidate_job_eq.
    unfold passed_without_coverage. rewrite Hresult. simpl.
    by rewrite ingested_sources_no_artifact.
  - intros before job after s Hresult Hartifact.
    rewrite !CreateSourceCoveringTestFromTestCoverages_result.
    rewrite find_app_skip by (unfold passed_without_coverage; by rewrite Hresult).
    destruct (List.find _ (before ++ after)); [done|].
    unfold consolidated_list.
    by rewrite aggregated_coverage_skip by by apply ingested_sources_no_artifact.
Qed.

(** C4, as amended.  Each turn of the consolidation loop first removes the
    existing coverage of the job's test target from the dependency map,
    whatever the job's outcome, so that no source of the map is covered by
    that target; this holds after consolidation for every job the loop got
    to, which are all the jobs of the batch when none passed without
    coverage and otherwise those up to the first that did.  The coverage
    of a test target of no such job is as it was.  Under the [Discard]
    policy a job with test failures adds nothing to the coverage, and once
    a batch without a job that passed without coverage is ingested,
    whatever the map records for that target stems from another job of the
    batch for the same target, one without test failures. *)
Theorem prior_coverage_removed_and_failed_coverage_discarded :
  (∀ policy job coverage s,
      let r := consolidate_job policy job coverage s in
      m_dynamicDependencyMap r.1 =
        RemoveTestTargetFromSourceCoverage (GetTestTarget job) (m_dynamicDependencyMap s) ∧
      (∀ source, ¬ covers (m_sourceDependencyMap (m_dynamicDependencyMap r.1))
                          source (GetTestTarget job)) ∧
      (policy = Policy.Discard → GetTestResult job = Client.TestFailures →
       r.2 = inr coverage)) ∧
  (∀ policy repoRoot jobs s job source,
      job ∈ processed_jobs jobs →
      ¬ covers (m_sourceDependencyMap (m_dynamicDependencyMap
                  (CreateSourceCoveringTestFromTestCoverages jobs policy repoRoot s).1))
               source (GetTestTarget job)) ∧
  (∀ jobs, Forall (λ job, passed_without_coverage job = false) jobs →
           processed_jobs jobs = jobs) ∧
  (∀ integrity repoRoot sparTiaFile jobs s job source,
      Forall (λ job, passed_without_coverage job = false) jobs →
      job ∈ jobs → GetTestResult job = Client.TestFailures →
      covers (m_sourceDependencyMap (m_dynamicDependencyMap
                (UpdateAndSerializeDynamicDependencyMap jobs Policy.Discard integrity
                   repoRoot sparTiaFile s).1))
             source (GetTestTarget job) →
      ∃ other, other ∈ jobs ∧ GetTestTarget other = GetTestTarget job ∧
               GetTestResult other ≠ Client.TestFailures ∧
               repoRoot ++ source ∈ ingested_sources Policy.Discard other) ∧
  (∀ policy repoRoot jobs s source t,
      t ∉ GetTestTarget <$> processed_jobs jobs →
      (covers (m_sourceDependencyMap (m_dynamicDependencyMap
                 (CreateSourceCoveringTestFromTestCoverages jobs policy repoRoot s).1))
              source t ↔
       covers (m_sourceDependencyMap (m_dynamicDependencyMap s)) source t)).
Proof.
  split_and!.
  5:{ intros policy repoRoot jobs s source t Hunreached.
      rewrite CreateSourceCoveringTestFromTestCoverages_map, covers_remove_targets_of.
      tauto. }
  - intros policy job coverage s r. subst r. rewrite consolidate_job_eq. simpl.
    split_and!; [done| |].
    + intros source Hcovers.
      apply covers_RemoveTestTargetFromSourceCoverage in Hcovers as [_ Hne]. done.
    + intros -> Hresult. unfold passed_without_coverage. rewrite Hresult. simpl.
      by rewrite ingested_sources_discarded.
  - intros policy repoRoot jobs s job source Hin.
    rewrite CreateSourceCoveringTestFromTestCoverages_map.
    intros [_ Hnot]%covers_remove_targets_of. apply Hnot.
    apply list_elem_of_fmap. eauto.
  - intros jobs Hall. by apply processed_jobs_no_throw, find_passed_without_coverage_None.
  - intros integrity repoRoot sparTiaFile jobs s job source Hall Hin Hresult.
    rewrite UpdateAndSerializeDynamicDependencyMap_eq.
    apply find_passed_without_coverage_None in Hall. rewrite Hall. cbv zeta.
    assert (∀ s', ¬ covers (m_sourceDependencyMap (m_dynamicDependencyMap s'))
                           source (GetTestTarget job) →
                  covers
              (m_sourceDependencyMap (m_dynamicDependencyMap
                 (with_map (ReplaceSourceCoverage
                              (consolidated_list Policy.Discard repoRoot jobs)) s')))
              source (GetTestTarget job) →
            ∃ other, other ∈ jobs ∧ GetTestTarget other = GetTestTarget job ∧
                     GetTestResult other ≠ Client.TestFailures ∧
                     repoRoot ++ source ∈ ingested_sources Policy.Discard other) as Hnew.
    { intros s' Hpruned Hcovers. cbn [m_dynamicDependencyMap with_map] in Hcovers.
      apply covers_ReplaceSourceCoverage in Hcovers
        as [Hprior|(c & Hc & <- & Ht)]; [by destruct (Hpruned Hprior)|].
      apply elem_of_consolidated_list in Hc.
      destruct (proj1 (covers_aggregated_coverage Policy.Discard jobs ∅
                         (repoRoot ++ GetPath c) (GetTestTarget job)))
        as [Hempty|(other & Hother & Htarget & Hsource)].
      { by eexists. }
      { by apply not_covers_empty in Hempty. }
      exists other. split_and!; [done..| |done].
      intros Hfails. rewrite ingested_sources_discarded in Hsource by done.
      by apply elem_of_nil in Hsource. }
    assert (¬ covers (m_sourceDependencyMap
                        (remove_targets_of jobs (m_dynamicDependencyMap s)))
                     source (GetTestTarget job)) as Hpruned.
    { intros [_ Hnot]%covers_remove_targets_of. apply Hnot.
      apply list_elem_of_fmap. eauto. }
    case_bool_decide.
    + simpl. intros Hcovers. by destruct (Hpruned Hcovers).
    + destruct (writable s); [by apply Hnew|].
      case_bool_decide; by apply Hnew.
Qed.

(** C5. Every entry of the consolidated coverage list stands for a covered
    source that lies under the repository root, under its path relative to
    the root; each such source of a job whose coverage is ingested has its
    entry, naming the job's target.  The loop turn for a source outside the
    root leaves the list as it is and writes a warning, the turn for a
    source under the root appends its entry and writes nothing; the
    warnings consolidation writes are those for the sources outside the
    root.  After a successful update the persisted file holds the export
    of the map, and every path of that export was a path of the map before
    or is the relative form of a source under the root. *)
Theorem sources_outside_repo_never_stored
    (policy : Policy.FailedTestCoverage) (repoRoot : RepoPath)
    (jobs : list TestEngineInstrumentedRun) (s : State) (l : SourceCoveringTestsList) :
  let r := CreateSourceCoveringTestFromTestCoverages jobs policy repoRoot s in
  r.2 = inr l →
  (∀ c, c ∈ GetCoverage l →
     ∃ job source,
       job ∈ jobs ∧ source ∈ ingested_sources policy job ∧
       IsRelativeTo source repoRoot = true ∧
       GetPath c = LexicallyRelative source repoRoot ∧
       source = repoRoot ++ GetPath c) ∧
  (∀ job source,
     job ∈ jobs → source ∈ ingested_sources policy job →
     IsRelativeTo source repoRoot = true →
     ∃ c, c ∈ GetCoverage l ∧ GetPath c = LexicallyRelative source repoRoot ∧
          GetTestTarget job ∈ GetCoveringTestTargets c) ∧
  (∀ (entry : RepoPath * gset string) sourceCoveringTests s',
     (IsRelativeTo entry.1 repoRoot = false →
      collect_source repoRoot entry sourceCoveringTests s' =
        (with_log (λ entries, entries ++ [Warning_IgnoringSource entry.1]) s',
         inr sourceCoveringTests)) ∧
     (IsRelativeTo entry.1 repoRoot = true →
      collect_source repoRoot entry sourceCoveringTests s' =
        (s', inr (sourceCoveringTests ++
                  [{| GetPath := LexicallyRelative entry.1 repoRoot;
                      GetCoveringTestTargets := entry.2 |}])))) ∧
  (∀ job source,
     job ∈ jobs → source ∈ ingested_sources policy job →
     IsRelativeTo source repoRoot = false →
     Warning_IgnoringSource source ∈ log r.1) ∧
  (∀ source,
     Warning_IgnoringSource source ∈ log r.1 →
     Warning_IgnoringSource source ∈ log s ∨
     (IsRelativeTo source repoRoot = false ∧
      ∃ job, job ∈ jobs ∧ source ∈ ingested_sources policy job)) ∧
  (∀ integrity sparTiaFile,
     let u := UpdateAndSerializeDynamicDependencyMap jobs policy integrity repoRoot
                sparTiaFile s in
     u.2 = inr (Some true) →
     files u.1 !! sparTiaFile
       = Some (ExportSourceCoverage (m_dynamicDependencyMap u.1)) ∧
     ∀ c, c ∈ GetCoverage (ExportSourceCoverage (m_dynamicDependencyMap u.1)) →
          is_Some (m_sourceDependencyMap (m_dynamicDependencyMap s) !! GetPath c) ∨
          ∃ job source,
            job ∈ jobs ∧ source ∈ ingested_sources policy job ∧
            IsRelativeTo source repoRoot = true ∧
            GetPath c = LexicallyRelative source repoRoot).
Proof.
  intros r Hr. subst r.
  rewrite CreateSourceCoveringTestFromTestCoverages_result in Hr.
  rewrite CreateSourceCoveringTestFromTestCoverages_eq.
  destruct (List.find passed_without_coverage jobs) eqn:Hfind; [done|].
  injection Hr as <-.
  assert (∀ c, c ∈ GetCoverage (consolidated_list policy repoRoot jobs) →
               ∃ job source,
                 job ∈ jobs ∧ source ∈ ingested_sources policy job ∧
                 IsRelativeTo source repoRoot = true ∧
                 GetPath c = LexicallyRelative source repoRoot ∧
                 source = repoRoot ++ GetPath c) as Hentries.
  { intros c Hc. apply elem_of_consolidated_list in Hc.
    destruct (aggregated_coverage_inhabited _ _ _ _ Hc) as [t Ht].
    destruct (proj1 (covers_aggregated_coverage policy jobs ∅ (repoRoot ++ GetPath c) t))
      as [Hempty|(job & Hjob & _ & Hsource)].
    { by eexists. }
    { by apply not_covers_empty in Hempty. }
    exists job, (repoRoot ++ GetPath c). rewrite LexicallyRelative_app.
    split_and!; [done..| |done|done].
    apply IsRelativeTo_true. by rewrite LexicallyRelative_app. }
  split_and!.
  - exact Hentries.
  - intros job source Hjob Hsource Hrel.
    destruct (ingested_source_aggregated _ _ _ _ Hjob Hsource) as (tests & Hlook & Ht).
    exists {| GetPath := LexicallyRelative source repoRoot;
              GetCoveringTestTargets := tests |}.
    split_and!; [|done..]. apply elem_of_consolidated_list. simpl.
    apply IsRelativeTo_true in Hrel. by rewrite <- Hrel.
  - intros entry sourceCoveringTests s'. unfold collect_source. cbv zeta.
    split; intros ->; [|done].
    by unfold mbind, M_bind, write_log, mret, M_ret.
  - intros job source Hjob Hsource Hrel.
    destruct (ingested_source_aggregated _ _ _ _ Hjob Hsource) as (tests & Hlook & _).
    simpl. apply elem_of_app. right. unfold warnings_outside_repo.
    apply list_elem_of_fmap. exists (source, tests). split; [done|].
    apply list_elem_of_filter. split; [done|]. by apply elem_of_map_to_list.
  - intros source. simpl. rewrite elem_of_app. intros [Hold|Hnew]; [by left|right].
    unfold warnings_outside_repo in Hnew.
    apply list_elem_of_fmap in Hnew as ([source' tests] & [= ->] & Hin).
    apply list_elem_of_filter in Hin as [Hrel Hin]. simpl in Hrel.
    split; [done|]. apply elem_of_map_to_list in Hin.
    destruct (aggregated_coverage_inhabited _ _ _ _ Hin) as [t Ht].
    destruct (proj1 (covers_aggregated_coverage policy jobs ∅ source' t))
      as [Hempty|(job & Hjob & _ & Hsource)].
    { by eexists. }
    { by apply not_covers_empty in Hempty. }
    eauto.
  - intros integrity sparTiaFile u. subst u.
    rewrite UpdateAndSerializeDynamicDependencyMap_eq, Hfind. cbv zeta.
    case_bool_decide; [done|]. destruct (writable s); [|by case_bool_decide].
    intros _. split.
    + simpl. by rewrite lookup_insert_eq.
    + intros c Hc. apply elem_of_ExportSourceCoverage in Hc.
      cbn [fst m_dynamicDependencyMap with_files with_map with_log] in Hc.
      assert (is_Some (m_sourceDependencyMap
                         (ReplaceSourceCoverage
                            (consolidated_list policy repoRoot jobs)
                            (remove_targets_of jobs (m_dynamicDependencyMap s)))
                       !! GetPath c)) as Hsome by (by eexists).
      apply lookup_ReplaceSourceCoverage in Hsome as [Hprior|Hlisted].
      * left. by apply lookup_remove_targets_of in Hprior.
      * right. apply list_elem_of_fmap in Hlisted as (c' & Hpath & Hc').
        destruct (Hentries c' Hc') as (job & source & ? & ? & ? & ? & _).
        exists job, source. split_and!; [done..|]. congruence.
Qed.

(** C2, as amended.  A [RuntimeException] raised while consolidating or
    persisting leaves [UpdateAndSerializeDynamicDependencyMap] iff the
    integrity-failure policy is [Abort]; otherwise it is logged and no
    update is reported.  The persisted file is then as it was, and so it
    is when the consolidated list is empty.  The map is not restored: the
    coverage of the targets of the jobs consolidation got to stays removed,
    and a failure to persist comes after the map has been replaced by the
    consolidated list. *)
Theorem update_failure_propagation_and_effects
    (jobs : list TestEngineInstrumentedRun) (policy : Policy.FailedTestCoverage)
    (integrity : Policy.IntegrityFailure) (repoRoot sparTiaFile : RepoPath) (s : State) :
  let c := CreateSourceCoveringTestFromTestCoverages jobs policy repoRoot s in
  let u := UpdateAndSerializeDynamicDependencyMap jobs policy integrity repoRoot
             sparTiaFile s in
  (∀ e, u.2 = inl e → integrity = Policy.Abort ∧ ∃ what, e = RuntimeException what) ∧
  (∀ e, c.2 = inl e →
     (integrity = Policy.Abort → u.2 = inl e) ∧
     (integrity ≠ Policy.Abort →
      u.2 = inr None ∧ ∃ what, e = RuntimeException what ∧
                               log u.1 = log s ++ [Error what]) ∧
     m_dynamicDependencyMap u.1 =
       remove_targets_of (processed_jobs jobs) (m_dynamicDependencyMap s) ∧
     files u.1 = files s) ∧
  (∀ l, c.2 = inr l → GetNumSources l = 0 →
     u.2 = inr None ∧
     m_dynamicDependencyMap u.1 = remove_targets_of jobs (m_dynamicDependencyMap s) ∧
     files u.1 = files s) ∧
  (∀ l, c.2 = inr l → GetNumSources l ≠ 0 → writable s = false →
     (integrity = Policy.Abort → ∃ what, u.2 = inl (RuntimeException what)) ∧
     (integrity ≠ Policy.Abort →
      u.2 = inr None ∧ ∃ what, log u.1 = log c.1 ++ [Error what]) ∧
     m_dynamicDependencyMap u.1 =
       ReplaceSourceCoverage l (remove_targets_of jobs (m_dynamicDependencyMap s)) ∧
     files u.1 = files s) ∧
  (∀ l, c.2 = inr l → GetNumSources l ≠ 0 → writable s = true →
     u.2 = inr (Some true) ∧
     m_dynamicDependencyMap u.1 =
       ReplaceSourceCoverage l (remove_targets_of jobs (m_dynamicDependencyMap s)) ∧
     files u.1 =
       <[sparTiaFile := ExportSourceCoverage (m_dynamicDependencyMap u.1)]> (files s)).
Proof.
  intros c u. subst c u.
  rewrite CreateSourceCoveringTestFromTestCoverages_eq,
    UpdateAndSerializeDynamicDependencyMap_eq.
  destruct (List.find passed_without_coverage jobs) as [job|] eqn:Hfind; cbv zeta.
  - split_and!; try done.
    + intros e. destruct integrity; simpl; [|done]. intros [= <-]. eauto.
    + intros e [= <-]. destruct integrity; simpl; split_and!; try done.
      intros _. eauto.
  - rewrite (processed_jobs_no_throw _ Hfind).
    split_and!; try done.
    + intros e. case_bool_decide; [done|]. destruct (writable s); [done|].
      destruct integrity; simpl; [|done]. intros [= <-]. eauto.
    + intros l [= <-] Hempty. by rewrite bool_decide_eq_true_2.
    + intros l [= <-] Hsome Hwritable. rewrite bool_decide_eq_false_2 by done.
      rewrite Hwritable. destruct integrity; simpl; split_and!; try done; eauto.
    + intros l [= <-] Hsome Hwritable. rewrite bool_decide_eq_false_2 by done.
      by rewrite Hwritable.
Qed.

End Consolidation.

Module ConsolidationWitness.
Import Scenario Consolidation.

Lemma pass_without_coverage_throws_T1 :
  (∃ what,
     (CreateSourceCoveringTestFromTestCoverages
        [job "T2" Client.AllTestsPass (Some [b_cpp]); job "T1" Client.AllTestsPass None]
        Policy.Keep repoRoot seeded_state).2 = inl (RuntimeException what)) ∧
  (consolidate_job Policy.Keep (job "T1" Client.TestFailures None) ∅ seeded_state).2
    = inr ∅ ∧
  (CreateSourceCoveringTestFromTestCoverages
     ([job "T2" Client.AllTestsPass (Some [b_cpp])]
      ++ job "T1" Client.TestFailures None :: []) Policy.Keep repoRoot seeded_state).2 =
  (CreateSourceCoveringTestFromTestCoverages
     ([job "T2" Client.AllTestsPass (Some [b_cpp])] ++ []) Policy.Keep repoRoot
     seeded_state).2.
Proof.
  pose proof (pass_without_coverage_throws_failure_without_coverage_skipped
                Policy.Keep repoRoot) as (Hthrows & Hskipped & Hbatch).
  split_and!.
  - apply (Hthrows _ (job "T1" Client.AllTestsPass None));
      [right; left|reflexivity|reflexivity].
  - apply Hskipped; reflexivity.
  - apply Hbatch; reflexivity.
Defined.

Lemma failed_T1_coverage_discarded :
  (consolidate_job Policy.Discard (job "T1" Client.TestFailures (Some [a_cpp])) ∅
     seeded_state).2 = inr ∅ ∧
  (∀ source,
     ¬ covers (m_sourceDependencyMap (m_dynamicDependencyMap
                 (CreateSourceCoveringTestFromTestCoverages
                    [job "T1" Client.TestFailures (Some [a_cpp])] Policy.Discard
                    repoRoot seeded_state).1))
              source "T1") ∧
  ∃ other,
    other ∈ [job "T1" Client.TestFailures (Some [a_cpp]);
             job "T1" Client.AllTestsPass (Some [b_cpp])] ∧
    GetTestTarget other = "T1" ∧ GetTestResult other ≠ Client.TestFailures ∧
    repoRoot ++ ["b.cpp"] ∈ ingested_sources Policy.Discard other.
Proof.
  pose proof prior_coverage_removed_and_failed_coverage_discarded
    as (Hstep & Hbatch & _ & Hingested & _).
  split_and!.
  - apply (Hstep Policy.Discard (job "T1" Client.TestFailures (Some [a_cpp])) ∅
             seeded_state); reflexivity.
  - intros source.
    apply (Hbatch Policy.Discard repoRoot
             [job "T1" Client.TestFailures (Some [a_cpp])] seeded_state
             (job "T1" Client.TestFailures (Some [a_cpp])) source).
    left.
  - apply (Hingested Policy.Continue repoRoot sparTiaFile
             [job "T1" Client.TestFailures (Some [a_cpp]);
              job "T1" Client.AllTestsPass (Some [b_cpp])]
             seeded_state (job "T1" Client.TestFailures (Some [a_cpp])) ["b.cpp"]).
    + repeat constructor.
    + left.
    + reflexivity.
    + exists {["T1"; "T2"]}. split; [vm_compute; reflexivity|].
      apply elem_of_union. left. by apply elem_of_singleton.
Defined.

(** C4 fails as stated: not every job of the batch has the coverage of
    its test target removed.  When [T1] passes without coverage the loop
    throws at [T1], the job of [T2] behind it is not reached, and [T2]
    still covers [b.cpp] and [c.cpp] after consolidation and after the
    update, which under [Continue] logs the exception and returns. *)
Lemma job_behind_throwing_job_keeps_coverage :
  job "T2" Client.TestFailures (Some [a_cpp]) ∈
    [job "T1" Client.AllTestsPass None; job "T2" Client.TestFailures (Some [a_cpp])] ∧
  (CreateSourceCoveringTestFromTestCoverages
     [job "T1" Client.AllTestsPass None; job "T2" Client.TestFailures (Some [a_cpp])]
     Policy.Discard repoRoot seeded_state).2
    = inl (RuntimeException
             (NoCoverageMessage (job "T1" Client.AllTestsPass None))) ∧
  covers (m_sourceDependencyMap (m_dynamicDependencyMap
            (CreateSourceCoveringTestFromTestCoverages
               [job "T1" Client.AllTestsPass None;
                job "T2" Client.TestFailures (Some [a_cpp])]
               Policy.Discard repoRoot seeded_state).1))
         ["b.cpp"] "T2" ∧
  (UpdateAndSerializeDynamicDependencyMap
     [job "T1" Client.AllTestsPass None; job "T2" Client.TestFailures (Some [a_cpp])]
     Policy.Discard Policy.Continue repoRoot sparTiaFile seeded_state).2 = inr None ∧
  covers (m_sourceDependencyMap (m_dynamicDependencyMap
            (UpdateAndSerializeDynamicDependencyMap
               [job "T1" Client.AllTestsPass None;
                job "T2" Client.TestFailures (Some [a_cpp])]
               Policy.Discard Policy.Continue repoRoot sparTiaFile seeded_state).1))
         ["b.cpp"] "T2" ∧
  covers (m_sourceDependencyMap (m_dynamicDependencyMap
            (UpdateAndSerializeDynamicDependencyMap
               [job "T1" Client.AllTestsPass None;
                job "T2" Client.TestFailures (Some [a_cpp])]
               Policy.Discard Policy.Continue repoRoot sparTiaFile seeded_state).1))
         ["c.cpp"] "T2".
Proof.
  split_and!.
  - right; left.
  - vm_compute. reflexivity.
  - exists {["T2"]}. split; [vm_compute; reflexivity|by apply elem_of_singleton].
  - vm_compute. reflexivity.
  - exists {["T2"]}. split; [vm_compute; reflexivity|by apply elem_of_singleton].
  - exists {["T2"]}. split; [vm_compute; reflexivity|by apply elem_of_singleton].
Qed.

Lemma out_of_repo_x_h_not_stored :
  (∃ c, c ∈ [ {| GetPath := ["a.cpp"]; GetCoveringTestTargets := {["T1"]} |} ] ∧
        GetPath c = LexicallyRelative a_cpp repoRoot ∧
        "T1" ∈ GetCoveringTestTargets c) ∧
  Warning_IgnoringSource x_h ∈
    log (CreateSourceCoveringTestFromTestCoverages
           [job "T1" Client.AllTestsPass (Some [a_cpp; x_h])] Policy.Keep repoRoot
           seeded_state).1 ∧
  collect_source repoRoot (x_h, {["T1"]})
    [ {| GetPath := ["a.cpp"]; GetCoveringTestTargets := {["T1"]} |} ] seeded_state =
    (with_log (λ entries, entries ++ [Warning_IgnoringSource x_h]) seeded_state,
     inr [ {| GetPath := ["a.cpp"]; GetCoveringTestTargets := {["T1"]} |} ]).
Proof.
  pose proof (sources_outside_repo_never_stored Policy.Keep repoRoot
                [job "T1" Client.AllTestsPass (Some [a_cpp; x_h])] seeded_state
                {| GetCoverage :=
                     [ {| GetPath := ["a.cpp"]; GetCoveringTestTargets := {["T1"]} |} ] |})
    as Hthm.
  cbv zeta in Hthm.
  destruct Hthm as (_ & Hin & Hturn & Hwarned & _); [vm_compute; reflexivity|].
  split_and!.
  - apply (Hin (job "T1" Client.AllTestsPass (Some [a_cpp; x_h])) a_cpp);
      [left|left|reflexivity].
  - apply (Hwarned (job "T1" Client.AllTestsPass (Some [a_cpp; x_h])) x_h);
      [left|right; left|reflexivity].
  - apply (Hturn (x_h, {["T1"]})). reflexivity.
Defined.

(** C2 fails as stated.  From the seeded map, under [Discard], a batch with
    the one job of [T1], with test failures, consolidates to the empty
    list: the update reports nothing, and yet the map has lost what [T1]
    covered.  Under [Continue], a batch with a passing job of [T1] without
    coverage raises an exception that is caught and logged, and the map
    has lost the coverage of [T1] as well. *)
Lemma update_does_not_leave_map_unchanged :
  ((UpdateAndSerializeDynamicDependencyMap
      [job "T1" Client.TestFailures (Some [a_cpp])] Policy.Discard Policy.Continue
      repoRoot sparTiaFile seeded_state).2 = inr None ∧
   (CreateSourceCoveringTestFromTestCoverages
      [job "T1" Client.TestFailures (Some [a_cpp])] Policy.Discard repoRoot
      seeded_state).2 = inr {| GetCoverage := [] |} ∧
   m_dynamicDependencyMap
     (UpdateAndSerializeDynamicDependencyMap
        [job "T1" Client.TestFailures (Some [a_cpp])] Policy.Discard Policy.Continue
        repoRoot sparTiaFile seeded_state).1
   ≠ m_dynamicDependencyMap seeded_state) ∧
  ((UpdateAndSerializeDynamicDependencyMap
      [job "T1" Client.AllTestsPass None] Policy.Keep Policy.Continue
      repoRoot sparTiaFile seeded_state).2 = inr None ∧
   (∃ what,
      (CreateSourceCoveringTestFromTestCoverages
         [job "T1" Client.AllTestsPass None] Policy.Keep repoRoot seeded_state).2
      = inl (RuntimeException what) ∧
      log (UpdateAndSerializeDynamicDependencyMap
             [job "T1" Client.AllTestsPass None] Policy.Keep Policy.Continue
             repoRoot sparTiaFile seeded_state).1 = [Error what]) ∧
   m_dynamicDependencyMap
     (UpdateAndSerializeDynamicDependencyMap
        [job "T1" Client.AllTestsPass None] Policy.Keep Policy.Continue
        repoRoot sparTiaFile seeded_state).1
   ≠ m_dynamicDependencyMap seeded_state).
Proof.
  split; split_and!.
  - vm_compute. reflexivity.
  - vm_compute. reflexivity.
  - intros Heq.
    apply (f_equal (λ ddm, m_sourceDependencyMap ddm !! ["a.cpp"])) in Heq.
    vm_compute in Heq. discriminate Heq.
  - vm_compute. reflexivity.
  - eexists. split; vm_compute; reflexivity.
  - intros Heq.
    apply (f_equal (λ ddm, m_sourceDependencyMap ddm !! ["a.cpp"])) in Heq.
    vm_compute in Heq. discriminate Heq.
Qed.

Lemma update_failure_propagation_and_effects_seeded :
  ((UpdateAndSerializeDynamicDependencyMap
      [job "T1" Client.AllTestsPass None] Policy.Keep Policy.Continue
      repoRoot sparTiaFile seeded_state).2 = inr None ∧
   ∃ what,
     RuntimeException (NoCoverageMessage (job "T1" Client.AllTestsPass None))
       = RuntimeException what ∧
     log (UpdateAndSerializeDynamicDependencyMap
            [job "T1" Client.AllTestsPass None] Policy.Keep Policy.Continue
            repoRoot sparTiaFile seeded_state).1 = log seeded_state ++ [Error what]) ∧
  ((UpdateAndSerializeDynamicDependencyMap
      [job "T1" Client.TestFailures (Some [a_cpp])] Policy.Discard Policy.Continue
      repoRoot sparTiaFile seeded_state).2 = inr None ∧
   m_dynamicDependencyMap
     (UpdateAndSerializeDynamicDependencyMap
        [job "T1" Client.TestFailures (Some [a_cpp])] Policy.Discard Policy.Continue
        repoRoot sparTiaFile seeded_state).1
   = remove_targets_of [job "T1" Client.TestFailures (Some [a_cpp])]
       (m_dynamicDependencyMap seeded_state) ∧
   files (UpdateAndSerializeDynamicDependencyMap
            [job "T1" Client.TestFailures (Some [a_cpp])] Policy.Discard Policy.Continue
            repoRoot sparTiaFile seeded_state).1 = files seeded_state).
Proof.
  split.
  - pose proof (update_failure_propagation_and_effects
                  [job "T1" Client.AllTestsPass None] Policy.Keep Policy.Continue
                  repoRoot sparTiaFile seeded_state) as (_ & Hthrows & _).
    destruct (Hthrows
                (RuntimeException (NoCoverageMessage (job "T1" Client.AllTestsPass None))))
      as (_ & Hcaught & _); [vm_compute; reflexivity|].
    apply Hcaught. discriminate.
  - pose proof (update_failure_propagation_and_effects
                  [job "T1" Client.TestFailures (Some [a_cpp])] Policy.Discard
                  Policy.Continue repoRoot sparTiaFile seeded_state)
      as (_ & _ & Hempty & _).
    apply (Hempty {| GetCoverage := [] |}); vm_compute; reflexivity.
Defined.

(** Section 8 of the specification, scenario 2: from the seeded map, an
    update in which [T1] covers [a.cpp] and [b.cpp] and [T3] passes with
    no sources leaves the coverage of [T2], which is not in the batch, in
    place. *)
Lemma update_keeps_coverage_of_targets_outside_batch :
  m_sourceDependencyMap
    (m_dynamicDependencyMap
       (UpdateAndSerializeDynamicDependencyMap
          [job "T1" Client.AllTestsPass (Some [a_cpp; b_cpp]);
           job "T3" Client.AllTestsPass (Some [])] Policy.Keep Policy.Abort repoRoot
          sparTiaFile seeded_state).1)
  = {[ ["a.cpp"] := {["T1"]}; ["b.cpp"] := {["T1"; "T2"]}; ["c.cpp"] := {["T2"]} ]}.
Proof. vm_compute. reflexivity. Qed.

End ConsolidationWitness.


(** ** The sequences *)

Module SequenceFacts.
Import ConsolidationFacts.

Lemma with_trace_nil s : with_trace (λ t, t ++ []) s = s.
Proof. destruct s. unfold with_trace. simpl. by rewrite app_nil_r. Qed.

Lemma call_if_present_eq callback ev s :
  call_if_present callback ev s =
    (with_trace (λ t, t ++ optional_event callback ev) s, inr tt).
Proof.
  unfold call_if_present, optional_event, emit, mret, M_ret.
  destruct callback; [done|]. by rewrite with_trace_nil.
Qed.

Lemma UpdateAndSerializeDynamicDependencyMap_trace jobs policy integrity repoRoot file s :
  trace (UpdateAndSerializeDynamicDependencyMap jobs policy integrity repoRoot file s).1
  = trace s.
Proof.
  rewrite UpdateAndSerializeDynamicDependencyMap_eq.
  destruct (List.find passed_without_coverage jobs); cbv zeta;
    repeat case_bool_decide; try done; by destruct (writable s).
Qed.

Lemma updateCoverage_trace this jobs s :
  trace (updateCoverage this jobs s).1 = trace s.
Proof.
  unfold updateCoverage, mbind, M_bind.
  pose proof (UpdateAndSerializeDynamicDependencyMap_trace jobs
                (m_failedTestCoveragePolicy this) (m_integrationFailurePolicy this)
                (m_repoRoot this) (m_sparTiaFile this) s) as Htrace.
  destruct (UpdateAndSerializeDynamicDependencyMap _ _ _ _ _ s) as [s' [e|updated]];
    simpl in *; done.
Qed.

Section Wrapper.
Context `{TestEngineJob TestJob}.
Variable instrumented : bool.
Variable testTargetTimeout : option Z.
Variable engineRun : list Event → list TestTargetPtr → option Z → option Z →
                     EngineOutcome TestJob.
Variable testRunner : list TestTargetPtr → option Z → M (EngineOutcome TestJob).
Hypothesis testRunner_eq : ∀ testsTargets globalTimeout s,
  testRunner testsTargets globalTimeout s =
    (with_trace (λ t, t ++ [EngineRun instrumented testsTargets testTargetTimeout
                              globalTimeout]) s,
     inr (engineRun (trace s) testsTargets testTargetTimeout globalTimeout)).

(** [ImpactAnalysisTestSequenceWrapper] in closed form. *)
Lemma ImpactAnalysisTestSequenceWrapper_eq
    (included excluded discarded drafted : list TestTargetPtr)
    globalTimeout startCallback endCallback updateCoverage s :
  let s0 :=
    with_trace (λ t, t ++ optional_event startCallback
                       (ImpactAnalysisSequenceStart
                          {| Client.GetIncludedTestRuns := included;
                             Client.GetExcludedTestRuns := excluded |}
                          discarded drafted)) s in
  let selectedTestRunData :=
    run_data included (engineRun (trace s0) included testTargetTimeout globalTimeout) in
  let s1 :=
    with_trace (λ t, t ++ run_event instrumented included testTargetTimeout
                       globalTimeout) s0 in
  let draftedTestRunData :=
    run_data drafted (engineRun (trace s1) drafted testTargetTimeout globalTimeout) in
  let s2 :=
    with_trace (λ t, t ++ run_event instrumented drafted testTargetTimeout
                       globalTimeout) s1 in
  let s3 := with_trace (λ t, t ++ optional_event endCallback SequenceEnd) s2 in
  let sequenceReport :=
    {| ClientReports.ia_testTargetTimeout := testTargetTimeout;
       ClientReports.ia_globalTimeout := globalTimeout;
       ClientReports.ia_selectedTestRuns :=
         {| Client.GetIncludedTestRuns := included;
            Client.GetExcludedTestRuns := excluded |};
       ClientReports.ia_discardedTestRuns := discarded;
       ClientReports.ia_draftedTestRuns := drafted;
       ClientReports.ia_selectedTestRunReport :=
         GenerateTestRunReport (m_result selectedTestRunData)
           (m_duration selectedTestRunData) (m_jobs selectedTestRunData);
       ClientReports.ia_draftedTestRunReport :=
         GenerateTestRunReport (m_result draftedTestRunData)
           (m_duration draftedTestRunData) (m_jobs draftedTestRunData) |} in
  ImpactAnalysisTestSequenceWrapper testRunner included excluded discarded drafted
    testTargetTimeout globalTimeout startCallback endCallback updateCoverage s =
  match updateCoverage with
  | Some updateCoverage =>
      let r := updateCoverage (m_jobs selectedTestRunData ++ m_jobs draftedTestRunData)
                 s3 in
      (r.1, match r.2 with inl e => inl e | inr _ => inr sequenceReport end)
  | None => (s3, inr sequenceReport)
  end.
Proof.
  cbv zeta.
  unfold ImpactAnalysisTestSequenceWrapper, mbind, M_bind, mret, M_ret,
    ExtractTestTargetNames, ConcatenateVectors.
  rewrite call_if_present_eq. unfold run_event, run_data.
  destruct updateCoverage as [f|].
  - destruct (bool_decide (included ≠ [])), (bool_decide (drafted ≠ []));
      rewrite ?testRunner_eq; cbn beta iota zeta; rewrite ?testRunner_eq;
      cbn beta iota zeta; rewrite ?call_if_present_eq; rewrite ?with_trace_nil;
      cbn beta iota zeta; cbn [fst snd];
      match goal with
      | |- context [f ?jobs ?st] => destruct (f jobs st) as [? [?|?]]
      end; reflexivity.
  - destruct (bool_decide (included ≠ [])), (bool_decide (drafted ≠ []));
      rewrite ?testRunner_eq; cbn beta iota zeta; rewrite ?testRunner_eq;
      cbn beta iota zeta; rewrite ?call_if_present_eq; rewrite ?with_trace_nil;
      reflexivity.
Qed.
End Wrapper.

Lemma instrumentedTestRun_eq this testTargetTimeout testsTargets globalTimeout s :
  instrumentedTestRun this testTargetTimeout testsTargets globalTimeout s =
    (with_trace (λ t, t ++ [EngineRun true testsTargets testTargetTimeout
                              globalTimeout]) s,
     inr (InstrumentedRun (m_testEngine this) (trace s) testsTargets testTargetTimeout
            globalTimeout)).
Proof. reflexivity. Qed.

Lemma regularTestRun_eq this testTargetTimeout testsTargets globalTimeout s :
  regularTestRun this testTargetTimeout testsTargets globalTimeout s =
    (with_trace (λ t, t ++ [EngineRun false testsTargets testTargetTimeout
                              globalTimeout]) s,
     inr (RegularRun (m_testEngine this) (trace s) testsTargets testTargetTimeout
            globalTimeout)).
Proof. reflexivity. Qed.

Lemma bind_eq {A B} (m : M A) (f : A → M B) s :
  (m ≫= f) s = match m s with
               | (s', inr a) => f a s'
               | (s', inl e) => (s', inl e)
               end.
Proof. reflexivity. Qed.

Lemma SelectCoveringTestTargets_eq this changeList prio s :
  SelectCoveringTestTargets this changeList prio s =
    (s, inr (m_testSelectorAndPrioritizer this (m_dynamicDependencyMap s) changeList prio,
             filter (λ t, t ∉ m_testSelectorAndPrioritizer this (m_dynamicDependencyMap s)
                                changeList prio)
                    (m_testTargets (m_dynamicDependencyMap s)))).
Proof. reflexivity. Qed.

(** The trace and the selection of an impact analysis sequence. *)
Lemma ImpactAnalysisTestSequence_trace_report this changeList prio mapPolicy
    testTargetTimeout globalTimeout startCallback endCallback s :
  let ddm := m_dynamicDependencyMap s in
  let drafted := GetNotCoveringTests ddm in
  let selected := m_testSelectorAndPrioritizer this ddm changeList prio in
  let byExcludeList :=
    SelectTestTargetsByExcludeList (m_instrumentedTestTargetExcludeList this) selected in
  let discarded :=
    filter (λ t, t ∉ drafted) (filter (λ t, t ∉ selected) (m_testTargets ddm)) in
  let instrumented := bool_decide (mapPolicy = Policy.Update) in
  let r := ImpactAnalysisTestSequence this changeList prio mapPolicy testTargetTimeout
             globalTimeout startCallback endCallback s in
  trace r.1 =
    trace s
    ++ optional_event startCallback
         (ImpactAnalysisSequenceStart
            {| Client.GetIncludedTestRuns := byExcludeList.1;
               Client.GetExcludedTestRuns := byExcludeList.2 |}
            discarded drafted)
    ++ run_event instrumented byExcludeList.1 testTargetTimeout globalTimeout
    ++ run_event instrumented drafted testTargetTimeout globalTimeout
    ++ optional_event endCallback SequenceEnd ∧
  (∀ report, r.2 = inr report →
     ClientReports.ia_selectedTestRuns report =
       {| Client.GetIncludedTestRuns := byExcludeList.1;
          Client.GetExcludedTestRuns := byExcludeList.2 |} ∧
     ClientReports.ia_discardedTestRuns report = discarded ∧
     ClientReports.ia_draftedTestRuns report = drafted) ∧
  (mapPolicy ≠ Policy.Update → ∃ report, r.2 = inr report).
Proof.
  intros ddm drafted selected byExcludeList discarded instrumented r.
  subst r. unfold ImpactAnalysisTestSequence.
  rewrite bind_eq. unfold get_map. cbn beta iota zeta.
  rewrite bind_eq, SelectCoveringTestTargets_eq. cbn beta iota zeta. cbn [fst snd].
  fold ddm. fold drafted. fold selected. fold byExcludeList. fold discarded.
  subst instrumented. case_bool_decide as Hpolicy.
  - rewrite (ImpactAnalysisTestSequenceWrapper_eq true testTargetTimeout
               (InstrumentedRun (m_testEngine this)))
      by apply instrumentedTestRun_eq.
    cbv zeta. cbn [fst snd]. rewrite updateCoverage_trace. simpl.
    rewrite <- !app_assoc. split_and!; [done| |done].
    intros report. destruct (updateCoverage _ _ _).2; [done|]. by intros [= <-].
  - rewrite (ImpactAnalysisTestSequenceWrapper_eq false testTargetTimeout
               (RegularRun (m_testEngine this)))
      by apply regularTestRun_eq.
    cbv zeta. simpl. rewrite <- !app_assoc. split_and!; [done| |eauto].
    by intros report [= <-].
Qed.

(** The trace of a safe impact analysis sequence. *)
Lemma SafeImpactAnalysisTestSequence_trace this changeList prio
    testTargetTimeout globalTimeout startCallback endCallback s :
  let ddm := m_dynamicDependencyMap s in
  let drafted := GetNotCoveringTests ddm in
  let selected := m_testSelectorAndPrioritizer this ddm changeList prio in
  let selectedBy :=
    SelectTestTargetsByExcludeList (m_instrumentedTestTargetExcludeList this) selected in
  let discardedBy :=
    SelectTestTargetsByExcludeList (m_regularTestTargetExcludeList this)
      (filter (λ t, t ∉ selected) (m_testTargets ddm)) in
  let start :=
    optional_event startCallback
      (SafeImpactAnalysisSequenceStart
         {| Client.GetIncludedTestRuns := selectedBy.1;
            Client.GetExcludedTestRuns := selectedBy.2 |}
         {| Client.GetIncludedTestRuns := discardedBy.1;
            Client.GetExcludedTestRuns := discardedBy.2 |}
         drafted) in
  let selectedTestRunData :=
    run_data selectedBy.1
      (InstrumentedRun (m_testEngine this) (trace s ++ start) selectedBy.1
         testTargetTimeout globalTimeout) in
  let timeout1 :=
    carried_timeout globalTimeout selectedBy.1 (m_duration selectedTestRunData)
      globalTimeout in
  let selectedRun := run_event true selectedBy.1 testTargetTimeout globalTimeout in
  let discardedTestRunData :=
    run_data discardedBy.1
      (RegularRun (m_testEngine this) (trace s ++ start ++ selectedRun) discardedBy.1
         testTargetTimeout timeout1) in
  let timeout2 :=
    carried_timeout globalTimeout discardedBy.1
      (m_duration selectedTestRunData + m_duration discardedTestRunData) timeout1 in
  trace (SafeImpactAnalysisTestSequence this changeList prio testTargetTimeout
           globalTimeout startCallback endCallback s).1 =
    trace s ++ start ++ selectedRun
    ++ run_event false discardedBy.1 testTargetTimeout timeout1
    ++ run_event true drafted testTargetTimeout timeout2
    ++ optional_event endCallback SequenceEnd.
Proof.
  intros ddm drafted selected selectedBy discardedBy start selectedTestRunData
    timeout1 selectedRun discardedTestRunData timeout2.
  unfold SafeImpactAnalysisTestSequence.
  rewrite bind_eq. unfold get_map. cbn beta iota zeta.
  rewrite bind_eq, SelectCoveringTestTargets_eq. cbn beta iota zeta. cbn [fst snd].
  fold ddm. fold drafted. fold selected. fold selectedBy. fold discardedBy.
  unfold ExtractTestTargetNames.
  rewrite bind_eq, call_if_present_eq. fold start.
  subst selectedTestRunData timeout1 selectedRun discardedTestRunData timeout2.
  unfold carried_timeout, run_event, run_data.
  destruct (bool_decide (selectedBy.1 ≠ [])), (bool_decide (discardedBy.1 ≠ [])),
    (bool_decide (drafted ≠ []));
    repeat (rewrite bind_eq; cbn beta iota zeta;
            rewrite ?instrumentedTestRun_eq, ?regularTestRun_eq, ?call_if_present_eq;
            unfold mret, M_ret; cbn beta iota zeta; cbn [fst snd]);
    match goal with
    | |- context [updateCoverage ?t ?jobs ?st] =>
        pose proof (updateCoverage_trace t jobs st) as Htrace;
        destruct (updateCoverage t jobs st) as [? [?|?]]
    end; simpl in *; rewrite Htrace, <- ?app_assoc; simpl; rewrite ?app_nil_r;
    reflexivity.
Qed.

Lemma remove_targets_of_cleared jobs ddm :
  remove_targets_of jobs (ClearAllSourceCoverage ddm) = ClearAllSourceCoverage ddm.
Proof.
  induction jobs as [|job jobs IH]; [done|].
  unfold remove_targets_of in *. simpl. rewrite <- IH at 2. by f_equal.
Qed.

(** What a seeded sequence leaves behind. *)
Lemma SeededTestSequence_state this testTargetTimeout globalTimeout
    startCallback endCallback s
    (included excluded : list TestTargetPtr) (start : list Event)
    (jobs : list TestEngineInstrumentedRun)
    (r : State * (Exception + ClientReports.SeedSequenceReport)) :
  included =
    filter (λ t, IsTestTargetFullyExcluded (m_instrumentedTestTargetExcludeList this) t
                 = false) (m_testTargets (m_dynamicDependencyMap s)) →
  excluded =
    filter (λ t, IsTestTargetFullyExcluded (m_instrumentedTestTargetExcludeList this) t
                 = true) (m_testTargets (m_dynamicDependencyMap s)) →
  start =
    optional_event startCallback
      (SequenceStart {| Client.GetIncludedTestRuns := included;
                        Client.GetExcludedTestRuns := excluded |}) →
  jobs =
    outcome_jobs (InstrumentedRun (m_testEngine this) (trace s ++ start) included
                    testTargetTimeout globalTimeout) →
  r = SeededTestSequence this testTargetTimeout globalTimeout startCallback
        endCallback s →
  ∃ s2,
    m_dynamicDependencyMap s2 = ClearAllSourceCoverage (m_dynamicDependencyMap s) ∧
    files s2 = delete (m_sparTiaFile this) (files s) ∧
    writable s2 = writable s ∧
    trace s2 = trace s ++ start
               ++ [EngineRun true included testTargetTimeout globalTimeout]
               ++ optional_event endCallback SequenceEnd ∧
    let u := UpdateAndSerializeDynamicDependencyMap jobs
               (m_failedTestCoveragePolicy this) (m_integrationFailurePolicy this)
               (m_repoRoot this) (m_sparTiaFile this) s2 in
    m_dynamicDependencyMap r.1 = m_dynamicDependencyMap u.1 ∧
    files r.1 = files u.1 ∧
    trace r.1 = trace s2 ∧
    (∀ e, r.2 = inl e ↔ u.2 = inl e).
Proof.
  intros Hincluded Hexcluded Hstart Hjobs ->.
  unfold SeededTestSequence.
  rewrite bind_eq. unfold get_map. cbn beta iota zeta.
  rewrite <- Hincluded, <- Hexcluded. unfold ExtractTestTargetNames.
  rewrite bind_eq, call_if_present_eq. rewrite <- Hstart.
  rewrite bind_eq, instrumentedTestRun_eq. cbn beta iota zeta.
  rewrite bind_eq, call_if_present_eq.
  rewrite bind_eq. unfold ClearDynamicDependencyMapAndRemoveExistingFile.
  rewrite bind_eq. unfold modify_map, DeleteFile. cbn beta iota zeta.
  rewrite bind_eq. unfold updateCoverage. rewrite bind_eq.
  cbn [trace with_trace]. rewrite <- Hjobs.
  match goal with
  | |- context [UpdateAndSerializeDynamicDependencyMap _ _ _ _ _ ?st] => exists st
  end.
  do 3 (split; [done|]). split; [simpl; by rewrite <- !app_assoc|].
  cbv zeta.
  match goal with
  | |- context [UpdateAndSerializeDynamicDependencyMap ?j ?a ?b ?c ?d ?st] =>
      pose proof (UpdateAndSerializeDynamicDependencyMap_trace j a b c d st) as Htrace;
      destruct (UpdateAndSerializeDynamicDependencyMap j a b c d st) as [s3 [e|updated]]
  end; simpl in *; split_and!; try done; intros ?; split; congruence.
Qed.

End SequenceFacts.

Module Sequences.
Import ConsolidationFacts SequenceFacts.

Ltac case_empty l :=
  destruct (decide (GetNumSources l = 0));
  [rewrite !(bool_decide_eq_true_2 (GetNumSources l = 0)) by done
  |rewrite !(bool_decide_eq_false_2 (GetNumSources l = 0)) by done].

Ltac state_simpl :=
  cbn [fst snd negb andb m_dynamicDependencyMap files trace log writable
       with_map with_log with_files with_trace].

(** C6, as amended.  A seeded sequence runs the test targets that are not
    fully excluded in one instrumented run, then clears the dependency map
    and deletes the persisted file, and only then ingests the coverage of
    the jobs of that run.  When their consolidation succeeds with a list
    that is not empty, the map is rebuilt from that list and, the write
    succeeding, persisted; otherwise the map stays cleared and no file is
    left.  Either way, whatever the map records stems from a job of this
    run. *)
Theorem seeded_sequence_clears_then_rebuilds
    (this : NativeRuntime) (testTargetTimeout globalTimeout : option Z)
    (startCallback endCallback : bool) (s : State) :
  let ddm := m_dynamicDependencyMap s in
  let included :=
    filter (λ t, IsTestTargetFullyExcluded (m_instrumentedTestTargetExcludeList this) t
                 = false) (m_testTargets ddm) in
  let excluded :=
    filter (λ t, IsTestTargetFullyExcluded (m_instrumentedTestTargetExcludeList this) t
                 = true) (m_testTargets ddm) in
  let start :=
    optional_event startCallback
      (SequenceStart {| Client.GetIncludedTestRuns := included;
                        Client.GetExcludedTestRuns := excluded |}) in
  let jobs :=
    outcome_jobs (InstrumentedRun (m_testEngine this) (trace s ++ start) included
                    testTargetTimeout globalTimeout) in
  let l := consolidated_list (m_failedTestCoveragePolicy this) (m_repoRoot this) jobs in
  let consolidated :=
    bool_decide (List.find passed_without_coverage jobs = None)
    && negb (bool_decide (GetNumSources l = 0)) in
  let r := SeededTestSequence this testTargetTimeout globalTimeout startCallback
             endCallback s in
  trace r.1 =
    trace s ++ start ++ [EngineRun true included testTargetTimeout globalTimeout]
    ++ optional_event endCallback SequenceEnd ∧
  m_dynamicDependencyMap r.1 =
    (if consolidated
     then ReplaceSourceCoverage l (ClearAllSourceCoverage ddm)
     else ClearAllSourceCoverage ddm) ∧
  files r.1 =
    (if consolidated && writable s
     then <[m_sparTiaFile this := ExportSourceCoverage (m_dynamicDependencyMap r.1)]>
            (delete (m_sparTiaFile this) (files s))
     else delete (m_sparTiaFile this) (files s)) ∧
  (∀ source t,
     covers (m_sourceDependencyMap (m_dynamicDependencyMap r.1)) source t →
     ∃ job, job ∈ jobs ∧ GetTestTarget job = t ∧
            m_repoRoot this ++ source ∈
              ingested_sources (m_failedTestCoveragePolicy this) job).
Proof.
  intros ddm included excluded start jobs l consolidated r.
  destruct (SeededTestSequence_state this testTargetTimeout globalTimeout startCallback
              endCallback s included excluded start jobs r)
    as (s2 & Hmap & Hfiles & Hwritable & Htrace & Hr); [done..|].
  cbv zeta in Hr. fold ddm in Hmap.
  destruct Hr as (Hrmap & Hrfiles & Hrtrace & _).
  clearbody r jobs.
  rewrite UpdateAndSerializeDynamicDependencyMap_eq in Hrmap, Hrfiles.
  fold l in Hrmap, Hrfiles. rewrite Hwritable in Hrmap, Hrfiles.
  assert (∀ source t,
            covers (m_sourceDependencyMap
                      (ReplaceSourceCoverage l (ClearAllSourceCoverage ddm))) source t →
            ∃ job, job ∈ jobs ∧ GetTestTarget job = t ∧
                   m_repoRoot this ++ source ∈
                     ingested_sources (m_failedTestCoveragePolicy this) job) as Hbuilt.
  { intros source t Hcovers.
    apply covers_ReplaceSourceCoverage in Hcovers as [Hprior|(c & Hc & <- & Ht)];
      [by apply not_covers_empty in Hprior|].
    apply elem_of_consolidated_list in Hc.
    destruct (proj1 (covers_aggregated_coverage (m_failedTestCoveragePolicy this) jobs ∅
                       (m_repoRoot this ++ GetPath c) t))
      as [Hempty|(job & Hjob & Htarget & Hsource)]; [by eexists| |eauto].
    by apply not_covers_empty in Hempty. }
  assert (∀ source t,
            covers (m_sourceDependencyMap (ClearAllSourceCoverage ddm)) source t →
            ∃ job, job ∈ jobs ∧ GetTestTarget job = t ∧
                   m_repoRoot this ++ source ∈
                     ingested_sources (m_failedTestCoveragePolicy this) job) as Hcleared.
  { intros source t Hcovers. by apply not_covers_empty in Hcovers. }
  rewrite Hrtrace, Htrace. split; [done|].
  subst consolidated.
  destruct (List.find passed_without_coverage jobs) eqn:Hfind; cbv zeta in Hrmap, Hrfiles.
  { rewrite !(bool_decide_eq_false_2 (Some _ = None)) by done. cbn [andb].
    assert (m_dynamicDependencyMap r.1 = ClearAllSourceCoverage ddm) as ->.
    { rewrite Hrmap. case_bool_decide; state_simpl;
        by rewrite Hmap, remove_targets_of_cleared. }
    split_and!; [done| |done].
    rewrite Hrfiles, <- Hfiles. by case_bool_decide. }
  rewrite !(bool_decide_eq_true_2 (None = None)) by done. cbn [andb].
  destruct (decide (GetNumSources l = 0)) as [Hempty|Hsome].
  { rewrite !(bool_decide_eq_true_2 (GetNumSources l = 0)) in * by done.
    cbn [negb andb].
    assert (m_dynamicDependencyMap r.1 = ClearAllSourceCoverage ddm) as ->.
    { rewrite Hrmap. state_simpl. by rewrite Hmap, remove_targets_of_cleared. }
    split_and!; [done| |done]. by rewrite Hrfiles, <- Hfiles. }
  rewrite !(bool_decide_eq_false_2 (GetNumSources l = 0)) in * by done.
  cbn [negb andb].
  assert (m_dynamicDependencyMap r.1 =
            ReplaceSourceCoverage l (ClearAllSourceCoverage ddm)) as Hfinal.
  { rewrite Hrmap. destruct (writable s); [|case_bool_decide]; state_simpl;
      by rewrite Hmap, remove_targets_of_cleared. }
  rewrite Hfinal. split_and!; [done| |done].
  rewrite Hrfiles. destruct (writable s); state_simpl.
  - by rewrite Hfiles, Hmap, remove_targets_of_cleared.
  - rewrite <- Hfiles. by case_bool_decide.
Qed.

Lemma elem_of_run_event instrumented (testTargets : list TestTargetPtr)
    testTargetTimeout globalTimeout :
  testTargets ≠ [] →
  EngineRun instrumented testTargets testTargetTimeout globalTimeout
    ∈ run_event instrumented testTargets testTargetTimeout globalTimeout.
Proof. intros Hne. unfold run_event. rewrite bool_decide_eq_true_2 by done. left. Qed.

(** C9. In an impact analysis sequence and in a safe one, the drafted
    targets are the test targets that cover no source, as
    [GetNotCoveringTests] lists them: no exclude list is consulted, and the
    drafted run is given all of them.  So a test target without coverage
    is run whether or not it is fully excluded, whereas a selected target
    that is fully excluded is not among those the selected run is given. *)
Theorem drafted_targets_bypass_exclude_list
    (this : NativeRuntime) (changeList : ChangeList) (prio : Policy.TestPrioritization)
    (testTargetTimeout globalTimeout : option Z) (startCallback endCallback : bool)
    (s : State) :
  let ddm := m_dynamicDependencyMap s in
  let drafted := GetNotCoveringTests ddm in
  let selected := m_testSelectorAndPrioritizer this ddm changeList prio in
  let selectedBy :=
    SelectTestTargetsByExcludeList (m_instrumentedTestTargetExcludeList this) selected in
  (∀ t, t ∈ drafted ↔ t ∈ m_testTargets ddm ∧ GetCoveredSources ddm t = ∅) ∧
  (∀ t, t ∈ m_testTargets ddm → GetCoveredSources ddm t = ∅ →
     (∀ mapPolicy, ∃ events,
        trace (ImpactAnalysisTestSequence this changeList prio mapPolicy
                 testTargetTimeout globalTimeout startCallback endCallback s).1
          = trace s ++ events ∧
        EngineRun (bool_decide (mapPolicy = Policy.Update)) drafted testTargetTimeout
          globalTimeout ∈ events ∧
        t ∈ drafted) ∧
     (∃ events timeout,
        trace (SafeImpactAnalysisTestSequence this changeList prio testTargetTimeout
                 globalTimeout startCallback endCallback s).1
          = trace s ++ events ∧
        EngineRun true drafted testTargetTimeout timeout ∈ events ∧
        t ∈ drafted)) ∧
  (∀ t, t ∈ selectedBy.1 ↔
        t ∈ selected ∧
        IsTestTargetFullyExcluded (m_instrumentedTestTargetExcludeList this) t = false) ∧
  (∀ mapPolicy, ∃ before after,
     trace (ImpactAnalysisTestSequence this changeList prio mapPolicy
              testTargetTimeout globalTimeout startCallback endCallback s).1
       = trace s ++ before
         ++ run_event (bool_decide (mapPolicy = Policy.Update)) selectedBy.1
              testTargetTimeout globalTimeout
         ++ after).
Proof.
  intros ddm drafted selected selectedBy.
  assert (∀ t, t ∈ drafted ↔ t ∈ m_testTargets ddm ∧ GetCoveredSources ddm t = ∅)
    as Hdrafted.
  { intros t. unfold drafted, GetNotCoveringTests. rewrite list_elem_of_filter. tauto. }
  split_and!.
  - exact Hdrafted.
  - intros t Ht Hnone.
    assert (t ∈ drafted) as Hin by (by apply Hdrafted).
    assert (drafted ≠ []) as Hne by (intros Heq; rewrite Heq in Hin; by apply elem_of_nil in Hin).
    split.
    + intros mapPolicy.
      destruct (ImpactAnalysisTestSequence_trace_report this changeList prio mapPolicy
                  testTargetTimeout globalTimeout startCallback endCallback s)
        as (Htrace & _).
      eexists. split; [exact Htrace|]. split; [|done].
      rewrite !elem_of_app. right. right. left. by apply elem_of_run_event.
    + pose proof (SafeImpactAnalysisTestSequence_trace this changeList prio
                    testTargetTimeout globalTimeout startCallback endCallback s)
        as Htrace.
      cbv zeta in Htrace. eexists _, _. split; [exact Htrace|]. split; [|done].
      rewrite !elem_of_app. right. right. right. left. by apply elem_of_run_event.
  - intros t. unfold selectedBy, SelectTestTargetsByExcludeList. simpl.
    rewrite list_elem_of_filter. tauto.
  - intros mapPolicy.
    destruct (ImpactAnalysisTestSequence_trace_report this changeList prio mapPolicy
                testTargetTimeout globalTimeout startCallback endCallback s)
      as (Htrace & _).
    eexists _, _. exact Htrace.
Qed.

(** C10. The discarded test targets an impact analysis sequence hands to
    the start callback and reports are those neither selected nor
    drafted: no test target is both discarded and drafted. *)
Theorem discarded_targets_disjoint_from_drafted
    (this : NativeRuntime) (changeList : ChangeList) (prio : Policy.TestPrioritization)
    (mapPolicy : Policy.DynamicDependencyMap)
    (testTargetTimeout globalTimeout : option Z) (startCallback endCallback : bool)
    (s : State) :
  let ddm := m_dynamicDependencyMap s in
  let drafted := GetNotCoveringTests ddm in
  let selected := m_testSelectorAndPrioritizer this ddm changeList prio in
  let r := ImpactAnalysisTestSequence this changeList prio mapPolicy testTargetTimeout
             globalTimeout startCallback endCallback s in
  ∃ selectedTests discarded,
    (∃ events,
       trace r.1 =
         trace s
         ++ optional_event startCallback
              (ImpactAnalysisSequenceStart selectedTests discarded drafted)
         ++ events) ∧
    (∀ report, r.2 = inr report →
       ClientReports.ia_discardedTestRuns report = discarded ∧
       ClientReports.ia_draftedTestRuns report = drafted) ∧
    (mapPolicy ≠ Policy.Update → ∃ report, r.2 = inr report) ∧
    (∀ t, t ∈ discarded ↔ t ∈ m_testTargets ddm ∧ (t ∉ selected) ∧ (t ∉ drafted)) ∧
    (∀ t, t ∈ discarded → t ∉ drafted).
Proof.
  intros ddm drafted selected r.
  destruct (ImpactAnalysisTestSequence_trace_report this changeList prio mapPolicy
              testTargetTimeout globalTimeout startCallback endCallback s)
    as (Htrace & Hreport & Hreturns).
  eexists _, _. split_and!.
  - eexists. exact Htrace.
  - intros report Hr. by destruct (Hreport report Hr) as (_ & ? & ?).
  - exact Hreturns.
  - intros t. rewrite !list_elem_of_filter. fold ddm drafted selected. tauto.
  - intros t. rewrite !list_elem_of_filter. fold drafted. tauto.
Qed.

(** In an impact analysis sequence every run is given the global timeout
    the sequence was called with. *)
Lemma ImpactAnalysisTestSequence_timeout_not_carried
    this changeList prio mapPolicy testTargetTimeout globalTimeout
    startCallback endCallback s :
  ∃ events,
    trace (ImpactAnalysisTestSequence this changeList prio mapPolicy testTargetTimeout
             globalTimeout startCallback endCallback s).1 = trace s ++ events ∧
    ∀ instrumented testTargets targetTimeout timeout,
      EngineRun instrumented testTargets targetTimeout timeout ∈ events →
      timeout = globalTimeout.
Proof.
  destruct (ImpactAnalysisTestSequence_trace_report this changeList prio mapPolicy
              testTargetTimeout globalTimeout startCallback endCallback s)
    as (Htrace & _).
  eexists. split; [exact Htrace|].
  intros instrumented testTargets targetTimeout timeout.
  unfold optional_event, run_event. rewrite !elem_of_app.
  repeat case_bool_decide; destruct startCallback, endCallback;
    rewrite ?list_elem_of_singleton, ?elem_of_nil; naive_solver.
Qed.

Lemma carried_timeout_remaining_budget {TestJob} (globalTimeout prior : Z)
    (testTargets : list TestTargetPtr) (outcome : EngineOutcome TestJob) :
  carried_timeout (Some globalTimeout) testTargets
    (prior + m_duration (run_data testTargets outcome))
    (remaining_budget (Some globalTimeout) prior) =
  remaining_budget (Some globalTimeout)
    (prior + m_duration (run_data testTargets outcome)).
Proof.
  unfold carried_timeout, remaining_budget, run_data. simpl.
  case_bool_decide; simpl.
  - f_equal. destruct (Z.ltb_spec (prior + outcome_elapsedMs outcome) globalTimeout); lia.
  - by rewrite Z.add_0_r.
Qed.

Lemma carried_timeout_first {TestJob} (globalTimeout : Z)
    (testTargets : list TestTargetPtr) (outcome : EngineOutcome TestJob) :
  (0 ≤ globalTimeout)%Z →
  carried_timeout (Some globalTimeout) testTargets
    (m_duration (run_data testTargets outcome)) (Some globalTimeout) =
  remaining_budget (Some globalTimeout) (m_duration (run_data testTargets outcome)).
Proof.
  intros Hpos. unfold carried_timeout, remaining_budget, run_data. simpl.
  case_bool_decide; simpl; f_equal; [|lia].
  destruct (Z.ltb_spec (outcome_elapsedMs outcome) globalTimeout); lia.
Qed.

(** In a safe impact analysis sequence with a global timeout, each run is
    given what the time spent in the runs before it leaves of that
    timeout. *)
Lemma SafeImpactAnalysisTestSequence_timeout_carried
    this changeList prio testTargetTimeout (globalTimeout : Z)
    startCallback endCallback s :
  (0 ≤ globalTimeout)%Z →
  ∃ start selectedBy discardedBy (selectedDuration discardedDuration : Z),
    trace (SafeImpactAnalysisTestSequence this changeList prio testTargetTimeout
             (Some globalTimeout) startCallback endCallback s).1 =
      trace s ++ start
      ++ run_event true selectedBy testTargetTimeout
           (remaining_budget (Some globalTimeout) 0)
      ++ run_event false discardedBy testTargetTimeout
           (remaining_budget (Some globalTimeout) selectedDuration)
      ++ run_event true (GetNotCoveringTests (m_dynamicDependencyMap s))
           testTargetTimeout
           (remaining_budget (Some globalTimeout)
              (selectedDuration + discardedDuration))
      ++ optional_event endCallback SequenceEnd.
Proof.
  intros Hpos.
  pose proof (SafeImpactAnalysisTestSequence_trace this changeList prio
                testTargetTimeout (Some globalTimeout) startCallback endCallback s)
    as Htrace.
  cbv zeta in Htrace.
  assert (Some globalTimeout = remaining_budget (Some globalTimeout) 0) as Hinit.
  { unfold remaining_budget. simpl. f_equal. lia. }
  rewrite carried_timeout_first in Htrace by done.
  rewrite carried_timeout_remaining_budget in Htrace.
  rewrite <- Hinit.
  eexists _, _, _, _, _. exact Htrace.
Qed.

End Sequences.

Module SequenceWitness.
Import Scenario Sequences.

(** C1 fails on the impact analysis sequence.  With a global timeout of
    1000 ms and a selected run that takes 900 ms, the drafted run should be
    given the remaining 100 ms; it is given the 1000 ms again.  The safe
    sequence, on the same input, carries the remainder over. *)
Lemma impact_analysis_drafted_run_given_whole_timeout :
  trace (ImpactAnalysisTestSequence (runtime engine Policy.Keep) changeList
           Policy.NoPrioritization Policy.Update None (Some 1000%Z) false false
           seeded_state).1
    = [EngineRun true ["T1"] None (Some 1000%Z);
       EngineRun true ["T3"] None (Some 1000%Z)] ∧
  ClientReports.GetDuration <$>
    (ClientReports.ia_selectedTestRunReport <$>
       match (ImpactAnalysisTestSequence (runtime engine Policy.Keep) changeList
                Policy.NoPrioritization Policy.Update None (Some 1000%Z) false false
                seeded_state).2 with
       | inr report => Some report
       | inl _ => None
       end) = Some 900%Z ∧
  remaining_budget (Some 1000%Z) 900 = Some 100%Z ∧
  trace (SafeImpactAnalysisTestSequence (runtime engine Policy.Keep) changeList
           Policy.NoPrioritization None (Some 1000%Z) false false seeded_state).1
    = [EngineRun true ["T1"] None (Some 1000%Z);
       EngineRun false ["T2"] None (Some 100%Z);
       EngineRun true ["T3"] None (Some 50%Z)].
Proof. split_and!; vm_compute; reflexivity. Qed.

(** C6 fails as stated.  A seeded sequence all of whose tests fail, under
    [Discard], returns its report, and leaves the persisted file deleted
    and nothing written in its place. *)
Lemma seeded_sequence_without_coverage_persists_nothing :
  (∃ report,
     (SeededTestSequence (runtime failing_engine Policy.Discard) None None false false
        seeded_state).2 = inr report) ∧
  trace (SeededTestSequence (runtime failing_engine Policy.Discard) None None false
           false seeded_state).1 = [EngineRun true ["T1"; "T2"] None None] ∧
  files seeded_state !! sparTiaFile = Some (ExportSourceCoverage seeded_map) ∧
  files (SeededTestSequence (runtime failing_engine Policy.Discard) None None false
           false seeded_state).1 !! sparTiaFile = None ∧
  m_sourceDependencyMap
    (m_dynamicDependencyMap
       (SeededTestSequence (runtime failing_engine Policy.Discard) None None false
          false seeded_state).1) = ∅.
Proof.
  split_and!; [eexists| | | |]; vm_compute; reflexivity.
Qed.

Lemma seeded_sequence_map_from_run_jobs :
  ∃ job,
    job ∈ outcome_jobs (InstrumentedRun engine [] ["T1"; "T2"] None None) ∧
    GetTestTarget job = "T2" ∧
    repoRoot ++ ["a.cpp"] ∈ ingested_sources Policy.Keep job.
Proof.
  pose proof (seeded_sequence_clears_then_rebuilds (runtime engine Policy.Keep)
                None None false false seeded_state) as Hthm.
  cbv zeta in Hthm. destruct Hthm as (_ & _ & _ & Hbuilt).
  apply (Hbuilt ["a.cpp"] "T2").
  exists {["T1"; "T2"]}. split; [vm_compute; reflexivity|].
  apply elem_of_union. right. by apply elem_of_singleton.
Defined.

Lemma excluded_T3_without_coverage_is_run :
  (∀ mapPolicy, ∃ events,
     trace (ImpactAnalysisTestSequence (runtime engine Policy.Keep) changeList
              Policy.NoPrioritization mapPolicy None None false false seeded_state).1
       = trace seeded_state ++ events ∧
     EngineRun (bool_decide (mapPolicy = Policy.Update))
       (GetNotCoveringTests (m_dynamicDependencyMap seeded_state)) None None ∈ events ∧
     "T3" ∈ GetNotCoveringTests (m_dynamicDependencyMap seeded_state)) ∧
  IsTestTargetFullyExcluded
    (m_instrumentedTestTargetExcludeList (runtime engine Policy.Keep)) "T3" = true ∧
  IsTestTargetFullyExcluded
    (m_regularTestTargetExcludeList (runtime engine Policy.Keep)) "T3" = true.
Proof.
  split; [|split; vm_compute; reflexivity].
  pose proof (drafted_targets_bypass_exclude_list (runtime engine Policy.Keep)
                changeList Policy.NoPrioritization None None false false seeded_state)
    as Hthm.
  cbv zeta in Hthm. destruct Hthm as (_ & Hrun & _).
  apply (Hrun "T3").
  - right; right; left.
  - vm_compute. reflexivity.
Defined.

Lemma discarded_T2_not_drafted :
  ∃ selectedTests discarded,
    (∃ events,
       trace (ImpactAnalysisTestSequence (runtime engine Policy.Keep) changeList
                Policy.NoPrioritization Policy.DiscardMap None None true false
                seeded_state).1 =
         trace seeded_state
         ++ optional_event true
              (ImpactAnalysisSequenceStart selectedTests discarded
                 (GetNotCoveringTests (m_dynamicDependencyMap seeded_state)))
         ++ events) ∧
    (∃ report,
       (ImpactAnalysisTestSequence (runtime engine Policy.Keep) changeList
          Policy.NoPrioritization Policy.DiscardMap None None true false
          seeded_state).2 = inr report) ∧
    "T2" ∈ discarded ∧
    "T2" ∉ GetNotCoveringTests (m_dynamicDependencyMap seeded_state).
Proof.
  pose proof (discarded_targets_disjoint_from_drafted (runtime engine Policy.Keep)
                changeList Policy.NoPrioritization Policy.DiscardMap None None true false
                seeded_state) as Hthm.
  cbv zeta in Hthm.
  destruct Hthm as (selectedTests & discarded & Htrace & _ & Hreturns & Hiff & Hdisjoint).
  assert ("T2" ∈ discarded) as Hin.
  { apply Hiff. split_and!.
    - right; left.
    - vm_compute. intros Hin. apply list_elem_of_singleton in Hin. discriminate Hin.
    - vm_compute. intros Hin. apply list_elem_of_singleton in Hin. discriminate Hin. }
  exists selectedTests, discarded. split_and!.
  - exact Htrace.
  - apply Hreturns. discriminate.
  - exact Hin.
  - apply Hdisjoint, Hin.
Defined.

End SequenceWitness.


(** * Further properties *)

(** ** The target list *)

Module TargetListInvariant.
Import TargetListH TargetListFacts.

Section Invariant.
Context {Target : Type} `{TargetType Target}.

Lemma GetName_MakeTarget_fmap (descriptors : list Descriptor) :
  GetName <$> (MakeTarget <$> descriptors) = m_name <$> descriptors.
Proof.
  rewrite <- list_fmap_compose. apply list_fmap_ext.
  intros ? d _. apply GetName_MakeTarget.
Qed.

Lemma strictly_sorted_by_name (l : list Descriptor) :
  StronglySorted string_lt (m_name <$> l) →
  StronglySorted (λ a b, string_lt (m_name a) (m_name b)) l.
Proof.
  induction l as [|d l IH]; csimpl; intros Hs; [constructor|].
  apply StronglySorted_inv in Hs as [Hl Hd]. constructor; [by apply IH|].
  by rewrite Forall_fmap in Hd.
Qed.

Lemma GetTarget_cases (tl : TargetList Target) (name : string) :
  StronglySorted string_lt (GetName <$> m_targets tl) →
  (∃ i t, m_targets tl !! i = Some t ∧ GetName t = name ∧
          GetTarget tl name = Some i) ∨
  ((name ∉ GetName <$> m_targets tl) ∧ GetTarget tl name = None).
Proof.
  intros Hs. destruct (equal_range_sorted _ name Hs) as [Hfound Habsent].
  destruct (decide (name ∈ GetName <$> m_targets tl)) as [Hin|Hnin].
  - left. apply list_elem_of_fmap in Hin as (t & -> & Ht).
    apply list_elem_of_lookup in Ht as [i Hi]. exists i, t.
    split_and!; [done..|]. unfold GetTarget. rewrite (Hfound i t Hi eq_refl).
    simpl. case_decide; [done|lia].
  - right. split; [done|]. unfold GetTarget. case_decide as Hr; [|done].
    exfalso. apply Hr, Habsent. intros t Ht Heq. apply Hnin.
    apply list_elem_of_fmap. by exists t.
Qed.

(** X1. A target list that its constructor delivers holds as many
    targets as there were descriptors, at least one, and their names are
    strictly increasing along the vector, hence pairwise distinct. *)
Theorem TargetList_ctor_sorted_unique (descriptors : list Descriptor)
    (tl : TargetList Target) :
  TargetList_ctor descriptors = inr tl →
  StronglySorted string_lt (GetName <$> GetTargets tl) ∧
  NoDup (GetName <$> GetTargets tl) ∧
  GetNumTargets tl = length descriptors ∧
  0 < GetNumTargets tl.
Proof.
  intros Hctor.
  destruct (TargetList_ctor_cases descriptors)
    as [[_ Hthrow]|[(_ & _ & Hthrow)|(Hne & _ & sorted & Hperm & Hsorted & Hok)]];
    [congruence..|].
  rewrite Hok in Hctor. injection Hctor as <-.
  unfold GetTargets, GetNumTargets. cbn [m_targets].
  rewrite GetName_MakeTarget_fmap, length_fmap, (Permutation_length Hperm).
  split_and!; [done|by apply strictly_sorted_NoDup|done|].
  destruct descriptors; [done|simpl; lia].
Qed.

(** X2. The constructor does not depend on the order in which the
    descriptors are handed over: two vectors with the same descriptors
    give the same exception or the same target list. *)
Theorem TargetList_ctor_order_insensitive (descriptors descriptors' : list Descriptor) :
  descriptors ≡ₚ descriptors' →
  TargetList_ctor descriptors = TargetList_ctor descriptors'.
Proof.
  intros Hperm.
  destruct (TargetList_ctor_cases descriptors)
    as [[-> ->]|[(Hne & Hdup & ->)|(Hne & Hnd & sorted & Hs & Hsorted & ->)]].
  - apply Permutation_nil_l in Hperm. by subst.
  - destruct (TargetList_ctor_cases descriptors')
      as [[-> _]|[(_ & _ & ->)|(_ & Hnd' & _)]]; [|done|].
    + by apply Permutation_nil_r in Hperm.
    + exfalso. apply Hdup. by rewrite Hperm.
  - destruct (TargetList_ctor_cases descriptors')
      as [[-> _]|[(_ & Hdup' & _)|(_ & _ & sorted' & Hs' & Hsorted' & ->)]].
    + by apply Permutation_nil_r in Hperm.
    + exfalso. apply Hdup'. by rewrite <- Hperm.
    + assert (sorted = sorted') as ->; [|done].
      apply (StronglySorted_unique_strong
               (λ a b, string_lt (m_name a) (m_name b)));
        [|by apply strictly_sorted_by_name..|by rewrite Hs, Hs'].
      intros d1 d2 _ _ H12 H21.
      destruct (string_lt_irrefl _ (string_lt_trans _ _ _ H12 H21)).
Qed.

(** X3. On a target list whose names are strictly increasing,
    [GetTarget] returns a pointer exactly to a target of the queried
    name, never past the end; pointers are ordered as the names are;
    [HasTarget] tells whether the name is that of a target, and
    [GetTargetOrThrow] throws exactly when it is not. *)
Theorem GetTarget_sound_and_ordered (tl : TargetList Target) :
  StronglySorted string_lt (GetName <$> m_targets tl) →
  (∀ name i, GetTarget tl name = Some i ↔
             ∃ t, m_targets tl !! i = Some t ∧ GetName t = name) ∧
  (∀ name1 name2 i1 i2,
      GetTarget tl name1 = Some i1 → GetTarget tl name2 = Some i2 →
      (string_lt name1 name2 ↔ i1 < i2)) ∧
  (∀ name, HasTarget tl name = true ↔ name ∈ GetName <$> m_targets tl) ∧
  (∀ name, (∃ e, GetTargetOrThrow tl name = inl e) ↔
           name ∉ GetName <$> m_targets tl).
Proof.
  intros Hs.
  assert (∀ name i, GetTarget tl name = Some i ↔
                    ∃ t, m_targets tl !! i = Some t ∧ GetName t = name) as Hget.
  { intros name i. split.
    - intros Hi.
      destruct (GetTarget_cases tl name Hs) as [(j & t & Hj & Hname & Hgj)|[_ Hnone]];
        [|congruence].
      exists t. split; [|done]. congruence.
    - intros (t & Hi & Hname).
      destruct (GetTarget_cases tl name Hs) as [(j & t' & Hj & Hname' & Hgj)|[Hnin _]].
      + rewrite Hgj. f_equal.
        eapply (NoDup_lookup (GetName <$> m_targets tl) j i name).
        * by apply strictly_sorted_NoDup.
        * by rewrite list_lookup_fmap, Hj; simpl; rewrite Hname'.
        * by rewrite list_lookup_fmap, Hi; simpl; rewrite Hname.
      + exfalso. apply Hnin. apply list_elem_of_fmap. exists t. split; [done|].
        by eapply list_elem_of_lookup_2. }
  split_and!; [exact Hget|..].
  - intros name1 name2 i1 i2 [t1 [H1 Hn1]]%Hget [t2 [H2 Hn2]]%Hget.
    assert ((GetName <$> m_targets tl) !! i1 = Some name1) as Hl1
      by (by rewrite list_lookup_fmap, H1; simpl; rewrite Hn1).
    assert ((GetName <$> m_targets tl) !! i2 = Some name2) as Hl2
      by (by rewrite list_lookup_fmap, H2; simpl; rewrite Hn2).
    split.
    + intros Hlt. destruct (lt_eq_lt_dec i1 i2) as [[?| ->]|Hgt]; [done|..].
      * rewrite Hl1 in Hl2. injection Hl2 as ->.
        destruct (string_lt_irrefl _ Hlt).
      * pose proof (strictly_sorted_lookup _ _ _ _ _ Hs Hgt Hl2 Hl1) as Hlt'.
        destruct (string_lt_irrefl _ (string_lt_trans _ _ _ Hlt Hlt')).
    + intros Hlt. exact (strictly_sorted_lookup _ _ _ _ _ Hs Hlt Hl1 Hl2).
  - intros name. unfold HasTarget. rewrite bool_decide_eq_true.
    destruct (GetTarget_cases tl name Hs) as [(j & t & Hj & Hname & Hg)|[Hnin Hg]];
      rewrite Hg.
    + split; [|done]. intros _. apply list_elem_of_fmap. exists t. split; [done|].
      by eapply list_elem_of_lookup_2.
    + split; [done|]. intros Hin. by destruct (Hnin Hin).
  - intros name. unfold GetTargetOrThrow.
    destruct (GetTarget_cases tl name Hs) as [(j & t & Hj & Hname & Hg)|[Hnin Hg]];
      rewrite Hg.
    + split; [by intros [? ?]|]. intros Hnin. exfalso. apply Hnin.
      apply list_elem_of_fmap. exists t. split; [done|].
      by eapply list_elem_of_lookup_2.
    + split; [done|]. intros _. by eexists.
Qed.

End Invariant.
End TargetListInvariant.

Module TargetListInvariantWitness.
Import TargetListH TargetListInvariant.

Lemma TargetList_ctor_sorted_unique_T3_T1_T2 :
  StronglySorted string_lt
    (GetName <$> GetTargets {| m_targets := MakeTarget <$> [T1; T2; T3] |}) ∧
  NoDup (GetName <$> GetTargets {| m_targets := MakeTarget <$> [T1; T2; T3] |}) ∧
  GetNumTargets {| m_targets := MakeTarget <$> [T1; T2; T3] |} = length [T3; T1; T2] ∧
  0 < GetNumTargets {| m_targets := MakeTarget <$> [T1; T2; T3] |}.
Proof.
  apply (@TargetList_ctor_sorted_unique BuildTarget BuildTarget_TargetType [T3; T1; T2]).
  vm_compute. reflexivity.
Defined.

Lemma TargetList_ctor_T3_T1_T2_as_T1_T2_T3 :
  TargetList_ctor [T3; T1; T2] = TargetList_ctor [T1; T2; T3].
Proof.
  apply (@TargetList_ctor_order_insensitive BuildTarget BuildTarget_TargetType).
  change ([T3] ++ [T1; T2] ≡ₚ [T1; T2] ++ [T3]). apply Permutation_app_comm.
Defined.

Lemma GetTarget_sound_and_ordered_T1_T2_T3 :
  (∀ name i,
      GetTarget {| m_targets := [Build_BuildTarget T1; Build_BuildTarget T2] |} name
        = Some i ↔
      ∃ t, [Build_BuildTarget T1; Build_BuildTarget T2] !! i = Some t ∧
           GetName t = name) ∧
  (∀ name1 name2 i1 i2,
      GetTarget {| m_targets := [Build_BuildTarget T1; Build_BuildTarget T2] |} name1
        = Some i1 →
      GetTarget {| m_targets := [Build_BuildTarget T1; Build_BuildTarget T2] |} name2
        = Some i2 →
      (string_lt name1 name2 ↔ i1 < i2)) ∧
  (∀ name,
      HasTarget {| m_targets := [Build_BuildTarget T1; Build_BuildTarget T2] |} name
        = true ↔
      name ∈ GetName <$> [Build_BuildTarget T1; Build_BuildTarget T2]) ∧
  (∀ name,
      (∃ e, GetTargetOrThrow
              {| m_targets := [Build_BuildTarget T1; Build_BuildTarget T2] |} name
            = inl e) ↔
      name ∉ GetName <$> [Build_BuildTarget T1; Build_BuildTarget T2]).
Proof.
  apply (@GetTarget_sound_and_ordered BuildTarget BuildTarget_TargetType
           {| m_targets := [Build_BuildTarget T1; Build_BuildTarget T2] |}).
  repeat constructor; vm_compute; reflexivity.
Defined.

End TargetListInvariantWitness.


(** ** Coverage consolidation *)

Module ConsolidationInvariant.
Import ConsolidationFacts.

Lemma with_hasImpactAnalysisData_id s :
  with_hasImpactAnalysisData (λ current, current) s = s.
Proof. by destruct s. Qed.

Lemma updateCoverage_eq this jobs s :
  updateCoverage this jobs s =
    let u := UpdateAndSerializeDynamicDependencyMap jobs
               (m_failedTestCoveragePolicy this) (m_integrationFailurePolicy this)
               (m_repoRoot this) (m_sparTiaFile this) s in
    match u.2 with
    | inl e => (u.1, inl e)
    | inr updated =>
        (with_hasImpactAnalysisData (λ current, default current updated) u.1, inr tt)
    end.
Proof.
  unfold updateCoverage. cbv zeta. rewrite SequenceFacts.bind_eq.
  by destruct (UpdateAndSerializeDynamicDependencyMap _ _ _ _ _ s) as [s' [e|updated]].
Qed.

(** Two coverings without empty sets that relate the same sources and
    tests are the same map. *)
Lemma covering_ext (m1 m2 : gmap RepoPath (gset string)) :
  (∀ source tests, m1 !! source = Some tests → ∃ t, t ∈ tests) →
  (∀ source tests, m2 !! source = Some tests → ∃ t, t ∈ tests) →
  (∀ source t, covers m1 source t ↔ covers m2 source t) →
  m1 = m2.
Proof.
  intros Hne1 Hne2 Hcov.
  assert (∀ (ma mb : gmap RepoPath (gset string)),
            (∀ source tests, ma !! source = Some tests → ∃ t, t ∈ tests) →
            (∀ source t, covers ma source t → covers mb source t) →
            (∀ source t, covers mb source t → covers ma source t) →
            ∀ source tests, ma !! source = Some tests → mb !! source = Some tests)
    as Hhalf.
  { intros ma mb Hne Hab Hba source tests Hlook.
    destruct (Hne _ _ Hlook) as [t Ht].
    destruct (Hab source t) as (tests' & Hlook' & Ht'); [by exists tests|].
    rewrite Hlook'. f_equal. apply set_eq. intros t0. split.
    - intros Hin. destruct (Hba source t0) as (tests0 & Hl0 & Hin0); [by exists tests'|].
      congruence.
    - intros Hin. destruct (Hab source t0) as (tests0 & Hl0 & Hin0); [by exists tests|].
      congruence. }
  apply map_eq. intros source.
  destruct (m1 !! source) as [tests|] eqn:H1.
  - symmetry. eapply (Hhalf m1 m2); [done|apply Hcov|apply Hcov|done].
  - destruct (m2 !! source) as [tests|] eqn:H2; [|done].
    erewrite (Hhalf m2 m1) in H1; [done|done|apply Hcov|apply Hcov|done].
Qed.

Lemma aggregated_coverage_permutation policy jobs jobs' :
  jobs ≡ₚ jobs' →
  aggregated_coverage policy jobs ∅ = aggregated_coverage policy jobs' ∅.
Proof.
  intros Hperm. apply covering_ext.
  - apply aggregated_coverage_inhabited.
  - apply aggregated_coverage_inhabited.
  - intros source t. rewrite !covers_aggregated_coverage.
    by setoid_rewrite Hperm.
Qed.

Lemma RemoveTestTargetFromSourceCoverage_inhabited testTarget ddm source tests :
  m_sourceDependencyMap (RemoveTestTargetFromSourceCoverage testTarget ddm) !! source
    = Some tests →
  ∃ t, t ∈ tests.
Proof.
  unfold RemoveTestTargetFromSourceCoverage. simpl. rewrite lookup_omap.
  destruct (m_sourceDependencyMap ddm !! source) as [tests0|]; [|done]. simpl.
  case_decide as Hempty; [done|]. intros [= <-].
  apply set_choose_L in Hempty. exact Hempty.
Qed.

Lemma remove_targets_of_inhabited jobs ddm :
  (∀ source tests, m_sourceDependencyMap ddm !! source = Some tests → ∃ t, t ∈ tests) →
  ∀ source tests,
    m_sourceDependencyMap (remove_targets_of jobs ddm) !! source = Some tests →
    ∃ t, t ∈ tests.
Proof.
  revert ddm. induction jobs as [|job jobs IH]; intros ddm Hddm; [done|].
  unfold remove_targets_of in *. simpl. apply IH.
  apply RemoveTestTargetFromSourceCoverage_inhabited.
Qed.

Lemma m_testTargets_remove_targets_of jobs ddm :
  m_testTargets (remove_targets_of jobs ddm) = m_testTargets ddm.
Proof.
  revert ddm. induction jobs as [|job jobs IH]; intros ddm; [done|].
  unfold remove_targets_of in *. simpl. by rewrite IH.
Qed.

Lemma remove_targets_of_permutation jobs jobs' ddm :
  jobs ≡ₚ jobs' → remove_targets_of jobs ddm = remove_targets_of jobs' ddm.
Proof.
  intros Hperm. destruct jobs as [|job jobs].
  { apply Permutation_nil_l in Hperm. by subst. }
  destruct jobs' as [|job' jobs'].
  { by apply Permutation_nil_r in Hperm. }
  assert (∀ d1 d2 : DynamicDependencyMap,
            m_testTargets d1 = m_testTargets d2 →
            m_sourceDependencyMap d1 = m_sourceDependencyMap d2 → d1 = d2) as Hext.
  { intros [] []. simpl. by intros -> ->. }
  apply Hext.
  - by rewrite !m_testTargets_remove_targets_of.
  - apply covering_ext.
    + apply (remove_targets_of_inhabited jobs).
      apply RemoveTestTargetFromSourceCoverage_inhabited.
    + apply (remove_targets_of_inhabited jobs').
      apply RemoveTestTargetFromSourceCoverage_inhabited.
    + intros source t. rewrite !covers_remove_targets_of.
      by setoid_rewrite Hperm.
Qed.

Lemma consolidated_list_NoDup policy repoRoot jobs :
  NoDup (GetPath <$> GetCoverage (consolidated_list policy repoRoot jobs)).
Proof.
  unfold consolidated_list, sources_in_repo. cbn [GetCoverage].
  rewrite <- list_fmap_compose.
  apply NoDup_fmap_2_strong; [|apply NoDup_filter, NoDup_map_to_list].
  intros [source1 tests1] [source2 tests2].
  rewrite !list_elem_of_filter. simpl.
  intros [Hrel1 Hin1] [Hrel2 Hin2] Heq.
  apply IsRelativeTo_true in Hrel1, Hrel2.
  assert (source1 = source2) as -> by congruence.
  apply elem_of_map_to_list in Hin1, Hin2. congruence.
Qed.

Lemma find_passed_without_coverage_permutation jobs jobs' :
  jobs ≡ₚ jobs' →
  List.find passed_without_coverage jobs = None →
  List.find passed_without_coverage jobs' = None.
Proof.
  intros Hperm. rewrite !find_passed_without_coverage_None. by rewrite Hperm.
Qed.

(** X4. Ingesting an empty batch of jobs does nothing at all: the map,
    the persisted file, the log and the flag stay as they are, no update
    is reported and nothing is thrown, whatever the policies. *)
Theorem update_with_no_jobs_does_nothing (this : NativeRuntime)
    (policy : Policy.FailedTestCoverage) (integrity : Policy.IntegrityFailure)
    (repoRoot sparTiaFile : RepoPath) (s : State) :
  CreateSourceCoveringTestFromTestCoverages [] policy repoRoot s
    = (s, inr {| GetCoverage := [] |}) ∧
  UpdateAndSerializeDynamicDependencyMap [] policy integrity repoRoot sparTiaFile s
    = (s, inr None) ∧
  updateCoverage this [] s = (s, inr tt).
Proof.
  assert (UpdateAndSerializeDynamicDependencyMap [] policy integrity repoRoot
            sparTiaFile s = (s, inr None)) as Hupdate.
  { intros. rewrite UpdateAndSerializeDynamicDependencyMap_eq. simpl.
    unfold remove_targets_of. simpl. rewrite map_to_list_empty. simpl.
    by rewrite with_map_id, with_log_nil. }
  split_and!.
  - rewrite CreateSourceCoveringTestFromTestCoverages_eq. simpl.
    unfold remove_targets_of, consolidated_list. simpl. rewrite map_to_list_empty. simpl.
    by rewrite with_map_id, with_log_nil.
  - exact Hupdate.
  - rewrite updateCoverage_eq. cbv zeta.
    assert (UpdateAndSerializeDynamicDependencyMap []
              (m_failedTestCoveragePolicy this) (m_integrationFailurePolicy this)
              (m_repoRoot this) (m_sparTiaFile this) s = (s, inr None)) as ->.
    { rewrite UpdateAndSerializeDynamicDependencyMap_eq. simpl.
      unfold remove_targets_of. simpl. rewrite map_to_list_empty. simpl.
      by rewrite with_map_id, with_log_nil. }
    simpl. by rewrite with_hasImpactAnalysisData_id.
Qed.

(** X5. A job whose test run did not complete (its result is neither
    [AllTestsPass] nor [TestFailures]) hands no coverage over, even when
    it carries a coverage artifact, and never makes consolidation throw:
    the consolidated list and the outcome of the update are those of the
    batch without the job. *)
Theorem not_completed_job_coverage_ignored
    (policy : Policy.FailedTestCoverage) (integrity : Policy.IntegrityFailure)
    (repoRoot sparTiaFile : RepoPath)
    (before after : list TestEngineInstrumentedRun) (job : TestEngineInstrumentedRun)
    (s : State) :
  GetTestResult job ≠ Client.AllTestsPass →
  GetTestResult job ≠ Client.TestFailures →
  (∀ coverage, (consolidate_job policy job coverage s).2 = inr coverage) ∧
  (CreateSourceCoveringTestFromTestCoverages (before ++ job :: after) policy
     repoRoot s).2 =
  (CreateSourceCoveringTestFromTestCoverages (before ++ after) policy repoRoot s).2 ∧
  (UpdateAndSerializeDynamicDependencyMap (before ++ job :: after) policy integrity
     repoRoot sparTiaFile s).2 =
  (UpdateAndSerializeDynamicDependencyMap (before ++ after) policy integrity
     repoRoot sparTiaFile s).2.
Proof.
  intros Hpass Hfail.
  assert (passed_without_coverage job = false) as Hnothrow.
  { unfold passed_without_coverage. by rewrite bool_decide_eq_false_2. }
  assert (ingested_sources policy job = []) as Hnone.
  { unfold ingested_sources.
    rewrite (bool_decide_eq_false_2 (GetTestResult job = Client.AllTestsPass)) by done.
    rewrite (bool_decide_eq_false_2 (GetTestResult job = Client.TestFailures)) by done.
    by rewrite andb_false_r. }
  assert (consolidated_list policy repoRoot (before ++ job :: after) =
          consolidated_list policy repoRoot (before ++ after)) as Hlist.
  { unfold consolidated_list. by rewrite aggregated_coverage_skip. }
  split_and!.
  - intros coverage. rewrite consolidate_job_eq. simpl.
    by rewrite Hnothrow, Hnone.
  - rewrite !CreateSourceCoveringTestFromTestCoverages_result.
    by rewrite find_app_skip, Hlist.
  - rewrite !UpdateAndSerializeDynamicDependencyMap_eq.
    rewrite find_app_skip by done. cbv zeta. rewrite Hlist.
    destruct (List.find passed_without_coverage (before ++ after)).
    + by case_bool_decide.
    + repeat case_bool_decide; destruct (writable s); done.
Qed.

(** X6. In the list consolidation delivers, no two entries have the same
    path, no entry has an empty set of covering tests, and the covering
    tests of an entry are exactly the targets of the jobs that handed the
    source of that entry over. *)
Theorem consolidated_entries_distinct_and_exact
    (policy : Policy.FailedTestCoverage) (repoRoot : RepoPath)
    (jobs : list TestEngineInstrumentedRun) (s : State) (l : SourceCoveringTestsList) :
  (CreateSourceCoveringTestFromTestCoverages jobs policy repoRoot s).2 = inr l →
  NoDup (GetPath <$> GetCoverage l) ∧
  ∀ c, c ∈ GetCoverage l →
    GetCoveringTestTargets c ≠ ∅ ∧
    ∀ t, t ∈ GetCoveringTestTargets c ↔
         ∃ job, job ∈ jobs ∧ GetTestTarget job = t ∧
                repoRoot ++ GetPath c ∈ ingested_sources policy job.
Proof.
  rewrite CreateSourceCoveringTestFromTestCoverages_result.
  destruct (List.find passed_without_coverage jobs); [done|]. intros [= <-].
  split; [apply consolidated_list_NoDup|].
  intros c Hc. apply elem_of_consolidated_list in Hc. split.
  - destruct (aggregated_coverage_inhabited _ _ _ _ Hc) as [t Ht]. set_solver.
  - intros t.
    pose proof (covers_aggregated_coverage policy jobs ∅ (repoRoot ++ GetPath c) t)
      as Hcov.
    split.
    + intros Ht. destruct Hcov as [Hcov _].
      destruct Hcov as [Hempty|Hjob]; [by exists (GetCoveringTestTargets c)| |done].
      by destruct (not_covers_empty _ _ Hempty).
    + intros Hjob. destruct Hcov as [_ Hcov].
      destruct Hcov as (tests & Hlook & Hin); [by right|].
      assert (Some (GetCoveringTestTargets c) = Some tests) as Heq
        by exact (eq_trans (eq_sym Hc) Hlook).
      by injection Heq as ->.
Qed.

(** X7. When no job of the batch passed without coverage, the order of
    the jobs is immaterial: a batch with the same jobs in another order
    consolidates to a list with the same entries, and its update gives the
    same outcome, the same map, the same persisted files and the same
    flag. *)
Theorem update_independent_of_job_order (this : NativeRuntime)
    (policy : Policy.FailedTestCoverage) (integrity : Policy.IntegrityFailure)
    (repoRoot sparTiaFile : RepoPath)
    (jobs jobs' : list TestEngineInstrumentedRun) (s : State) :
  jobs ≡ₚ jobs' →
  Forall (λ job, passed_without_coverage job = false) jobs →
  (∃ l l',
     (CreateSourceCoveringTestFromTestCoverages jobs policy repoRoot s).2 = inr l ∧
     (CreateSourceCoveringTestFromTestCoverages jobs' policy repoRoot s).2 = inr l' ∧
     ∀ c, c ∈ GetCoverage l ↔ c ∈ GetCoverage l') ∧
  (let u := UpdateAndSerializeDynamicDependencyMap jobs policy integrity repoRoot
              sparTiaFile s in
   let u' := UpdateAndSerializeDynamicDependencyMap jobs' policy integrity repoRoot
               sparTiaFile s in
   u.2 = u'.2 ∧
   m_dynamicDependencyMap u.1 = m_dynamicDependencyMap u'.1 ∧
   files u.1 = files u'.1) ∧
  (let r := updateCoverage this jobs s in
   let r' := updateCoverage this jobs' s in
   r.2 = r'.2 ∧
   m_dynamicDependencyMap r.1 = m_dynamicDependencyMap r'.1 ∧
   files r.1 = files r'.1 ∧
   m_hasImpactAnalysisData r.1 = m_hasImpactAnalysisData r'.1).
Proof.
  intros Hperm Hnothrow.
  apply find_passed_without_coverage_None in Hnothrow.
  pose proof (find_passed_without_coverage_permutation _ _ Hperm Hnothrow) as Hnothrow'.
  assert (∀ policy repoRoot,
            consolidated_list policy repoRoot jobs =
            consolidated_list policy repoRoot jobs') as Hlist.
  { intros. unfold consolidated_list.
    by rewrite (aggregated_coverage_permutation _ _ _ Hperm). }
  assert (∀ policy integrity repoRoot sparTiaFile,
            UpdateAndSerializeDynamicDependencyMap jobs policy integrity repoRoot
              sparTiaFile s =
            UpdateAndSerializeDynamicDependencyMap jobs' policy integrity repoRoot
              sparTiaFile s) as Hupdate.
  { intros. rewrite !UpdateAndSerializeDynamicDependencyMap_eq.
    rewrite Hnothrow, Hnothrow'. cbv zeta.
    rewrite Hlist, (aggregated_coverage_permutation _ _ _ Hperm).
    unfold with_log, with_map, with_files. cbn [m_dynamicDependencyMap].
    by rewrite !(remove_targets_of_permutation _ _ _ Hperm). }
  split_and!.
  - rewrite !CreateSourceCoveringTestFromTestCoverages_result.
    rewrite Hnothrow, Hnothrow', Hlist. by eexists _, _.
  - cbv zeta. by rewrite Hupdate.
  - cbv zeta. rewrite !updateCoverage_eq. cbv zeta. by rewrite Hupdate.
Qed.

(** X8. After an update that reports success, every source under the
    repository root that a job of the batch handed over is covered, in the
    map, by the target of that job, under its path relative to the root;
    the persisted file, which was writable, holds the export of that map;
    and no error has been logged. *)
Theorem successful_update_records_ingested_coverage
    (policy : Policy.FailedTestCoverage) (integrity : Policy.IntegrityFailure)
    (repoRoot sparTiaFile : RepoPath)
    (jobs : list TestEngineInstrumentedRun) (s : State) :
  (UpdateAndSerializeDynamicDependencyMap jobs policy integrity repoRoot
     sparTiaFile s).2 = inr (Some true) →
  let u := UpdateAndSerializeDynamicDependencyMap jobs policy integrity repoRoot
             sparTiaFile s in
  (∀ job source,
      job ∈ jobs → repoRoot ++ source ∈ ingested_sources policy job →
      covers (m_sourceDependencyMap (m_dynamicDependencyMap u.1)) source
             (GetTestTarget job)) ∧
  files u.1 !! sparTiaFile = Some (ExportSourceCoverage (m_dynamicDependencyMap u.1)) ∧
  writable s = true ∧
  (∀ what, Error what ∈ log u.1 → Error what ∈ log s).
Proof.
  cbv zeta. rewrite UpdateAndSerializeDynamicDependencyMap_eq.
  destruct (List.find passed_without_coverage jobs) as [thrower|] eqn:Hfind.
  { cbv zeta. by case_bool_decide. }
  cbv zeta. case_bool_decide as Hempty; [done|].
  destruct (writable s) eqn:Hwritable; [|by case_bool_decide].
  intros _.
  cbn [fst m_dynamicDependencyMap files log with_files with_map with_log].
  split_and!; [|by rewrite lookup_insert_eq|done|].
  2:{ intros what. rewrite elem_of_app. intros [Hin|Hin]; [done|].
      unfold warnings_outside_repo in Hin.
      by apply list_elem_of_fmap in Hin as (? & ? & _). }
  intros job source Hjob Hsource.
  destruct (ingested_source_aggregated policy jobs job _ Hjob Hsource)
    as (tests & Hlook & Hin).
  apply covers_ReplaceSourceCoverage. right.
  exists {| GetPath := source; GetCoveringTestTargets := tests |}.
  split_and!; [|done..]. by apply elem_of_consolidated_list.
Qed.

(** X9. Ingestion never lowers [m_hasImpactAnalysisData]: when the update
    reports nothing the flag keeps its value, and it is raised only by an
    update that has written the persisted file. *)
Theorem impact_analysis_data_flag_only_raised (this : NativeRuntime)
    (jobs : list TestEngineInstrumentedRun) (s : State) :
  let u := UpdateAndSerializeDynamicDependencyMap jobs
             (m_failedTestCoveragePolicy this) (m_integrationFailurePolicy this)
             (m_repoRoot this) (m_sparTiaFile this) s in
  let r := updateCoverage this jobs s in
  (∀ updated, u.2 = inr updated → updated = None ∨ updated = Some true) ∧
  (m_hasImpactAnalysisData r.1 = true ↔
   m_hasImpactAnalysisData s = true ∨ u.2 = inr (Some true)) ∧
  (u.2 = inr (Some true) →
   files r.1 !! m_sparTiaFile this
     = Some (ExportSourceCoverage (m_dynamicDependencyMap r.1))).
Proof.
  cbv zeta. rewrite updateCoverage_eq. cbv zeta.
  rewrite UpdateAndSerializeDynamicDependencyMap_eq.
  destruct (List.find passed_without_coverage jobs) as [thrower|]; cbv zeta.
  - case_bool_decide; simpl; (split_and!; [naive_solver|naive_solver|done]).
  - case_bool_decide; simpl; [split_and!; [naive_solver|naive_solver|done]|].
    destruct (writable s); simpl.
    + split_and!; [naive_solver|naive_solver|].
      intros _. by rewrite lookup_insert_eq.
    + case_bool_decide; simpl; (split_and!; [naive_solver|naive_solver|done]).
Qed.

(** X10. Whatever the outcome of an update, the map afterwards is over
    the same test targets, and each source it records as covered by a test
    target either was so before, the target being that of no job ingestion
    got to, or was handed over by a job of the batch for that target. *)
Theorem update_coverage_provenance
    (policy : Policy.FailedTestCoverage) (integrity : Policy.IntegrityFailure)
    (repoRoot sparTiaFile : RepoPath)
    (jobs : list TestEngineInstrumentedRun) (s : State) :
  let u := UpdateAndSerializeDynamicDependencyMap jobs policy integrity repoRoot
             sparTiaFile s in
  m_testTargets (m_dynamicDependencyMap u.1) = m_testTargets (m_dynamicDependencyMap s) ∧
  ∀ source t,
    covers (m_sourceDependencyMap (m_dynamicDependencyMap u.1)) source t →
    (covers (m_sourceDependencyMap (m_dynamicDependencyMap s)) source t ∧
     t ∉ GetTestTarget <$> processed_jobs jobs) ∨
    (∃ job, job ∈ jobs ∧ GetTestTarget job = t ∧
            repoRoot ++ source ∈ ingested_sources policy job).
Proof.
  cbv zeta. rewrite UpdateAndSerializeDynamicDependencyMap_eq.
  assert (∀ source t,
            covers (m_sourceDependencyMap
                      (ReplaceSourceCoverage (consolidated_list policy repoRoot jobs)
                         (remove_targets_of jobs (m_dynamicDependencyMap s))))
                   source t →
            (covers (m_sourceDependencyMap (m_dynamicDependencyMap s)) source t ∧
             t ∉ GetTestTarget <$> jobs) ∨
            ∃ job, job ∈ jobs ∧ GetTestTarget job = t ∧
                   repoRoot ++ source ∈ ingested_sources policy job) as Hreplaced.
  { intros source t Hcovers.
    apply covers_ReplaceSourceCoverage in Hcovers as [Hprior|(c & Hc & <- & Hin)].
    { left. by apply covers_remove_targets_of. }
    right. apply elem_of_consolidated_list in Hc.
    destruct (covers_aggregated_coverage policy jobs ∅ (repoRoot ++ GetPath c) t)
      as [Hcov _].
    destruct Hcov as [Hempty|Hjob]; [by exists (GetCoveringTestTargets c)| |done].
    by destruct (not_covers_empty _ _ Hempty). }
  destruct (List.find passed_without_coverage jobs) as [thrower|] eqn:Hfind; cbv zeta.
  - case_bool_decide; simpl; (split; [apply m_testTargets_remove_targets_of|]);
      intros source t Hcov; left; by apply covers_remove_targets_of.
  - rewrite (processed_jobs_no_throw _ Hfind).
    case_bool_decide; simpl.
    { split; [apply m_testTargets_remove_targets_of|].
      intros source t Hcov; left; by apply covers_remove_targets_of. }
    destruct (writable s); [|case_bool_decide]; simpl;
      (split; [apply m_testTargets_remove_targets_of|]);
      intros source t Hcov; by apply Hreplaced.
Qed.

End ConsolidationInvariant.

Module ConsolidationInvariantWitness.
Import Scenario ConsolidationInvariant.

Lemma timed_out_T3_coverage_ignored :
  (∀ coverage,
      (consolidate_job Policy.Keep (job "T3" Client.Timeout (Some [b_cpp])) coverage
         seeded_state).2 = inr coverage) ∧
  (CreateSourceCoveringTestFromTestCoverages
     ([job "T1" Client.AllTestsPass (Some [a_cpp])]
      ++ job "T3" Client.Timeout (Some [b_cpp]) :: []) Policy.Keep repoRoot
     seeded_state).2 =
  (CreateSourceCoveringTestFromTestCoverages
     ([job "T1" Client.AllTestsPass (Some [a_cpp])] ++ []) Policy.Keep repoRoot
     seeded_state).2 ∧
  (UpdateAndSerializeDynamicDependencyMap
     ([job "T1" Client.AllTestsPass (Some [a_cpp])]
      ++ job "T3" Client.Timeout (Some [b_cpp]) :: []) Policy.Keep Policy.Abort
     repoRoot sparTiaFile seeded_state).2 =
  (UpdateAndSerializeDynamicDependencyMap
     ([job "T1" Client.AllTestsPass (Some [a_cpp])] ++ []) Policy.Keep Policy.Abort
     repoRoot sparTiaFile seeded_state).2.
Proof.
  apply (not_completed_job_coverage_ignored Policy.Keep Policy.Abort repoRoot
           sparTiaFile [job "T1" Client.AllTestsPass (Some [a_cpp])] []
           (job "T3" Client.Timeout (Some [b_cpp])) seeded_state);
    simpl; discriminate.
Defined.

Lemma consolidated_entries_of_T1_T2 :
  NoDup (GetPath <$> GetCoverage
           (consolidated_list Policy.Keep repoRoot
              [job "T1" Client.AllTestsPass (Some [a_cpp]);
               job "T2" Client.TestFailures (Some [a_cpp; b_cpp; x_h])])) ∧
  ∀ c, c ∈ GetCoverage
             (consolidated_list Policy.Keep repoRoot
                [job "T1" Client.AllTestsPass (Some [a_cpp]);
                 job "T2" Client.TestFailures (Some [a_cpp; b_cpp; x_h])]) →
    GetCoveringTestTargets c ≠ ∅ ∧
    ∀ t, t ∈ GetCoveringTestTargets c ↔
         ∃ job0, job0 ∈ [job "T1" Client.AllTestsPass (Some [a_cpp]);
                         job "T2" Client.TestFailures (Some [a_cpp; b_cpp; x_h])] ∧
                 GetTestTarget job0 = t ∧
                 repoRoot ++ GetPath c ∈ ingested_sources Policy.Keep job0.
Proof.
  apply (consolidated_entries_distinct_and_exact Policy.Keep repoRoot
           [job "T1" Client.AllTestsPass (Some [a_cpp]);
            job "T2" Client.TestFailures (Some [a_cpp; b_cpp; x_h])] seeded_state).
  vm_compute. reflexivity.
Defined.

Lemma update_of_T1_T2_as_of_T2_T1 :
  (∃ l l',
     (CreateSourceCoveringTestFromTestCoverages
        [job "T1" Client.AllTestsPass (Some [a_cpp]);
         job "T2" Client.AllTestsPass (Some [a_cpp; b_cpp])] Policy.Keep repoRoot
        seeded_state).2 = inr l ∧
     (CreateSourceCoveringTestFromTestCoverages
        [job "T2" Client.AllTestsPass (Some [a_cpp; b_cpp]);
         job "T1" Client.AllTestsPass (Some [a_cpp])] Policy.Keep repoRoot
        seeded_state).2 = inr l' ∧
     ∀ c, c ∈ GetCoverage l ↔ c ∈ GetCoverage l') ∧
  (let u := UpdateAndSerializeDynamicDependencyMap
              [job "T1" Client.AllTestsPass (Some [a_cpp]);
               job "T2" Client.AllTestsPass (Some [a_cpp; b_cpp])] Policy.Keep
              Policy.Abort repoRoot sparTiaFile seeded_state in
   let u' := UpdateAndSerializeDynamicDependencyMap
               [job "T2" Client.AllTestsPass (Some [a_cpp; b_cpp]);
                job "T1" Client.AllTestsPass (Some [a_cpp])] Policy.Keep
               Policy.Abort repoRoot sparTiaFile seeded_state in
   u.2 = u'.2 ∧
   m_dynamicDependencyMap u.1 = m_dynamicDependencyMap u'.1 ∧
   files u.1 = files u'.1) ∧
  (let r := updateCoverage (runtime engine Policy.Keep)
              [job "T1" Client.AllTestsPass (Some [a_cpp]);
               job "T2" Client.AllTestsPass (Some [a_cpp; b_cpp])] seeded_state in
   let r' := updateCoverage (runtime engine Policy.Keep)
               [job "T2" Client.AllTestsPass (Some [a_cpp; b_cpp]);
                job "T1" Client.AllTestsPass (Some [a_cpp])] seeded_state in
   r.2 = r'.2 ∧
   m_dynamicDependencyMap r.1 = m_dynamicDependencyMap r'.1 ∧
   files r.1 = files r'.1 ∧
   m_hasImpactAnalysisData r.1 = m_hasImpactAnalysisData r'.1).
Proof.
  apply (update_independent_of_job_order (runtime engine Policy.Keep) Policy.Keep
           Policy.Abort repoRoot sparTiaFile
           [job "T1" Client.AllTestsPass (Some [a_cpp]);
            job "T2" Client.AllTestsPass (Some [a_cpp; b_cpp])]
           [job "T2" Client.AllTestsPass (Some [a_cpp; b_cpp]);
            job "T1" Client.AllTestsPass (Some [a_cpp])] seeded_state).
  - apply perm_swap.
  - repeat constructor.
Defined.

Lemma successful_update_records_failing_T2_under_Keep :
  (∀ job0 source,
      job0 ∈ [job "T2" Client.TestFailures (Some [a_cpp])] →
      repoRoot ++ source ∈ ingested_sources Policy.Keep job0 →
      covers (m_sourceDependencyMap
                (m_dynamicDependencyMap
                   (UpdateAndSerializeDynamicDependencyMap
                      [job "T2" Client.TestFailures (Some [a_cpp])] Policy.Keep
                      Policy.Abort repoRoot sparTiaFile seeded_state).1))
             source (GetTestTarget job0)) ∧
  files (UpdateAndSerializeDynamicDependencyMap
           [job "T2" Client.TestFailures (Some [a_cpp])] Policy.Keep
           Policy.Abort repoRoot sparTiaFile seeded_state).1 !! sparTiaFile
    = Some (ExportSourceCoverage
              (m_dynamicDependencyMap
                 (UpdateAndSerializeDynamicDependencyMap
                    [job "T2" Client.TestFailures (Some [a_cpp])] Policy.Keep
                    Policy.Abort repoRoot sparTiaFile seeded_state).1)) ∧
  writable seeded_state = true ∧
  (∀ what,
     Error what ∈
       log (UpdateAndSerializeDynamicDependencyMap
              [job "T2" Client.TestFailures (Some [a_cpp])] Policy.Keep
              Policy.Abort repoRoot sparTiaFile seeded_state).1 →
     Error what ∈ log seeded_state).
Proof.
  apply (successful_update_records_ingested_coverage Policy.Keep Policy.Abort repoRoot
           sparTiaFile [job "T2" Client.TestFailures (Some [a_cpp])] seeded_state).
  vm_compute. reflexivity.
Defined.

End ConsolidationInvariantWitness.


(** ** The sequences, phase by phase *)

Module PhaseFacts.
Import ConsolidationFacts SequenceFacts ConsolidationInvariant.

Lemma with_trace_app a b s :
  with_trace (λ t, t ++ b) (with_trace (λ t, t ++ a) s) =
  with_trace (λ t, t ++ (a ++ b)) s.
Proof. unfold with_trace. simpl. by rewrite app_assoc. Qed.

Lemma UpdateAndSerializeDynamicDependencyMap_with_trace
    jobs policy integrity repoRoot sparTiaFile f s :
  UpdateAndSerializeDynamicDependencyMap jobs policy integrity repoRoot sparTiaFile
    (with_trace f s) =
  let u := UpdateAndSerializeDynamicDependencyMap jobs policy integrity repoRoot
             sparTiaFile s in
  (with_trace f u.1, u.2).
Proof.
  rewrite !UpdateAndSerializeDynamicDependencyMap_eq.
  destruct (List.find passed_without_coverage jobs); cbv zeta.
  - by case_bool_decide.
  - cbn [writable with_trace].
    repeat case_bool_decide; destruct (writable s); reflexivity.
Qed.

Lemma updateCoverage_with_trace this jobs f s :
  updateCoverage this jobs (with_trace f s) =
  let r := updateCoverage this jobs s in (with_trace f r.1, r.2).
Proof.
  rewrite !updateCoverage_eq, UpdateAndSerializeDynamicDependencyMap_with_trace.
  cbv zeta.
  by destruct (UpdateAndSerializeDynamicDependencyMap _ _ _ _ _ s) as [s' [e|updated]].
Qed.

Lemma SafeImpactAnalysisTestSequence_eq this changeList prio
    testTargetTimeout globalTimeout startCallback endCallback s :
  let selectedTestRunData :=
    safe_selectedTestRunData this changeList prio testTargetTimeout globalTimeout
      startCallback s in
  let discardedTestRunData :=
    safe_discardedTestRunData this changeList prio testTargetTimeout globalTimeout
      startCallback s in
  let draftedTestRunData :=
    safe_draftedTestRunData this changeList prio testTargetTimeout globalTimeout
      startCallback s in
  let events :=
    safe_start this changeList prio startCallback s
    ++ safe_selectedRun this changeList prio testTargetTimeout globalTimeout s
    ++ safe_discardedRun this changeList prio testTargetTimeout globalTimeout
         startCallback s
    ++ safe_draftedRun this changeList prio testTargetTimeout globalTimeout
         startCallback s
    ++ optional_event endCallback SequenceEnd in
  let sequenceReport :=
    {| ClientReports.safe_testTargetTimeout := testTargetTimeout;
       ClientReports.safe_globalTimeout := globalTimeout;
       ClientReports.safe_selectedTestRuns :=
         {| Client.GetIncludedTestRuns := includedSelectedTestTargets this changeList prio s;
            Client.GetExcludedTestRuns := excludedSelectedTestTargets this changeList prio s |};
       ClientReports.safe_discardedTestRuns :=
         {| Client.GetIncludedTestRuns := includedDiscardedTestTargets this changeList prio s;
            Client.GetExcludedTestRuns := excludedDiscardedTestTargets this changeList prio s |};
       ClientReports.safe_draftedTestRuns := draftedTestTargets s;
       ClientReports.safe_selectedTestRunReport :=
         GenerateTestRunReport (m_result selectedTestRunData)
           (m_duration selectedTestRunData) (m_jobs selectedTestRunData);
       ClientReports.safe_discardedTestRunReport :=
         GenerateTestRunReport (m_result discardedTestRunData)
           (m_duration discardedTestRunData) (m_jobs discardedTestRunData);
       ClientReports.safe_draftedTestRunReport :=
         GenerateTestRunReport (m_result draftedTestRunData)
           (m_duration draftedTestRunData) (m_jobs draftedTestRunData) |} in
  let u := updateCoverage this
             (m_jobs selectedTestRunData ++ m_jobs draftedTestRunData) s in
  SafeImpactAnalysisTestSequence this changeList prio testTargetTimeout globalTimeout
    startCallback endCallback s =
  (with_trace (λ t, t ++ events) u.1,
   match u.2 with inl e => inl e | inr _ => inr sequenceReport end).
Proof.
  cbv zeta.
  unfold safe_draftedTestRunData, safe_draftedRun, safe_draftedTimeout,
    safe_discardedTestRunData, safe_discardedRun, safe_discardedTimeout,
    safe_selectedTestRunData, safe_selectedRun, safe_start,
    includedDiscardedTestTargets, excludedDiscardedTestTargets,
    includedSelectedTestTargets, excludedSelectedTestTargets, unselectedTestTargets,
    selectedTestTargets, draftedTestTargets.
  set (ddm := m_dynamicDependencyMap s).
  set (drafted := GetNotCoveringTests ddm).
  set (selected := m_testSelectorAndPrioritizer this ddm changeList prio).
  set (selectedBy :=
         SelectTestTargetsByExcludeList (m_instrumentedTestTargetExcludeList this)
           selected).
  set (discardedBy :=
         SelectTestTargetsByExcludeList (m_regularTestTargetExcludeList this)
           (filter (λ t, t ∉ selected) (m_testTargets ddm))).
  unfold SafeImpactAnalysisTestSequence.
  rewrite bind_eq. unfold get_map. cbn beta iota zeta.
  rewrite bind_eq, SelectCoveringTestTargets_eq. cbn beta iota zeta. cbn [fst snd].
  fold ddm. fold drafted. fold selected. fold selectedBy. fold discardedBy.
  unfold ExtractTestTargetNames, ConcatenateVectors.
  rewrite bind_eq, call_if_present_eq.
  unfold carried_timeout, run_event, run_data.
  destruct (bool_decide (selectedBy.1 ≠ [])), (bool_decide (discardedBy.1 ≠ [])),
    (bool_decide (drafted ≠ []));
    repeat (rewrite bind_eq; cbn beta iota zeta;
            rewrite ?instrumentedTestRun_eq, ?regularTestRun_eq, ?call_if_present_eq;
            unfold mret, M_ret; cbn beta iota zeta; cbn [fst snd]);
    rewrite ?with_trace_app, updateCoverage_with_trace; cbv zeta;
    cbn [trace with_trace m_jobs m_duration m_result TestRunData_default];
    rewrite <- ?app_assoc, ?app_nil_r; cbn [app];
    match goal with
    | |- context [updateCoverage ?t ?jobs ?st] =>
        destruct (updateCoverage t jobs st) as [? [?|?]]
    end; reflexivity.
Qed.

Lemma ImpactAnalysisTestSequence_Update_eq this changeList prio
    testTargetTimeout globalTimeout startCallback endCallback s :
  let selectedTestRunData :=
    ia_selectedTestRunData this changeList prio testTargetTimeout globalTimeout
      startCallback s in
  let draftedTestRunData :=
    ia_draftedTestRunData this changeList prio testTargetTimeout globalTimeout
      startCallback s in
  let events :=
    ia_start this changeList prio startCallback s
    ++ ia_selectedRun this changeList prio testTargetTimeout globalTimeout s true
    ++ ia_draftedRun testTargetTimeout globalTimeout s true
    ++ optional_event endCallback SequenceEnd in
  let sequenceReport :=
    {| ClientReports.ia_testTargetTimeout := testTargetTimeout;
       ClientReports.ia_globalTimeout := globalTimeout;
       ClientReports.ia_selectedTestRuns :=
         {| Client.GetIncludedTestRuns := includedSelectedTestTargets this changeList prio s;
            Client.GetExcludedTestRuns := excludedSelectedTestTargets this changeList prio s |};
       ClientReports.ia_discardedTestRuns := ia_discardedTestTargets this changeList prio s;
       ClientReports.ia_draftedTestRuns := draftedTestTargets s;
       ClientReports.ia_selectedTestRunReport :=
         GenerateTestRunReport (m_result selectedTestRunData)
           (m_duration selectedTestRunData) (m_jobs selectedTestRunData);
       ClientReports.ia_draftedTestRunReport :=
         GenerateTestRunReport (m_result draftedTestRunData)
           (m_duration draftedTestRunData) (m_jobs draftedTestRunData) |} in
  let u := updateCoverage this
             (m_jobs selectedTestRunData ++ m_jobs draftedTestRunData) s in
  ImpactAnalysisTestSequence this changeList prio Policy.Update testTargetTimeout
    globalTimeout startCallback endCallback s =
  (with_trace (λ t, t ++ events) u.1,
   match u.2 with inl e => inl e | inr _ => inr sequenceReport end).
Proof.
  cbv zeta.
  unfold ia_draftedTestRunData, ia_draftedRun, ia_selectedTestRunData, ia_selectedRun,
    ia_start, ia_discardedTestTargets,
    includedSelectedTestTargets, excludedSelectedTestTargets, unselectedTestTargets,
    selectedTestTargets, draftedTestTargets.
  unfold ImpactAnalysisTestSequence.
  rewrite bind_eq. unfold get_map. cbn beta iota zeta.
  rewrite bind_eq, SelectCoveringTestTargets_eq. cbn beta iota zeta. cbn [fst snd].
  rewrite bool_decide_eq_true_2 by done.
  rewrite (ImpactAnalysisTestSequenceWrapper_eq true testTargetTimeout
             (InstrumentedRun (m_testEngine this)))
    by apply instrumentedTestRun_eq.
  cbv zeta. rewrite !with_trace_app, updateCoverage_with_trace. cbv zeta.
  cbn [trace with_trace fst snd]. rewrite <- ?app_assoc.
  match goal with
  | |- context [updateCoverage ?t ?jobs ?st] =>
      destruct (updateCoverage t jobs st) as [? [?|?]]
  end; reflexivity.
Qed.

Lemma ImpactAnalysisTestSequence_Discard_eq this changeList prio mapPolicy
    testTargetTimeout globalTimeout startCallback endCallback s :
  mapPolicy ≠ Policy.Update →
  let start := ia_start this changeList prio startCallback s in
  let selectedRun :=
    ia_selectedRun this changeList prio testTargetTimeout globalTimeout s false in
  let selectedTestRunData :=
    run_data (includedSelectedTestTargets this changeList prio s)
      (RegularRun (m_testEngine this) (trace s ++ start)
         (includedSelectedTestTargets this changeList prio s) testTargetTimeout
         globalTimeout) in
  let draftedTestRunData :=
    run_data (draftedTestTargets s)
      (RegularRun (m_testEngine this) (trace s ++ start ++ selectedRun)
         (draftedTestTargets s) testTargetTimeout globalTimeout) in
  let events :=
    start ++ selectedRun
    ++ ia_draftedRun testTargetTimeout globalTimeout s false
    ++ optional_event endCallback SequenceEnd in
  let sequenceReport :=
    {| ClientReports.ia_testTargetTimeout := testTargetTimeout;
       ClientReports.ia_globalTimeout := globalTimeout;
       ClientReports.ia_selectedTestRuns :=
         {| Client.GetIncludedTestRuns := includedSelectedTestTargets this changeList prio s;
            Client.GetExcludedTestRuns := excludedSelectedTestTargets this changeList prio s |};
       ClientReports.ia_discardedTestRuns := ia_discardedTestTargets this changeList prio s;
       ClientReports.ia_draftedTestRuns := draftedTestTargets s;
       ClientReports.ia_selectedTestRunReport :=
         GenerateTestRunReport (m_result selectedTestRunData)
           (m_duration selectedTestRunData) (m_jobs selectedTestRunData);
       ClientReports.ia_draftedTestRunReport :=
         GenerateTestRunReport (m_result draftedTestRunData)
           (m_duration draftedTestRunData) (m_jobs draftedTestRunData) |} in
  ImpactAnalysisTestSequence this changeList prio mapPolicy testTargetTimeout
    globalTimeout startCallback endCallback s =
  (with_trace (λ t, t ++ events) s, inr sequenceReport).
Proof.
  intros Hpolicy. cbv zeta.
  unfold ia_draftedRun, ia_selectedRun, ia_start, ia_discardedTestTargets,
    includedSelectedTestTargets, excludedSelectedTestTargets, unselectedTestTargets,
    selectedTestTargets, draftedTestTargets.
  unfold ImpactAnalysisTestSequence.
  rewrite bind_eq. unfold get_map. cbn beta iota zeta.
  rewrite bind_eq, SelectCoveringTestTargets_eq. cbn beta iota zeta. cbn [fst snd].
  rewrite bool_decide_eq_false_2 by done.
  rewrite (ImpactAnalysisTestSequenceWrapper_eq false testTargetTimeout
             (RegularRun (m_testEngine this)))
    by apply regularTestRun_eq.
  cbv zeta. rewrite !with_trace_app.
  cbn [trace with_trace fst snd]. by rewrite <- ?app_assoc.
Qed.

Lemma SeededTestSequence_eq this testTargetTimeout globalTimeout
    startCallback endCallback s :
  let excludeList := m_instrumentedTestTargetExcludeList this in
  let outcome := seed_outcome this testTargetTimeout globalTimeout startCallback s in
  let events :=
    sequence_start startCallback s excludeList
    ++ [EngineRun true (includedTestTargets s excludeList) testTargetTimeout
          globalTimeout]
    ++ optional_event endCallback SequenceEnd in
  let sequenceReport :=
    {| ClientReports.seed_testTargetTimeout := testTargetTimeout;
       ClientReports.seed_globalTimeout := globalTimeout;
       ClientReports.seed_selectedTestRuns :=
         {| Client.GetIncludedTestRuns := includedTestTargets s excludeList;
            Client.GetExcludedTestRuns := excludedTestTargets s excludeList |};
       ClientReports.seed_selectedTestRunReport :=
         GenerateTestRunReport (outcome_result outcome) (outcome_elapsedMs outcome)
           (outcome_jobs outcome) |} in
  let u := updateCoverage this (outcome_jobs outcome)
             (with_files (delete (m_sparTiaFile this))
                (with_map ClearAllSourceCoverage s)) in
  SeededTestSequence this testTargetTimeout globalTimeout startCallback endCallback s =
  (with_trace (λ t, t ++ events) u.1,
   match u.2 with inl e => inl e | inr _ => inr sequenceReport end).
Proof.
  cbv zeta. unfold seed_outcome, sequence_start, includedTestTargets, excludedTestTargets.
  unfold SeededTestSequence.
  rewrite bind_eq. unfold get_map. cbn beta iota zeta.
  unfold ExtractTestTargetNames.
  rewrite bind_eq, call_if_present_eq.
  rewrite bind_eq, instrumentedTestRun_eq. cbn beta iota zeta.
  rewrite bind_eq, call_if_present_eq.
  rewrite bind_eq. unfold ClearDynamicDependencyMapAndRemoveExistingFile.
  rewrite bind_eq. unfold modify_map, DeleteFile. cbn beta iota zeta.
  rewrite bind_eq. rewrite !with_trace_app.
  change (with_files (delete (m_sparTiaFile this))
            (with_map ClearAllSourceCoverage (with_trace ?f s)))
    with (with_trace f (with_files (delete (m_sparTiaFile this))
                          (with_map ClearAllSourceCoverage s))).
  rewrite updateCoverage_with_trace. cbv zeta.
  cbn [trace with_trace fst snd]. rewrite <- ?app_assoc.
  match goal with
  | |- context [updateCoverage ?t ?jobs ?st] =>
      destruct (updateCoverage t jobs st) as [? [?|?]]
  end; reflexivity.
Qed.

Lemma RegularTestSequence_eq this testTargetTimeout globalTimeout
    startCallback endCallback s :
  let excludeList := m_regularTestTargetExcludeList this in
  let outcome := regular_outcome this testTargetTimeout globalTimeout startCallback s in
  let events :=
    sequence_start startCallback s excludeList
    ++ [EngineRun false (includedTestTargets s excludeList) testTargetTimeout
          globalTimeout]
    ++ optional_event endCallback SequenceEnd in
  let sequenceReport :=
    {| regular_testTargetTimeout := testTargetTimeout;
       regular_globalTimeout := globalTimeout;
       regular_selectedTestRuns :=
         {| Client.GetIncludedTestRuns := includedTestTargets s excludeList;
            Client.GetExcludedTestRuns := excludedTestTargets s excludeList |};
       regular_selectedTestRunReport :=
         GenerateTestRunReport (outcome_result outcome) (outcome_elapsedMs outcome)
           (outcome_jobs outcome) |} in
  RegularTestSequence this testTargetTimeout globalTimeout startCallback endCallback s =
  (with_trace (λ t, t ++ events) s, inr sequenceReport).
Proof.
  cbv zeta.
  unfold regular_outcome, sequence_start, includedTestTargets, excludedTestTargets.
  unfold RegularTestSequence.
  rewrite bind_eq. unfold get_map. cbn beta iota zeta.
  unfold ExtractTestTargetNames.
  rewrite bind_eq, call_if_present_eq.
  rewrite bind_eq, regularTestRun_eq. cbn beta iota zeta.
  rewrite bind_eq, call_if_present_eq. unfold mret, M_ret.
  rewrite !with_trace_app. cbn [trace with_trace]. by rewrite <- ?app_assoc.
Qed.

Lemma UpdateAndSerializeDynamicDependencyMap_nil policy integrity repoRoot sparTiaFile s :
  UpdateAndSerializeDynamicDependencyMap [] policy integrity repoRoot sparTiaFile s
  = (s, inr None).
Proof.
  rewrite UpdateAndSerializeDynamicDependencyMap_eq. simpl.
  unfold remove_targets_of. simpl. rewrite map_to_list_empty. simpl.
  by rewrite with_map_id, with_log_nil.
Qed.

Lemma updateCoverage_nil this s : updateCoverage this [] s = (s, inr tt).
Proof.
  rewrite updateCoverage_eq. cbv zeta.
  rewrite UpdateAndSerializeDynamicDependencyMap_nil. simpl.
  by rewrite with_hasImpactAnalysisData_id.
Qed.

Lemma updateCoverage_throws this jobs s e :
  (updateCoverage this jobs s).2 = inl e →
  m_integrationFailurePolicy this = Policy.Abort ∧ ∃ what, e = RuntimeException what.
Proof.
  rewrite updateCoverage_eq. cbv zeta.
  rewrite UpdateAndSerializeDynamicDependencyMap_eq.
  destruct (List.find passed_without_coverage jobs); cbv zeta.
  - case_bool_decide; simpl; [|done]. intros [= <-]. eauto.
  - case_bool_decide; simpl; [done|].
    destruct (writable s); simpl; [done|].
    case_bool_decide; simpl; [|done]. intros [= <-]. eauto.
Qed.

Lemma updateCoverage_returns this jobs s :
  m_integrationFailurePolicy this ≠ Policy.Abort →
  (updateCoverage this jobs s).2 = inr tt.
Proof.
  intros Hpolicy.
  destruct (updateCoverage this jobs s).2 as [e|[]] eqn:Hr; [|done].
  by destruct (updateCoverage_throws _ _ _ _ Hr).
Qed.

Lemma updateCoverage_flag this jobs s :
  m_hasImpactAnalysisData s = true →
  m_hasImpactAnalysisData (updateCoverage this jobs s).1 = true.
Proof.
  intros Hflag. rewrite updateCoverage_eq. cbv zeta.
  rewrite UpdateAndSerializeDynamicDependencyMap_eq.
  destruct (List.find passed_without_coverage jobs); cbv zeta;
    repeat case_bool_decide; destruct (writable s); simpl; done.
Qed.

Lemma same_data_with_trace f s : same_data (with_trace f s) s.
Proof. by unfold same_data. Qed.

Lemma run_targets_app events1 events2 :
  run_targets (events1 ++ events2) = run_targets events1 ++ run_targets events2.
Proof.
  induction events1 as [|[] events1 IH]; simpl; [done|done|done|done| |done].
  by rewrite IH, app_assoc.
Qed.

Lemma run_targets_run_event instrumented (testTargets : list TestTargetPtr)
    testTargetTimeout globalTimeout :
  run_targets (run_event instrumented testTargets testTargetTimeout globalTimeout)
  = testTargets.
Proof.
  unfold run_event. case_bool_decide as Hne; simpl; [by rewrite app_nil_r|].
  destruct testTargets; [done|]. by destruct Hne.
Qed.

Lemma run_targets_safe_start this changeList prio startCallback s :
  run_targets (safe_start this changeList prio startCallback s) = [].
Proof. unfold safe_start. by destruct startCallback. Qed.

Lemma run_targets_ia_start this changeList prio startCallback s :
  run_targets (ia_start this changeList prio startCallback s) = [].
Proof. unfold ia_start. by destruct startCallback. Qed.

Lemma run_targets_sequence_start startCallback s excludeList :
  run_targets (sequence_start startCallback s excludeList) = [].
Proof. unfold sequence_start. by destruct startCallback. Qed.

Lemma run_targets_end endCallback :
  run_targets (optional_event endCallback SequenceEnd) = [].
Proof. by destruct endCallback. Qed.

End PhaseFacts.


Module SequenceInvariant.
Import ConsolidationFacts SequenceFacts ConsolidationInvariant PhaseFacts.

(** X11. A regular sequence touches neither the map, the persisted
    files, the log nor the flag.  It calls the engine exactly once,
    uninstrumented, on the test targets that are not fully excluded by the
    regular exclude list (also when there are none), between the start and
    the end callback, and returns a report with the jobs of that run. *)
Theorem regular_sequence_runs_once_and_keeps_data (this : NativeRuntime)
    (testTargetTimeout globalTimeout : option Z) (startCallback endCallback : bool)
    (s : State) :
  let excludeList := m_regularTestTargetExcludeList this in
  let r := RegularTestSequence this testTargetTimeout globalTimeout startCallback
             endCallback s in
  same_data r.1 s ∧
  trace r.1 =
    trace s ++ sequence_start startCallback s excludeList
    ++ [EngineRun false (includedTestTargets s excludeList) testTargetTimeout
          globalTimeout]
    ++ optional_event endCallback SequenceEnd ∧
  (∃ report,
     r.2 = inr report ∧
     regular_selectedTestRuns report =
       {| Client.GetIncludedTestRuns := includedTestTargets s excludeList;
          Client.GetExcludedTestRuns := excludedTestTargets s excludeList |} ∧
     ClientReports.GetTestRuns (regular_selectedTestRunReport report) =
       client_test_run <$>
         outcome_jobs (regular_outcome this testTargetTimeout globalTimeout
                         startCallback s)) ∧
  (∀ t, t ∈ m_testTargets (m_dynamicDependencyMap s) →
        (t ∈ includedTestTargets s excludeList ↔
         t ∉ excludedTestTargets s excludeList)).
Proof.
  cbv zeta. rewrite RegularTestSequence_eq. cbv zeta. cbn [fst snd].
  split_and!.
  - apply same_data_with_trace.
  - done.
  - eexists. split; [done|]. by split.
  - intros t Ht. unfold includedTestTargets, excludedTestTargets.
    rewrite !list_elem_of_filter.
    destruct (IsTestTargetFullyExcluded _ t); naive_solver.
Qed.

(** X12. Unless the map policy is [Update], an impact analysis sequence
    is read-only: it returns its report, leaves the map, the persisted
    files, the log and the flag as they are, and every run it asks of the
    engine is an uninstrumented one. *)
Theorem impact_analysis_without_update_is_read_only (this : NativeRuntime)
    (changeList : ChangeList) (prio : Policy.TestPrioritization)
    (mapPolicy : Policy.DynamicDependencyMap)
    (testTargetTimeout globalTimeout : option Z) (startCallback endCallback : bool)
    (s : State) :
  mapPolicy ≠ Policy.Update →
  let r := ImpactAnalysisTestSequence this changeList prio mapPolicy testTargetTimeout
             globalTimeout startCallback endCallback s in
  same_data r.1 s ∧
  (∃ report, r.2 = inr report) ∧
  ∃ events,
    trace r.1 = trace s ++ events ∧
    run_targets events =
      includedSelectedTestTargets this changeList prio s ++ draftedTestTargets s ∧
    ∀ instrumented testTargets targetTimeout timeout,
      EngineRun instrumented testTargets targetTimeout timeout ∈ events →
      instrumented = false.
Proof.
  intros Hpolicy. cbv zeta.
  rewrite ImpactAnalysisTestSequence_Discard_eq by done. cbv zeta. cbn [fst snd].
  split_and!; [apply same_data_with_trace|by eexists|].
  eexists. split; [done|]. split.
  - rewrite !run_targets_app, run_targets_ia_start, run_targets_end.
    unfold ia_selectedRun, ia_draftedRun. rewrite !run_targets_run_event.
    simpl. by rewrite app_nil_r.
  - intros instrumented testTargets targetTimeout timeout.
    unfold ia_start, ia_selectedRun, ia_draftedRun, optional_event, run_event.
    rewrite !elem_of_app.
    repeat case_bool_decide; destruct startCallback, endCallback;
      rewrite ?list_elem_of_singleton, ?elem_of_nil; naive_solver.
Qed.

(** X13. With no selected test target to run and no test target to
    draft, an impact analysis sequence, whatever its map policy, asks
    nothing of the engine: only the callbacks are called, the map, the
    persisted files, the log and the flag stay as they are, and the report
    carries the two initial test run reports.  The same holds of a safe
    impact analysis sequence that has no discarded test target to run
    either. *)
Theorem sequences_with_nothing_to_run_call_no_engine (this : NativeRuntime)
    (changeList : ChangeList) (prio : Policy.TestPrioritization)
    (mapPolicy : Policy.DynamicDependencyMap)
    (testTargetTimeout globalTimeout : option Z) (startCallback endCallback : bool)
    (s : State) :
  includedSelectedTestTargets this changeList prio s = [] →
  draftedTestTargets s = [] →
  (let r := ImpactAnalysisTestSequence this changeList prio mapPolicy testTargetTimeout
              globalTimeout startCallback endCallback s in
   same_data r.1 s ∧
   trace r.1 = trace s ++ ia_start this changeList prio startCallback s
               ++ optional_event endCallback SequenceEnd ∧
   ∃ report,
     r.2 = inr report ∧
     ClientReports.ia_selectedTestRunReport report =
       {| ClientReports.GetSequenceResult := Success;
          ClientReports.GetDuration := 0;
          ClientReports.GetTestRuns := [] |} ∧
     ClientReports.ia_draftedTestRunReport report =
       {| ClientReports.GetSequenceResult := Success;
          ClientReports.GetDuration := 0;
          ClientReports.GetTestRuns := [] |}) ∧
  (includedDiscardedTestTargets this changeList prio s = [] →
   let r := SafeImpactAnalysisTestSequence this changeList prio testTargetTimeout
              globalTimeout startCallback endCallback s in
   same_data r.1 s ∧
   trace r.1 = trace s ++ safe_start this changeList prio startCallback s
               ++ optional_event endCallback SequenceEnd ∧
   ∃ report,
     r.2 = inr report ∧
     ClientReports.safe_selectedTestRunReport report =
       {| ClientReports.GetSequenceResult := Success;
          ClientReports.GetDuration := 0;
          ClientReports.GetTestRuns := [] |} ∧
     ClientReports.safe_discardedTestRunReport report =
       {| ClientReports.GetSequenceResult := Success;
          ClientReports.GetDuration := 0;
          ClientReports.GetTestRuns := [] |} ∧
     ClientReports.safe_draftedTestRunReport report =
       {| ClientReports.GetSequenceResult := Success;
          ClientReports.GetDuration := 0;
          ClientReports.GetTestRuns := [] |}).
Proof.
  intros Hselected Hdrafted. split.
  - cbv zeta. destruct (decide (mapPolicy = Policy.Update)) as [->|Hpolicy].
    + rewrite ImpactAnalysisTestSequence_Update_eq. cbv zeta.
      unfold ia_selectedTestRunData, ia_draftedTestRunData, ia_selectedRun,
        ia_draftedRun, run_data, run_event.
      rewrite Hselected, Hdrafted. simpl. rewrite updateCoverage_nil. cbn [fst snd].
      split_and!; [apply same_data_with_trace|done|].
      eexists. split; [done|]. by split.
    + rewrite ImpactAnalysisTestSequence_Discard_eq by done. cbv zeta.
      unfold ia_selectedRun, ia_draftedRun, run_data, run_event.
      rewrite Hselected, Hdrafted. simpl.
      split_and!; [apply same_data_with_trace|done|].
      eexists. split; [done|]. by split.
  - intros Hdiscarded. cbv zeta.
    rewrite SafeImpactAnalysisTestSequence_eq. cbv zeta.
    unfold safe_draftedTestRunData, safe_draftedRun, safe_draftedTimeout,
      safe_discardedTestRunData, safe_discardedRun, safe_discardedTimeout,
      safe_selectedTestRunData, safe_selectedRun, carried_timeout, run_data, run_event.
    rewrite Hselected, Hdrafted, Hdiscarded. simpl.
    rewrite updateCoverage_nil. cbn [fst snd].
    split_and!; [apply same_data_with_trace|done|].
    eexists. split; [done|]. by split_and!.
Qed.

(** X14. What a safe impact analysis sequence leaves in the map, the
    persisted files, the log and the flag is what ingesting the jobs of its
    selected run followed by those of its drafted run leaves, starting from
    the state the sequence was called in; it throws exactly when that
    ingestion does.  The jobs of the discarded run only show in the report.
    The same holds of an impact analysis sequence under [Update]. *)
Theorem instrumented_jobs_are_what_a_sequence_ingests (this : NativeRuntime)
    (changeList : ChangeList) (prio : Policy.TestPrioritization)
    (testTargetTimeout globalTimeout : option Z) (startCallback endCallback : bool)
    (s : State) :
  (let selectedTestRunData :=
     safe_selectedTestRunData this changeList prio testTargetTimeout globalTimeout
       startCallback s in
   let discardedTestRunData :=
     safe_discardedTestRunData this changeList prio testTargetTimeout globalTimeout
       startCallback s in
   let draftedTestRunData :=
     safe_draftedTestRunData this changeList prio testTargetTimeout globalTimeout
       startCallback s in
   let r := SafeImpactAnalysisTestSequence this changeList prio testTargetTimeout
              globalTimeout startCallback endCallback s in
   let u := updateCoverage this
              (m_jobs selectedTestRunData ++ m_jobs draftedTestRunData) s in
   same_data r.1 u.1 ∧
   (∀ e, r.2 = inl e ↔ u.2 = inl e) ∧
   (∀ report, r.2 = inr report →
      ClientReports.GetTestRuns (ClientReports.safe_selectedTestRunReport report)
        = client_test_run <$> m_jobs selectedTestRunData ∧
      ClientReports.GetTestRuns (ClientReports.safe_discardedTestRunReport report)
        = client_test_run <$> m_jobs discardedTestRunData ∧
      ClientReports.GetTestRuns (ClientReports.safe_draftedTestRunReport report)
        = client_test_run <$> m_jobs draftedTestRunData)) ∧
  (let selectedTestRunData :=
     ia_selectedTestRunData this changeList prio testTargetTimeout globalTimeout
       startCallback s in
   let draftedTestRunData :=
     ia_draftedTestRunData this changeList prio testTargetTimeout globalTimeout
       startCallback s in
   let r := ImpactAnalysisTestSequence this changeList prio Policy.Update
              testTargetTimeout globalTimeout startCallback endCallback s in
   let u := updateCoverage this
              (m_jobs selectedTestRunData ++ m_jobs draftedTestRunData) s in
   same_data r.1 u.1 ∧
   (∀ e, r.2 = inl e ↔ u.2 = inl e) ∧
   (∀ report, r.2 = inr report →
      ClientReports.GetTestRuns (ClientReports.ia_selectedTestRunReport report)
        = client_test_run <$> m_jobs selectedTestRunData ∧
      ClientReports.GetTestRuns (ClientReports.ia_draftedTestRunReport report)
        = client_test_run <$> m_jobs draftedTestRunData)).
Proof.
  split; cbv zeta.
  - rewrite SafeImpactAnalysisTestSequence_eq. cbv zeta. cbn [fst snd].
    split_and!; [apply same_data_with_trace| |].
    + intros e. destruct (updateCoverage _ _ s).2; split; congruence.
    + intros report. destruct (updateCoverage _ _ s).2; [done|].
      intros [= <-]. by split_and!.
  - rewrite ImpactAnalysisTestSequence_Update_eq. cbv zeta. cbn [fst snd].
    split_and!; [apply same_data_with_trace| |].
    + intros e. destruct (updateCoverage _ _ s).2; split; congruence.
    + intros report. destruct (updateCoverage _ _ s).2; [done|].
      intros [= <-]. by split_and!.
Qed.

(** X15. The selector and the engine being taken to return, coverage
    ingestion is the only step of a sequence that throws: what escapes an
    impact analysis, safe impact analysis or seeded sequence is a
    [RuntimeException], and that only under the [Abort] integrity-failure
    policy, after the engine has been called and the end callback, when
    there is one, has been called as the last event.  Under any other
    policy the sequence returns its report; a regular sequence, which
    ingests nothing, always does. *)
Theorem sequences_throw_only_from_ingestion_under_Abort (this : NativeRuntime)
    (changeList : ChangeList) (prio : Policy.TestPrioritization)
    (mapPolicy : Policy.DynamicDependencyMap)
    (testTargetTimeout globalTimeout : option Z) (startCallback endCallback : bool)
    (s : State) :
  let throws_only_under_Abort {Report} (r : State * (Exception + Report)) :=
    (∀ e, r.2 = inl e →
          m_integrationFailurePolicy this = Policy.Abort ∧
          ∃ what, e = RuntimeException what) ∧
    (m_integrationFailurePolicy this ≠ Policy.Abort → ∃ report, r.2 = inr report) ∧
    (∃ events,
       trace r.1 = trace s ++ events ++ optional_event endCallback SequenceEnd) in
  throws_only_under_Abort
    (ImpactAnalysisTestSequence this changeList prio mapPolicy testTargetTimeout
       globalTimeout startCallback endCallback s) ∧
  throws_only_under_Abort
    (SafeImpactAnalysisTestSequence this changeList prio testTargetTimeout
       globalTimeout startCallback endCallback s) ∧
  throws_only_under_Abort
    (SeededTestSequence this testTargetTimeout globalTimeout startCallback
       endCallback s) ∧
  ∃ report,
    (RegularTestSequence this testTargetTimeout globalTimeout startCallback
       endCallback s).2 = inr report.
Proof.
  cbv beta zeta.
  assert (∀ Report jobs s0 (report : Report) e,
            match (updateCoverage this jobs s0).2 with
            | inl e => inl e
            | inr _ => inr report
            end = inl e →
            m_integrationFailurePolicy this = Policy.Abort ∧
            ∃ what, e = RuntimeException what) as Hthrows.
  { intros Report jobs s0 report e.
    destruct (updateCoverage this jobs s0).2 as [e'|] eqn:Hu; [|done].
    intros [= <-]. by apply (updateCoverage_throws _ _ _ _ Hu). }
  assert (∀ Report jobs s0 (report : Report),
            m_integrationFailurePolicy this ≠ Policy.Abort →
            ∃ report', match (updateCoverage this jobs s0).2 with
                       | inl e => inl e
                       | inr _ => inr report
                       end = inr report') as Hreturns.
  { intros Report jobs s0 report Hpolicy.
    rewrite updateCoverage_returns by done. by eexists. }
  split; [|split; [|split]].
  - destruct (decide (mapPolicy = Policy.Update)) as [->|Hpolicy].
    + rewrite ImpactAnalysisTestSequence_Update_eq. cbv zeta. cbn [fst snd].
      split_and!; [apply Hthrows|apply Hreturns|].
      cbn [trace with_trace]. rewrite updateCoverage_trace.
      match goal with
      | |- ∃ _, _ ++ ?a ++ ?b ++ ?c ++ _ = _ => exists (a ++ b ++ c)
      end.
      by rewrite <- !app_assoc.
    + rewrite ImpactAnalysisTestSequence_Discard_eq by done. cbv zeta. cbn [fst snd].
      split_and!; [done|by eexists|].
      cbn [trace with_trace].
      match goal with
      | |- ∃ _, _ ++ ?a ++ ?b ++ ?c ++ _ = _ => exists (a ++ b ++ c)
      end.
      by rewrite <- !app_assoc.
  - rewrite SafeImpactAnalysisTestSequence_eq. cbv zeta. cbn [fst snd].
    split_and!; [apply Hthrows|apply Hreturns|].
    cbn [trace with_trace]. rewrite updateCoverage_trace.
    match goal with
    | |- ∃ _, _ ++ ?a ++ ?b ++ ?c ++ ?d ++ _ = _ => exists (a ++ b ++ c ++ d)
    end.
    by rewrite <- !app_assoc.
  - rewrite SeededTestSequence_eq. cbv zeta. cbn [fst snd].
    split_and!; [apply Hthrows|apply Hreturns|].
    cbn [trace with_trace]. rewrite updateCoverage_trace.
    match goal with
    | |- ∃ _, _ ++ ?a ++ ?b ++ _ = _ => exists (a ++ b)
    end.
    by rewrite <- !app_assoc.
  - rewrite RegularTestSequence_eq. by eexists.
Qed.

(** X16. A safe impact analysis sequence runs every test target that
    is not selected, unless the regular exclude list fully excludes it: the
    test targets it hands to the engine are the included selected, the
    included discarded and the drafted ones.  An impact analysis sequence
    hands over the included selected and the drafted ones only, so none of
    the test targets it reports as discarded is run. *)
Theorem discarded_targets_run_by_safe_sequence_only (this : NativeRuntime)
    (changeList : ChangeList) (prio : Policy.TestPrioritization)
    (mapPolicy : Policy.DynamicDependencyMap)
    (testTargetTimeout globalTimeout : option Z) (startCallback endCallback : bool)
    (s : State) :
  (∃ events,
     trace (SafeImpactAnalysisTestSequence this changeList prio testTargetTimeout
              globalTimeout startCallback endCallback s).1 = trace s ++ events ∧
     run_targets events =
       includedSelectedTestTargets this changeList prio s
       ++ includedDiscardedTestTargets this changeList prio s
       ++ draftedTestTargets s ∧
     ∀ t, t ∈ m_testTargets (m_dynamicDependencyMap s) →
          t ∉ selectedTestTargets this changeList prio s →
          IsTestTargetFullyExcluded (m_regularTestTargetExcludeList this) t = false →
          t ∈ run_targets events) ∧
  (∃ events,
     trace (ImpactAnalysisTestSequence this changeList prio mapPolicy testTargetTimeout
              globalTimeout startCallback endCallback s).1 = trace s ++ events ∧
     run_targets events =
       includedSelectedTestTargets this changeList prio s ++ draftedTestTargets s ∧
     ∀ t, t ∈ ia_discardedTestTargets this changeList prio s →
          t ∉ run_targets events).
Proof.
  split.
  - rewrite SafeImpactAnalysisTestSequence_eq. cbv zeta. cbn [fst trace with_trace].
    rewrite updateCoverage_trace. eexists. split; [done|].
    assert (∀ A (l1 l2 l3 : list A), l1 ++ l2 ++ l3 ++ [] = l1 ++ l2 ++ l3) as Hnil
      by (intros; by rewrite app_nil_r).
    rewrite !run_targets_app, run_targets_safe_start, run_targets_end.
    unfold safe_selectedRun, safe_discardedRun, safe_draftedRun.
    rewrite !run_targets_run_event. cbn [app]. rewrite Hnil.
    split; [done|].
    intros t Ht Hunselected Hincluded. rewrite !elem_of_app. right; left.
    unfold includedDiscardedTestTargets, SelectTestTargetsByExcludeList,
      unselectedTestTargets. cbn [fst].
    rewrite !list_elem_of_filter. done.
  - assert (∀ t, t ∈ ia_discardedTestTargets this changeList prio s →
                 t ∉ includedSelectedTestTargets this changeList prio s
                     ++ draftedTestTargets s) as Hdiscarded.
    { intros t. unfold ia_discardedTestTargets, unselectedTestTargets,
        includedSelectedTestTargets, SelectTestTargetsByExcludeList. cbn [fst].
      rewrite elem_of_app, !list_elem_of_filter. tauto. }
    assert (∀ A (l1 l2 : list A), l1 ++ l2 ++ [] = l1 ++ l2) as Hnil
      by (intros; by rewrite app_nil_r).
    destruct (decide (mapPolicy = Policy.Update)) as [->|Hpolicy].
    + rewrite ImpactAnalysisTestSequence_Update_eq. cbv zeta.
      cbn [fst trace with_trace]. rewrite updateCoverage_trace.
      eexists. split; [done|].
      rewrite !run_targets_app, run_targets_ia_start, run_targets_end.
      unfold ia_selectedRun, ia_draftedRun.
      rewrite !run_targets_run_event. cbn [app]. rewrite Hnil. by split.
    + rewrite ImpactAnalysisTestSequence_Discard_eq by done. cbv zeta.
      cbn [fst trace with_trace]. eexists. split; [done|].
      rewrite !run_targets_app, run_targets_ia_start, run_targets_end.
      unfold ia_selectedRun, ia_draftedRun.
      rewrite !run_targets_run_event. cbn [app]. rewrite Hnil. by split.
Qed.

(** X17. In a safe impact analysis sequence with a global timeout, the
    selected run is given that timeout, the discarded run what the
    duration of the selected run leaves of it, and the drafted run what
    the durations of the selected and the discarded run together leave of
    it, never less than zero; the durations are those the report shows. *)
Theorem safe_sequence_carries_remaining_timeout (this : NativeRuntime)
    (changeList : ChangeList) (prio : Policy.TestPrioritization)
    (testTargetTimeout : option Z) (globalTimeout : Z)
    (startCallback endCallback : bool) (s : State) :
  (0 ≤ globalTimeout)%Z →
  let selectedDuration :=
    m_duration (safe_selectedTestRunData this changeList prio testTargetTimeout
                  (Some globalTimeout) startCallback s) in
  let discardedDuration :=
    m_duration (safe_discardedTestRunData this changeList prio testTargetTimeout
                  (Some globalTimeout) startCallback s) in
  let r := SafeImpactAnalysisTestSequence this changeList prio testTargetTimeout
             (Some globalTimeout) startCallback endCallback s in
  trace r.1 =
    trace s ++ safe_start this changeList prio startCallback s
    ++ run_event true (includedSelectedTestTargets this changeList prio s)
         testTargetTimeout (Some globalTimeout)
    ++ run_event false (includedDiscardedTestTargets this changeList prio s)
         testTargetTimeout (Some (Z.max 0 (globalTimeout - selectedDuration)))
    ++ run_event true (draftedTestTargets s) testTargetTimeout
         (Some (Z.max 0 (globalTimeout - (selectedDuration + discardedDuration))))
    ++ optional_event endCallback SequenceEnd ∧
  (∀ report, r.2 = inr report →
     ClientReports.GetDuration (ClientReports.safe_selectedTestRunReport report)
       = selectedDuration ∧
     ClientReports.GetDuration (ClientReports.safe_discardedTestRunReport report)
       = discardedDuration).
Proof.
  intros Hpos.
  assert (safe_discardedTimeout this changeList prio testTargetTimeout
            (Some globalTimeout) startCallback s =
          Some (Z.max 0 (globalTimeout
                         - m_duration (safe_selectedTestRunData this changeList prio
                                         testTargetTimeout (Some globalTimeout)
                                         startCallback s)))) as Hdiscarded.
  { unfold safe_discardedTimeout, carried_timeout, safe_selectedTestRunData, run_data.
    case_bool_decide; simpl; f_equal; [|lia].
    match goal with |- context [(?d <? _)%Z] =>
      destruct (Z.ltb_spec d globalTimeout); lia end. }
  assert (safe_draftedTimeout this changeList prio testTargetTimeout
            (Some globalTimeout) startCallback s =
          Some (Z.max 0 (globalTimeout
                         - (m_duration (safe_selectedTestRunData this changeList prio
                                          testTargetTimeout (Some globalTimeout)
                                          startCallback s)
                            + m_duration (safe_discardedTestRunData this changeList
                                            prio testTargetTimeout (Some globalTimeout)
                                            startCallback s))))) as Hdrafted.
  { unfold safe_draftedTimeout. rewrite Hdiscarded.
    unfold carried_timeout, safe_discardedTestRunData, run_data.
    case_bool_decide; simpl; f_equal; [|lia].
    match goal with |- context [(?d <? _)%Z] =>
      destruct (Z.ltb_spec d globalTimeout); lia end. }
  cbv zeta.
  rewrite SafeImpactAnalysisTestSequence_eq. cbv zeta. cbn [fst snd trace with_trace].
  rewrite updateCoverage_trace. split.
  - unfold safe_selectedRun, safe_discardedRun, safe_draftedRun.
    by rewrite Hdiscarded, Hdrafted.
  - intros report. destruct (updateCoverage _ _ s).2; [done|].
    by intros [= <-].
Qed.

(** X18. The total a sequence announces to the client with every
    completed test run is the number of test targets it hands to the
    engine over all its runs: the included selected and the drafted ones
    in an impact analysis sequence, these and the included discarded ones
    in a safe one, the included ones in a seeded and in a regular one. *)
Theorem announced_total_is_number_of_targets_run (this : NativeRuntime)
    (changeList : ChangeList) (prio : Policy.TestPrioritization)
    (mapPolicy : Policy.DynamicDependencyMap)
    (testTargetTimeout globalTimeout : option Z) (startCallback endCallback : bool)
    (s : State) :
  (∃ events,
     trace (ImpactAnalysisTestSequence this changeList prio mapPolicy testTargetTimeout
              globalTimeout startCallback endCallback s).1 = trace s ++ events ∧
     length (run_targets events) =
       ImpactAnalysis_totalNumTestRuns
         (includedSelectedTestTargets this changeList prio s) (draftedTestTargets s)) ∧
  (∃ events,
     trace (SafeImpactAnalysisTestSequence this changeList prio testTargetTimeout
              globalTimeout startCallback endCallback s).1 = trace s ++ events ∧
     length (run_targets events) =
       SafeImpactAnalysis_totalNumTestRuns
         (includedSelectedTestTargets this changeList prio s) (draftedTestTargets s)
         (includedDiscardedTestTargets this changeList prio s)) ∧
  (∃ events,
     trace (SeededTestSequence this testTargetTimeout globalTimeout startCallback
              endCallback s).1 = trace s ++ events ∧
     length (run_targets events) =
       length (includedTestTargets s (m_instrumentedTestTargetExcludeList this))) ∧
  (∃ events,
     trace (RegularTestSequence this testTargetTimeout globalTimeout startCallback
              endCallback s).1 = trace s ++ events ∧
     length (run_targets events) =
       length (includedTestTargets s (m_regularTestTargetExcludeList this))).
Proof.
  unfold ImpactAnalysis_totalNumTestRuns, SafeImpactAnalysis_totalNumTestRuns.
  split_and!.
  - destruct (decide (mapPolicy = Policy.Update)) as [->|Hpolicy].
    + rewrite ImpactAnalysisTestSequence_Update_eq. cbv zeta.
      cbn [fst trace with_trace]. rewrite updateCoverage_trace.
      eexists. split; [done|].
      rewrite !run_targets_app, run_targets_ia_start, run_targets_end.
      unfold ia_selectedRun, ia_draftedRun.
      rewrite !run_targets_run_event, !length_app. simpl. lia.
    + rewrite ImpactAnalysisTestSequence_Discard_eq by done. cbv zeta.
      cbn [fst trace with_trace]. eexists. split; [done|].
      rewrite !run_targets_app, run_targets_ia_start, run_targets_end.
      unfold ia_selectedRun, ia_draftedRun.
      rewrite !run_targets_run_event, !length_app. simpl. lia.
  - rewrite SafeImpactAnalysisTestSequence_eq. cbv zeta. cbn [fst trace with_trace].
    rewrite updateCoverage_trace. eexists. split; [done|].
    rewrite !run_targets_app, run_targets_safe_start, run_targets_end.
    unfold safe_selectedRun, safe_discardedRun, safe_draftedRun.
    rewrite !run_targets_run_event, !length_app. simpl. lia.
  - rewrite SeededTestSequence_eq. cbv zeta. cbn [fst trace with_trace].
    rewrite updateCoverage_trace. eexists. split; [done|].
    rewrite !run_targets_app, run_targets_sequence_start, run_targets_end.
    simpl. rewrite !length_app. simpl. lia.
  - rewrite RegularTestSequence_eq. cbv zeta. cbn [fst trace with_trace].
    eexists. split; [done|].
    rewrite !run_targets_app, run_targets_sequence_start, run_targets_end.
    simpl. rewrite !length_app. simpl. lia.
Qed.

(** X19. [ClearDynamicDependencyMapAndRemoveExistingFile] never throws;
    it leaves a map over the same test targets in which no source is
    covered, so that every test target is one without coverage, removes the
    persisted file and no other, and does not touch the flag. *)
Theorem clear_map_and_remove_file (this : NativeRuntime) (s : State) :
  let r := ClearDynamicDependencyMapAndRemoveExistingFile this s in
  r.2 = inr tt ∧
  m_testTargets (m_dynamicDependencyMap r.1) = m_testTargets (m_dynamicDependencyMap s) ∧
  (∀ source t,
     ¬ covers (m_sourceDependencyMap (m_dynamicDependencyMap r.1)) source t) ∧
  GetNotCoveringTests (m_dynamicDependencyMap r.1)
    = m_testTargets (m_dynamicDependencyMap s) ∧
  files r.1 !! m_sparTiaFile this = None ∧
  (∀ path, path ≠ m_sparTiaFile this → files r.1 !! path = files s !! path) ∧
  m_hasImpactAnalysisData r.1 = m_hasImpactAnalysisData s ∧
  log r.1 = log s ∧ trace r.1 = trace s.
Proof.
  cbv zeta. unfold ClearDynamicDependencyMapAndRemoveExistingFile.
  rewrite bind_eq. unfold modify_map, DeleteFile. simpl.
  split_and!; try done.
  - intros source t. apply not_covers_empty.
  - unfold GetNotCoveringTests, GetCoveredSources. simpl.
    induction (m_testTargets (m_dynamicDependencyMap s)) as [|t l IH]; [done|].
    rewrite filter_cons_True; [by rewrite IH|].
    by rewrite map_filter_empty, dom_empty_L.
  - apply lookup_delete_eq.
  - intros path Hpath. by apply lookup_delete_ne.
Qed.

(** X20. No sequence lowers the flag that [HasImpactAnalysisData]
    reports: when the runtime has impact analysis data before a sequence,
    it reports so after it, whether the sequence returns or throws. *)
Theorem sequences_keep_impact_analysis_data_flag (this : NativeRuntime)
    (changeList : ChangeList) (prio : Policy.TestPrioritization)
    (mapPolicy : Policy.DynamicDependencyMap)
    (testTargetTimeout globalTimeout : option Z) (startCallback endCallback : bool)
    (s : State) :
  (HasImpactAnalysisData s).2 = inr true →
  (HasImpactAnalysisData
     (ImpactAnalysisTestSequence this changeList prio mapPolicy testTargetTimeout
        globalTimeout startCallback endCallback s).1).2 = inr true ∧
  (HasImpactAnalysisData
     (SafeImpactAnalysisTestSequence this changeList prio testTargetTimeout
        globalTimeout startCallback endCallback s).1).2 = inr true ∧
  (HasImpactAnalysisData
     (SeededTestSequence this testTargetTimeout globalTimeout startCallback
        endCallback s).1).2 = inr true ∧
  (HasImpactAnalysisData
     (RegularTestSequence this testTargetTimeout globalTimeout startCallback
        endCallback s).1).2 = inr true.
Proof.
  unfold HasImpactAnalysisData. cbn [snd]. intros [= Hflag].
  split_and!; f_equal.
  - destruct (decide (mapPolicy = Policy.Update)) as [->|Hpolicy].
    + rewrite ImpactAnalysisTestSequence_Update_eq. cbv zeta.
      cbn [fst with_trace m_hasImpactAnalysisData]. by apply updateCoverage_flag.
    + by rewrite ImpactAnalysisTestSequence_Discard_eq by done.
  - rewrite SafeImpactAnalysisTestSequence_eq. cbv zeta.
    cbn [fst with_trace m_hasImpactAnalysisData]. by apply updateCoverage_flag.
  - rewrite SeededTestSequence_eq. cbv zeta.
    cbn [fst with_trace m_hasImpactAnalysisData]. by apply updateCoverage_flag.
  - by rewrite RegularTestSequence_eq.
Qed.

End SequenceInvariant.

(** ** The handler of test run completion *)

Module CallbackHandler.

Section Handler.
Context `{TestEngineJob TestJob}.

Lemma size_t_modulus_ne_0 : size_t_modulus ≠ 0%N.
Proof. done. Qed.

Lemma TestRunCompleteCallbackHandler_calls_app
    (handler : TestRunCompleteCallbackHandler) (testJobs1 testJobs2 : list TestJob) :
  TestRunCompleteCallbackHandler_calls handler (testJobs1 ++ testJobs2) =
    let r1 := TestRunCompleteCallbackHandler_calls handler testJobs1 in
    let r2 := TestRunCompleteCallbackHandler_calls r1.1 testJobs2 in
    (r2.1, r1.2 ++ r2.2).
Proof.
  revert handler. induction testJobs1 as [|testJob testJobs1 IH]; intros handler.
  - simpl. by destruct (TestRunCompleteCallbackHandler_calls handler testJobs2).
  - cbn [app TestRunCompleteCallbackHandler_calls]. cbv zeta. rewrite IH. cbv zeta.
    cbn [fst snd]. by rewrite app_assoc.
Qed.

Lemma TestRunCompleteCallbackHandler_calls_numbered
    (handler : TestRunCompleteCallbackHandler) (testJobs : list TestJob) :
  m_testCompleteCallback handler = true →
  (TestRunCompleteCallbackHandler_calls handler testJobs).2 =
    imap (λ i testJob,
            {| call_testRun := client_test_run testJob;
               call_numTestsCompleted :=
                 ((m_numTestsCompleted handler + N.of_nat i + 1)
                    mod size_t_modulus)%N;
               call_totalTests := m_totalTests handler |}) testJobs.
Proof.
  revert handler.
  induction testJobs as [|testJob testJobs IH]; intros handler Hcb; [done|].
  cbn [TestRunCompleteCallbackHandler_calls]. cbv zeta.
  unfold TestRunCompleteCallbackHandler_call. rewrite Hcb.
  cbn [fst snd app imap]. rewrite IH by done. cbn [m_numTestsCompleted m_totalTests].
  f_equal.
  - unfold client_test_run. do 2 f_equal. by rewrite N.add_0_r.
  - apply imap_ext. intros i testJob' _. cbn [compose]. f_equal.
    rewrite <- N.add_assoc, N.Div0.add_mod_idemp_l. f_equal. lia.
Qed.

(** X21. The handler shared by the runs of a sequence numbers the calls
    of the client's callback consecutively, in [size_t], starting at one
    and continuing from one run to the next, and passes the total it was
    constructed with at each call; it hands the client the target name,
    command string and result of the job.  Without a client callback it
    calls nothing and does not count. *)
Theorem completion_handler_counts_consecutively
    (handler : TestRunCompleteCallbackHandler) (testJobs : list TestJob) :
  let r := TestRunCompleteCallbackHandler_calls handler testJobs in
  (m_testCompleteCallback handler = false → r = (handler, [])) ∧
  (m_testCompleteCallback handler = true →
   r.2 = imap (λ i testJob,
                 {| call_testRun := client_test_run testJob;
                    call_numTestsCompleted :=
                      ((m_numTestsCompleted handler + N.of_nat i + 1)
                         mod size_t_modulus)%N;
                    call_totalTests := m_totalTests handler |}) testJobs ∧
   ((m_numTestsCompleted handler < size_t_modulus)%N →
    m_numTestsCompleted r.1 =
      ((m_numTestsCompleted handler + N.of_nat (length testJobs))
         mod size_t_modulus)%N)) ∧
  m_totalTests r.1 = m_totalTests handler ∧
  m_testCompleteCallback r.1 = m_testCompleteCallback handler ∧
  (∀ testJobs',
     (TestRunCompleteCallbackHandler_calls handler (testJobs ++ testJobs')).2 =
     r.2 ++ (TestRunCompleteCallbackHandler_calls r.1 testJobs').2) ∧
  (∀ totalTests,
     (TestRunCompleteCallbackHandler_calls
        (TestRunCompleteCallbackHandler_ctor totalTests true) testJobs).2 =
     imap (λ i testJob,
             {| call_testRun := client_test_run testJob;
                call_numTestsCompleted := ((N.of_nat i + 1) mod size_t_modulus)%N;
                call_totalTests := totalTests |}) testJobs).
Proof.
  cbv zeta. split_and!.
  - revert handler. induction testJobs as [|testJob testJobs IH]; intros handler Hcb;
      [done|].
    cbn [TestRunCompleteCallbackHandler_calls]. cbv zeta.
    unfold TestRunCompleteCallbackHandler_call. rewrite Hcb. cbn [fst snd].
    by rewrite IH.
  - intros Hcb. split; [by apply TestRunCompleteCallbackHandler_calls_numbered|].
    revert handler Hcb.
    induction testJobs as [|testJob testJobs IH]; intros handler Hcb Hlt.
    { simpl. rewrite N.add_0_r. symmetry. by apply N.mod_small. }
    cbn [TestRunCompleteCallbackHandler_calls]. cbv zeta. cbn [fst].
    unfold TestRunCompleteCallbackHandler_call. rewrite Hcb. cbn [fst].
    rewrite IH; cbn [m_numTestsCompleted m_testCompleteCallback]; [|done|].
    + rewrite N.Div0.add_mod_idemp_l. f_equal. cbn [length]. lia.
    + apply N.mod_upper_bound, size_t_modulus_ne_0.
  - revert handler. induction testJobs as [|testJob testJobs IH]; intros handler;
      [done|].
    cbn [TestRunCompleteCallbackHandler_calls]. cbv zeta. cbn [fst]. rewrite IH.
    unfold TestRunCompleteCallbackHandler_call.
    by destruct (m_testCompleteCallback handler) eqn:Hcb.
  - revert handler. induction testJobs as [|testJob testJobs IH]; intros handler;
      [done|].
    cbn [TestRunCompleteCallbackHandler_calls]. cbv zeta. cbn [fst]. rewrite IH.
    unfold TestRunCompleteCallbackHandler_call.
    by destruct (m_testCompleteCallback handler) eqn:Hcb.
  - intros testJobs'. by rewrite TestRunCompleteCallbackHandler_calls_app.
  - intros totalTests.
    by rewrite TestRunCompleteCallbackHandler_calls_numbered.
Qed.

End Handler.
End CallbackHandler.

Module SequenceInvariantWitness.
Import SequenceInvariant.

Lemma impact_analysis_discarding_map_is_read_only :
  let r := ImpactAnalysisTestSequence (Scenario.runtime Scenario.engine Policy.Keep)
             Scenario.changeList Policy.NoPrioritization Policy.DiscardMap None None
             true true Scenario.seeded_state in
  same_data r.1 Scenario.seeded_state ∧
  (∃ report, r.2 = inr report) ∧
  ∃ events,
    trace r.1 = trace Scenario.seeded_state ++ events ∧
    run_targets events =
      includedSelectedTestTargets (Scenario.runtime Scenario.engine Policy.Keep)
        Scenario.changeList Policy.NoPrioritization Scenario.seeded_state
      ++ draftedTestTargets Scenario.seeded_state ∧
    ∀ instrumented testTargets targetTimeout timeout,
      EngineRun instrumented testTargets targetTimeout timeout ∈ events →
      instrumented = false.
Proof.
  apply (impact_analysis_without_update_is_read_only
           (Scenario.runtime Scenario.engine Policy.Keep) Scenario.changeList
           Policy.NoPrioritization Policy.DiscardMap None None true true
           Scenario.seeded_state).
  discriminate.
Defined.

Lemma idle_runtime_calls_no_engine :
  (let r := ImpactAnalysisTestSequence IdleScenario.runtime Scenario.changeList
              Policy.NoPrioritization Policy.Update None None true true
              IdleScenario.covered_state in
   same_data r.1 IdleScenario.covered_state ∧
   trace r.1 =
     trace IdleScenario.covered_state
     ++ ia_start IdleScenario.runtime Scenario.changeList Policy.NoPrioritization true
          IdleScenario.covered_state
     ++ optional_event true SequenceEnd ∧
   ∃ report,
     r.2 = inr report ∧
     ClientReports.ia_selectedTestRunReport report =
       {| ClientReports.GetSequenceResult := Success;
          ClientReports.GetDuration := 0;
          ClientReports.GetTestRuns := [] |} ∧
     ClientReports.ia_draftedTestRunReport report =
       {| ClientReports.GetSequenceResult := Success;
          ClientReports.GetDuration := 0;
          ClientReports.GetTestRuns := [] |}) ∧
  (let r := SafeImpactAnalysisTestSequence IdleScenario.runtime Scenario.changeList
              Policy.NoPrioritization None None true true
              IdleScenario.covered_state in
   same_data r.1 IdleScenario.covered_state ∧
   trace r.1 =
     trace IdleScenario.covered_state
     ++ safe_start IdleScenario.runtime Scenario.changeList Policy.NoPrioritization true
          IdleScenario.covered_state
     ++ optional_event true SequenceEnd ∧
   ∃ report,
     r.2 = inr report ∧
     ClientReports.safe_selectedTestRunReport report =
       {| ClientReports.GetSequenceResult := Success;
          ClientReports.GetDuration := 0;
          ClientReports.GetTestRuns := [] |} ∧
     ClientReports.safe_discardedTestRunReport report =
       {| ClientReports.GetSequenceResult := Success;
          ClientReports.GetDuration := 0;
          ClientReports.GetTestRuns := [] |} ∧
     ClientReports.safe_draftedTestRunReport report =
       {| ClientReports.GetSequenceResult := Success;
          ClientReports.GetDuration := 0;
          ClientReports.GetTestRuns := [] |}).
Proof.
  destruct (sequences_with_nothing_to_run_call_no_engine IdleScenario.runtime
              Scenario.changeList Policy.NoPrioritization Policy.Update None None
              true true IdleScenario.covered_state) as [Hia Hsafe].
  - vm_compute. reflexivity.
  - vm_compute. reflexivity.
  - split; [exact Hia|]. apply Hsafe. vm_compute. reflexivity.
Defined.

Lemma safe_sequence_carries_remainder_of_1000 :
  let this := Scenario.runtime Scenario.engine Policy.Keep in
  let selectedDuration :=
    m_duration (safe_selectedTestRunData this Scenario.changeList
                  Policy.NoPrioritization None (Some 1000%Z) false
                  Scenario.seeded_state) in
  let discardedDuration :=
    m_duration (safe_discardedTestRunData this Scenario.changeList
                  Policy.NoPrioritization None (Some 1000%Z) false
                  Scenario.seeded_state) in
  let r := SafeImpactAnalysisTestSequence this Scenario.changeList
             Policy.NoPrioritization None (Some 1000%Z) false false
             Scenario.seeded_state in
  trace r.1 =
    trace Scenario.seeded_state
    ++ safe_start this Scenario.changeList Policy.NoPrioritization false
         Scenario.seeded_state
    ++ run_event true
         (includedSelectedTestTargets this Scenario.changeList Policy.NoPrioritization
            Scenario.seeded_state) None (Some 1000%Z)
    ++ run_event false
         (includedDiscardedTestTargets this Scenario.changeList
            Policy.NoPrioritization Scenario.seeded_state) None
         (Some (Z.max 0 (1000 - selectedDuration)))
    ++ run_event true (draftedTestTargets Scenario.seeded_state) None
         (Some (Z.max 0 (1000 - (selectedDuration + discardedDuration))))
    ++ optional_event false SequenceEnd ∧
  (∀ report, r.2 = inr report →
     ClientReports.GetDuration (ClientReports.safe_selectedTestRunReport report)
       = selectedDuration ∧
     ClientReports.GetDuration (ClientReports.safe_discardedTestRunReport report)
       = discardedDuration).
Proof.
  apply (safe_sequence_carries_remaining_timeout
           (Scenario.runtime Scenario.engine Policy.Keep) Scenario.changeList
           Policy.NoPrioritization None 1000%Z false false Scenario.seeded_state).
  lia.
Defined.

Lemma seeded_state_keeps_impact_analysis_data_flag :
  (HasImpactAnalysisData
     (ImpactAnalysisTestSequence (Scenario.runtime Scenario.failing_engine Policy.Discard)
        Scenario.changeList Policy.NoPrioritization Policy.Update None None false false
        Scenario.seeded_state).1).2 = inr true ∧
  (HasImpactAnalysisData
     (SafeImpactAnalysisTestSequence
        (Scenario.runtime Scenario.failing_engine Policy.Discard)
        Scenario.changeList Policy.NoPrioritization None None false false
        Scenario.seeded_state).1).2 = inr true ∧
  (HasImpactAnalysisData
     (SeededTestSequence (Scenario.runtime Scenario.failing_engine Policy.Discard)
        None None false false Scenario.seeded_state).1).2 = inr true ∧
  (HasImpactAnalysisData
     (RegularTestSequence (Scenario.runtime Scenario.failing_engine Policy.Discard)
        None None false false Scenario.seeded_state).1).2 = inr true.
Proof.
  apply (sequences_keep_impact_analysis_data_flag
           (Scenario.runtime Scenario.failing_engine Policy.Discard)
           Scenario.changeList Policy.NoPrioritization Policy.Update None None
           false false Scenario.seeded_state).
  reflexivity.
Defined.

End SequenceInvariantWitness.
